(** * stress-ng: the lockofd and membarrier stressors

    A shallow embedding of [stress-lockofd.c] and [stress-membarrier.c].

    - [Lockofd]: the tracking list of lock records is the C singly linked
      list, kept in an explicit heap of nodes addressed by index; the
      procedures live in a state-and-fault monad ([None] is a dereference of
      an invalid pointer); system calls are recorded in a trace and their
      results are inputs of the model.
    - [Membarrier]: the exercise cycle with its three shift loops over a
      32-bit [unsigned int], the capability gate and the rate aggregation;
      the C [double] arithmetic is an interface ([DoubleOps]) with the
      rationals as its exact instance. *)

From Stdlib Require Import ZArith QArith Lia Sorted.
From Stdlib Require Import String.
From stdpp Require Import base numbers option list.

Local Open Scope Z_scope.

(* ===================================================================== *)
(** * Part I: stress-lockofd.c *)
(* ===================================================================== *)

Module Lockofd.

(** ** Constants *)

Definition LOCK_FILE_SIZE : Z := 1024 * 1024.
Definition LOCK_SIZE : Z := 8.
Definition LOCK_MAX : Z := 1024.

(** ** Data model *)

(** A pointer to a [lockofd_info_t] is [option addr]: [None] is [NULL]. *)
Abbreviation addr := nat.

(** [struct lockofd_info]. *)
Record lockofd_info_t : Type := mk_info {
  offset : Z;
  len : Z;
  next : option addr;
}.

(** [lockofd_info_list_t]; the fields [head], [tail], [free] and [length]
    carry the prefix [li_] to keep them apart from the list functions of the
    same names.  [li_length] is a [uint64_t]. *)
Record lockofd_info_list_t : Type := mk_list {
  li_head : option addr;
  li_tail : option addr;
  li_free : option addr;
  li_length : Z;
}.

(** The part of [struct flock] and of the [fcntl] interface the file uses. *)
Inductive lock_type : Type := F_RDLCK | F_WRLCK | F_UNLCK.
Inductive whence : Type := SEEK_SET | SEEK_CUR | SEEK_END.
Inductive fcntl_cmd : Type := F_OFD_GETLK | F_OFD_SETLK | F_OFD_SETLKW.

Record flock : Type := mk_flock {
  l_type : lock_type;
  l_whence : whence;
  l_start : Z;
  l_len : Z;
  l_pid : Z;
}.

(** What the procedures do to the outside world, in program order. *)
Inductive event : Type :=
  | Fcntl (cmd : fcntl_cmd) (f : flock)
  | PrFailErr (what : String.string)
  | IncCounter.

(** The heap of allocated nodes, the static [lockofd_infos] and the trace. *)
Record state : Type := mk_state {
  heap : list lockofd_info_t;
  lockofd_infos : lockofd_info_list_t;
  trace : list event;
}.

(** The zero-initialised static and an empty heap. *)
Definition init : state :=
  mk_state [] (mk_list None None None 0) [].

Definition uint64_wrap (z : Z) : Z := z mod 2 ^ 64.

(** ** The monad: state passing, [None] for an invalid dereference *)

Definition M (A : Type) : Type := state -> option (A * state).

Definition ret {A} (a : A) : M A := fun st => Some (a, st).

Definition bind {A B} (m : M A) (k : A -> M B) : M B :=
  fun st => match m st with
            | Some (a, st') => k a st'
            | None => None
            end.

Definition fault {A} : M A := fun _ => None.

Notation "'let*' x ':=' m 'in' k" := (bind m (fun x => k))
  (at level 10, x name, m at level 100, k at level 200).

Definition get_infos : M lockofd_info_list_t :=
  fun st => Some (lockofd_infos st, st).

Definition put_infos (li : lockofd_info_list_t) : M unit :=
  fun st => Some (tt, mk_state (heap st) li (trace st)).

(** [*p] for reading. *)
Definition load (p : option addr) : M lockofd_info_t :=
  fun st => match p with
            | Some a => match heap st !! a with
                        | Some n => Some (n, st)
                        | None => None
                        end
            | None => None
            end.

(** [*p = n]. *)
Definition store (p : option addr) (n : lockofd_info_t) : M unit :=
  fun st => match p with
            | Some a => match heap st !! a with
                        | Some _ =>
                            Some (tt, mk_state (<[a := n]> (heap st))
                                               (lockofd_infos st) (trace st))
                        | None => None
                        end
            | None => None
            end.

Definition emit (e : event) : M unit :=
  fun st => Some (tt, mk_state (heap st) (lockofd_infos st) (trace st ++ [e])).

(** [calloc] of one node: whether it succeeds is an input; a fresh
    node is zero-filled and its address is one no live node has (nothing is
    freed before teardown, so the next index of the heap). *)
Definition calloc (ok : bool) : M (option addr) :=
  fun st =>
    if ok then
      Some (Some (length (heap st)),
            mk_state (heap st ++ [mk_info 0 0 None]) (lockofd_infos st) (trace st))
    else Some (None, st).

(** Field updates. *)
Definition set_next (p : option addr) (v : option addr) : M unit :=
  let* n := load p in store p (mk_info (offset n) (len n) v).

Definition set_offset (p : option addr) (v : Z) : M unit :=
  let* n := load p in store p (mk_info v (len n) (next n)).

Definition set_len (p : option addr) (v : Z) : M unit :=
  let* n := load p in store p (mk_info (offset n) v (next n)).

Definition set_head (v : option addr) : M unit :=
  let* li := get_infos in
  put_infos (mk_list v (li_tail li) (li_free li) (li_length li)).

Definition set_tail (v : option addr) : M unit :=
  let* li := get_infos in
  put_infos (mk_list (li_head li) v (li_free li) (li_length li)).

Definition set_free (v : option addr) : M unit :=
  let* li := get_infos in
  put_infos (mk_list (li_head li) (li_tail li) v (li_length li)).

Definition set_length (v : Z) : M unit :=
  let* li := get_infos in
  put_infos (mk_list (li_head li) (li_tail li) (li_free li) v).

(** ** The list procedures *)

(** [stress_lockofd_info_new]: allocate a new node, add to end of list. *)
Definition stress_lockofd_info_new (calloc_ok : bool) : M (option addr) :=
  let* li := get_infos in
  let* new :=
    match li_free li with
    | Some _ =>
        (* Pop an old one off the free list *)
        let new := li_free li in
        let* n := load new in
        let* _ := set_free (next n) in
        let* _ := set_next new None in
        ret new
    | None => calloc calloc_ok
    end in
  match new with
  | None => ret None
  | Some _ =>
      let* li := get_infos in
      let* _ :=
        match li_head li with
        | Some _ => set_next (li_tail li) new
        | None => set_head new
        end in
      let* _ := set_tail new in
      let* li := get_infos in
      let* _ := set_length (uint64_wrap (li_length li + 1)) in
      ret new
  end.

(** [stress_lockofd_info_head_remove]: remove the head of the list and put
    it onto the free list. *)
Definition stress_lockofd_info_head_remove : M unit :=
  let* li := get_infos in
  match li_head li with
  | Some _ =>
      let head := li_head li in
      let* h := load head in
      let* _ :=
        if decide (li_tail li = li_head li) then
          let* _ := set_tail None in set_head None
        else set_head (next h) in
      (* Shove it on the free list *)
      let* li := get_infos in
      let* _ := set_next head (li_free li) in
      let* _ := set_free head in
      let* li := get_infos in
      set_length (uint64_wrap (li_length li - 1))
  | None => ret tt
  end.

(** [stress_lockofd_unlock]: pop the oldest lock record off the list and
    unlock it.  [rc] is what [fcntl(fd, F_OFD_SETLK, &f)] returns. *)
Definition stress_lockofd_unlock (rc : Z) : M Z :=
  let* li := get_infos in
  match li_head li with
  | None => ret 0
  | Some _ =>
      let* h := load (li_head li) in
      let f := mk_flock F_UNLCK SEEK_SET (offset h) (len h) 0 in
      let* _ := stress_lockofd_info_head_remove in
      let* _ := emit (Fcntl F_OFD_SETLK f) in
      if rc <? 0 then
        let* _ := emit (PrFailErr "F_SETLK"%string) in ret (-1)
      else ret 0
  end.

(** ** The contention loop *)

(** [len = (mwc16() + 1) & 0xfff]: [mwc16()] is a [uint16_t], promoted to
    [int] before the addition. *)
Definition lock_len (v16 : Z) : Z := Z.land (v16 + 1) 4095.

(** [offset = mwc64() % (LOCK_FILE_SIZE - len)]: the divisor is positive, so
    its conversion to [uint64_t] keeps its value. *)
Definition lock_offset (v64 : Z) (len : Z) : Z := v64 mod (LOCK_FILE_SIZE - len).

(** What one pass through the loop body reads from outside: the result of
    the eviction's unlock call (if one is made), the two random draws, the
    result of [fcntl(fd, F_OFD_GETLK, &f)], whether [calloc] succeeds (if it
    is called) and what [keep_stressing()] answers. *)
Record iter_env : Type := mk_env {
  unlock_rc : Z;
  v16 : Z;
  v64 : Z;
  getlk_rc : Z;
  calloc_ok : bool;
  keep : bool;
}.

(** Lines 173-196: draw a range, issue the lock call, record it.  The
    result is [Some rc] when the function returns [rc] from inside the body
    and [None] when control reaches the loop condition ([continue] jumps
    there too). *)
Definition lock_and_record (e : iter_env) : M (option Z) :=
  let len := lock_len (v16 e) in
  let offset := lock_offset (v64 e) len in
  let f := mk_flock F_WRLCK SEEK_SET offset len 0 in
  let* _ := emit (Fcntl F_OFD_GETLK f) in
  if getlk_rc e <? 0 then ret None
  else
    (* Locked OK, add to lock list *)
    let* lockofd_info := stress_lockofd_info_new (calloc_ok e) in
    match lockofd_info with
    | None => let* _ := emit (PrFailErr "calloc"%string) in ret (Some (-1))
    | Some _ =>
        let* _ := set_offset lockofd_info offset in
        let* _ := set_len lockofd_info len in
        let* _ := emit IncCounter in
        ret None
    end.

(** Lines 169-171: the eviction step. *)
Definition evict_if_full (e : iter_env) : M (option Z) :=
  let* li := get_infos in
  if LOCK_MAX <=? li_length li then
    let* r := stress_lockofd_unlock (unlock_rc e) in
    if r <? 0 then ret (Some (-1)) else ret None
  else ret None.

(** The body of the [do ... while]. *)
Definition iteration (e : iter_env) : M (option Z) :=
  let* r := evict_if_full e in
  match r with
  | Some rc => ret (Some rc)
  | None => lock_and_record e
  end.

(** [stress_lockofd_contention] on the inputs of its successive passes.
    [Some rc]: the function returned [rc]; [None]: the inputs ran out while
    [keep_stressing()] still answered true. *)
Fixpoint stress_lockofd_contention (envs : list iter_env) : M (option Z) :=
  match envs with
  | [] => ret None
  | e :: envs' =>
      let* r := iteration e in
      match r with
      | Some rc => ret (Some rc)
      | None => if keep e then stress_lockofd_contention envs' else ret (Some 0)
      end
  end.

(** ** Reading the list back *)

(** Follow [next] from [p], at most [fuel] nodes. *)
Fixpoint walk (fuel : nat) (h : list lockofd_info_t) (p : option addr)
  : list (Z * Z) :=
  match fuel, p with
  | S fuel', Some a =>
      match h !! a with
      | Some n => (offset n, len n) :: walk fuel' h (next n)
      | None => []
      end
  | _, _ => []
  end.

(** The records of the tracking list, oldest first, as [(offset, len)]. *)
Definition records (st : state) : list (Z * Z) :=
  walk (length (heap st)) (heap st) (li_head (lockofd_infos st)).

(** The records in the free pool. *)
Definition free_records (st : state) : list (Z * Z) :=
  walk (length (heap st)) (heap st) (li_free (lockofd_infos st)).

(** A push as the loop does it: [stress_lockofd_info_new], then the two
    field assignments of lines 193-194. *)
Definition push (calloc_ok : bool) (r : Z * Z) : M (option addr) :=
  let* p := stress_lockofd_info_new calloc_ok in
  match p with
  | None => ret None
  | Some _ =>
      let* _ := set_offset p (fst r) in
      let* _ := set_len p (snd r) in
      ret p
  end.

(** A pop that tells which record it removed: read the head as
    [stress_lockofd_unlock] does, then [stress_lockofd_info_head_remove]. *)
Definition pop : M (option (Z * Z)) :=
  let* li := get_infos in
  match li_head li with
  | None => let* _ := stress_lockofd_info_head_remove in ret None
  | Some _ =>
      let* h := load (li_head li) in
      let* _ := stress_lockofd_info_head_remove in
      ret (Some (offset h, len h))
  end.

Fixpoint pushes (rs : list (Z * Z)) : M unit :=
  match rs with
  | [] => ret tt
  | r :: rs' => let* _ := push true r in pushes rs'
  end.

Fixpoint pops (k : nat) : M (list (Z * Z)) :=
  match k with
  | O => ret []
  | S k' =>
      let* r := pop in
      let* rs := pops k' in
      ret (match r with Some x => x :: rs | None => rs end)
  end.

(** ** The shape of the list in the heap *)

(** [chain h p l]: following [next] from [p] visits exactly the
    addresses [l] and ends in [NULL]. *)
Fixpoint chain (h : list lockofd_info_t) (p : option addr) (l : list addr)
  : Prop :=
  match l with
  | [] => p = None
  | a :: l' => p = Some a /\ exists n, h !! a = Some n /\ chain h (next n) l'
  end.

(** The tracking list occupies the nodes [act] (from [head]), the free pool
    the nodes [fre] (from [free]); no node is in both or twice in one, and
    [tail] is the last node of the tracking list. *)
Record wf (st : state) (act fre : list addr) : Prop := mk_wf {
  wf_head : chain (heap st) (li_head (lockofd_infos st)) act;
  wf_free : chain (heap st) (li_free (lockofd_infos st)) fre;
  wf_tail : li_tail (lockofd_infos st) = last act;
  wf_nodup : NoDup (act ++ fre);
}.

(** The record stored at an address. *)
Definition record_at (h : list lockofd_info_t) (a : addr) : Z * Z :=
  match h !! a with
  | Some n => (offset n, len n)
  | None => (0, 0)
  end.

(** [length] counts the nodes of the tracking list. *)
Definition length_ok (st : state) (act : list addr) : Prop :=
  li_length (lockofd_infos st) = Z.of_nat (length act).

(** ** The events of the loop *)

(** The unlock call for the record [r = (offset, len)]. *)
Definition unlock_event (r : Z * Z) : event :=
  Fcntl F_OFD_SETLK (mk_flock F_UNLCK SEEK_SET (fst r) (snd r) 0).

(** The range a pass draws, as [(offset, len)]. *)
Definition lock_request (e : iter_env) : Z * Z :=
  (lock_offset (v64 e) (lock_len (v16 e)), lock_len (v16 e)).

(** The lock call of line 182 for the range [r]. *)
Definition getlk_event (r : Z * Z) : event :=
  Fcntl F_OFD_GETLK (mk_flock F_WRLCK SEEK_SET (fst r) (snd r) 0).

(** The state with another trace. *)
Definition with_trace (st : state) (tr : list event) : state :=
  mk_state (heap st) (lockofd_infos st) tr.

(** The free pool has a node. *)
Definition free_pool_nonempty (st : state) : Prop :=
  li_free (lockofd_infos st) <> None.

(** Some shape fits the state. *)
Definition well_formed (st : state) : Prop :=
  exists act fre, wf st act fre.

(** The loop invariant: the list is well formed, [length] counts its nodes
    and does not exceed [LOCK_MAX]. *)
Definition inv (st : state) : Prop :=
  exists act fre,
    wf st act fre /\ length_ok st act /\ Z.of_nat (length act) <= LOCK_MAX.

(** What [fcntl] does with a request: [F_OFD_SETLK] and [F_OFD_SETLKW]
    with a read or a write lock place that lock (when they succeed), with
    [F_UNLCK] they release; [F_OFD_GETLK] places nothing: it asks whether
    the lock could be placed, and returns 0 also when it could not. *)
Definition places_lock (ev : event) : bool :=
  match ev with
  | Fcntl F_OFD_GETLK _ => false
  | Fcntl _ f =>
      match l_type f with
      | F_UNLCK => false
      | _ => true
      end
  | _ => false
  end.

(** ** Further notions for the loop and the teardown *)

(** The range [r = (offset, len)] lies inside the file. *)
Definition in_file (r : Z * Z) : bool :=
  (0 <=? fst r) && (0 <=? snd r) && (fst r + snd r <? LOCK_FILE_SIZE).

(** An [fcntl] call as the loop makes them: a query for a write lock or an
    unlock, from the start of the file, on a range inside the file. *)
Definition fcntl_ok (ev : event) : bool :=
  match ev with
  | Fcntl F_OFD_GETLK (mk_flock F_WRLCK SEEK_SET s l 0) => in_file (s, l)
  | Fcntl F_OFD_SETLK (mk_flock F_UNLCK SEEK_SET s l 0) => in_file (s, l)
  | Fcntl _ _ => false
  | _ => true
  end.

(** The ranges the unlock calls of a trace release, in order. *)
Definition unlocked (tr : list event) : list (Z * Z) :=
  omap (fun ev => match ev with
                  | Fcntl F_OFD_SETLK f => Some (l_start f, l_len f)
                  | _ => None
                  end) tr.

(** The ranges a trace counts as locked: those of the lock calls that are
    followed by [inc_counter]. *)
Fixpoint admitted (tr : list event) : list (Z * Z) :=
  match tr with
  | [] => []
  | ev :: tr' =>
      match ev, tr' with
      | Fcntl F_OFD_GETLK f, IncCounter :: _ =>
          (l_start f, l_len f) :: admitted tr'
      | _, _ => admitted tr'
      end
  end.

(** The calls of [inc_counter] in a trace. *)
Definition counted (tr : list event) : nat :=
  length (List.filter (fun ev => match ev with IncCounter => true | _ => false end) tr).

(** The failures a trace reports. *)
Definition failures (tr : list event) : list String.string :=
  omap (fun ev => match ev with PrFailErr w => Some w | _ => None end) tr.

(** The invariant of the loop in full: besides [inv], every node of the
    heap is in the list or in the free pool, the heap has at most
    [LOCK_MAX] nodes, every record and every [fcntl] call is on a range
    inside the file, and the ranges counted as locked are those unlocked
    since, followed by those in the list. *)
Definition loop_inv (st : state) : Prop :=
  exists act fre,
    wf st act fre /\ length_ok st act /\ Z.of_nat (length act) <= LOCK_MAX /\
    length (heap st) = (length act + length fre)%nat /\
    Z.of_nat (length (heap st)) <= LOCK_MAX /\
    forallb in_file (records st) = true /\
    forallb fcntl_ok (trace st) = true /\
    unlocked (trace st) ++ records st = admitted (trace st) /\
    counted (trace st) = length (admitted (trace st)).

(** A pass in which nothing fails: the unlock of the eviction (if one is
    made) and the lock call succeed, a node is to be had, and the loop goes
    on. *)
Definition succeeds (e : iter_env) : bool :=
  (0 <=? unlock_rc e) && (0 <=? getlk_rc e) && calloc_ok e && keep e.

(** ** Teardown *)

(** The state with the nodes that [free] has been given, in order.  A node
    that has been freed must not be read or freed again. *)
Record tstate : Type := mk_tstate {
  t_state : state;
  freed : list addr;
}.

(** [free(p)] for a non-null [p]: the node must be allocated and not yet
    freed. *)
Definition free_node (a : addr) (t : tstate) : option tstate :=
  if bool_decide (a ∈ freed t) then None
  else
    match heap (t_state t) !! a with
    | Some _ => Some (mk_tstate (t_state t) (freed t ++ [a]))
    | None => None
    end.

(** [p->next] for a non-null [p] that has not been freed. *)
Definition live_next (a : addr) (t : tstate) : option (option addr) :=
  if bool_decide (a ∈ freed t) then None
  else next <$> heap (t_state t) !! a.

(** The first loop of [stress_lockofd_info_free]:
    [while (lockofd_infos.head) { next = head->next; free(head); head = next; }],
    at most [fuel] times. *)
Fixpoint free_head_list (fuel : nat) (t : tstate) : option tstate :=
  match fuel with
  | O => None
  | S fuel' =>
      match li_head (lockofd_infos (t_state t)) with
      | None => Some t
      | Some a =>
          nxt ← live_next a t;
          t ← free_node a t;
          '(_, st) ← set_head nxt (t_state t);
          free_head_list fuel' (mk_tstate st (freed t))
      end
  end.

(** The second loop, over the free list. *)
Fixpoint free_free_list (fuel : nat) (t : tstate) : option tstate :=
  match fuel with
  | O => None
  | S fuel' =>
      match li_free (lockofd_infos (t_state t)) with
      | None => Some t
      | Some a =>
          nxt ← live_next a t;
          t ← free_node a t;
          '(_, st) ← set_free nxt (t_state t);
          free_free_list fuel' (mk_tstate st (freed t))
      end
  end.

(** [stress_lockofd_info_free]: free the nodes of the list and of the free
    pool. *)
Definition stress_lockofd_info_free (fuel : nat) (t : tstate) : option tstate :=
  t ← free_head_list fuel t;
  free_free_list fuel t.

(** ** The stressor *)

Definition EXIT_SUCCESS : Z := 0.
Definition EXIT_FAILURE : Z := 1.

(** [errno] values, as on Linux. *)
Definition EINTR : Z := 4.
Definition EAGAIN : Z := 11.
Definition EEXIST : Z := 17.

(** [sizeof(buffer)]. *)
Definition BUFFER_SIZE : Z := 4096.

(** What [stress_lockofd] does outside the tracking list.  [Contention]
    marks a run of [stress_lockofd_contention], whose own events are in the
    trace of the list state, [InfoFree] a call of
    [stress_lockofd_info_free], [Fail] a call of [pr_fail_err]. *)
Inductive sys_event : Type :=
  | Mkdir
  | Open
  | Lseek
  | Write (rc : Z)
  | Fork (cpid : Z)
  | Setpgid (pid : Z)
  | ParentDiedAlarm
  | Contention
  | Kill (pid : Z)
  | Waitpid (pid : Z)
  | InfoFree
  | Close
  | Unlink
  | Rmdir
  | Fail (what : String.string).

(** How the function is left: by [return ret] or by [_exit(code)]. *)
Inductive outcome : Type :=
  | Returned (ret : Z)
  | Exited (code : Z).

(** One pass through the label [redo]: the value of
    [g_keep_stressing_flag], then the result of [write] and [errno]. *)
Record write_env : Type := mk_write {
  w_flag : bool;
  w_rc : Z;
  w_errno : Z;
}.

(** One pass through the label [again]: the result of [fork], and for a
    failure the value of [g_keep_stressing_flag] and [errno]. *)
Record fork_env : Type := mk_fork {
  f_cpid : Z;
  f_flag : bool;
  f_errno : Z;
}.

(** What [stress_lockofd] reads from outside.  [exit_status] is the
    function of that name of the stress-ng core, which maps an [errno] to
    an exit code.  The names of the directory and of the file (and the
    [mwc32()] draw that goes into the latter) are outside the model. *)
Record main_env : Type := mk_main {
  mkdir_rc : Z;
  mkdir_errno : Z;
  open_fd : Z;
  open_errno : Z;
  lseek_rc : Z;
  writes : list write_env;
  forks : list fork_env;
  passes : list iter_env;
  exit_status : Z -> Z;
}.

(** The tracking list with the nodes freed so far, and the calls made. *)
Record pstate : Type := mk_pstate {
  p_list : tstate;
  p_log : list sys_event;
}.

Definition sys (ev : sys_event) (p : pstate) : pstate :=
  mk_pstate (p_list p) (p_log p ++ [ev]).

(** A call of [stress_lockofd_info_free].  Each turn of its loops frees a
    node of the heap that was not freed before, so one turn more than the
    heap has nodes is all it can take. *)
Definition info_free (p : pstate) : option pstate :=
  t ← stress_lockofd_info_free (S (length (heap (t_state (p_list p))))) (p_list p);
  Some (mk_pstate t (p_log p ++ [InfoFree])).

(** A call of [stress_lockofd_contention] that returns. *)
Definition contention (envs : list iter_env) (p : pstate) : option (Z * pstate) :=
  match stress_lockofd_contention envs (t_state (p_list p)) with
  | Some (Some rc, st) =>
      Some (rc, mk_pstate (mk_tstate st (freed (p_list p))) (p_log p ++ [Contention]))
  | _ => None
  end.

(** From the label [tidy] to the end. *)
Definition tidy (cpid ret : Z) (p : pstate) : option (outcome * pstate) :=
  let p := if 0 <? cpid then sys (Waitpid cpid) (sys (Kill cpid) p) else p in
  p ← info_free p;
  Some (Returned ret, sys Rmdir (sys Unlink (sys Close p))).

(** Lines 250-264 from the label [redo] on, with [offset] as it is there.
    [Some ret]: control goes to [tidy] with this [ret]; [None]: the loop has
    run to its end.  No result when the inputs run out. *)
Fixpoint fill_from_redo (e : main_env) (ws : list write_env) (offset : Z)
  (p : pstate) : option (option Z * pstate) :=
  match ws with
  | [] => None
  | w :: ws' =>
      if negb (w_flag w) then Some (Some EXIT_SUCCESS, p)
      else
        let rc := w_rc w in
        let p := sys (Write rc) p in
        if (rc <? 0) || negb (rc =? BUFFER_SIZE) then
          if (w_errno w =? EAGAIN) || (w_errno w =? EINTR) then
            fill_from_redo e ws' offset p
          else
            Some (Some (exit_status e (w_errno w)), sys (Fail "write") p)
        else
          let offset := offset + BUFFER_SIZE in
          if offset <? LOCK_FILE_SIZE then fill_from_redo e ws' offset p
          else Some (None, p)
  end.

(** The [for] loop of lines 250-264. *)
Definition fill_file (e : main_env) (p : pstate) : option (option Z * pstate) :=
  let offset := 0 in
  if offset <? LOCK_FILE_SIZE then fill_from_redo e (writes e) offset p
  else Some (None, p).

(** Lines 266-277 from the label [again] on.  [inl (cpid, ret)]: control goes
    to [tidy]; [inr cpid]: the fork succeeded. *)
Fixpoint fork_again (fs : list fork_env) (ret : Z) (p : pstate)
  : option ((Z * Z + Z) * pstate) :=
  match fs with
  | [] => None
  | f :: fs' =>
      let cpid := f_cpid f in
      let p := sys (Fork cpid) p in
      if cpid <? 0 then
        if negb (f_flag f) then Some (inl (cpid, EXIT_SUCCESS), p)
        else if f_errno f =? EAGAIN then fork_again fs' ret p
        else Some (inl (cpid, ret), sys (Fail "fork") p)
      else Some (inr cpid, p)
  end.

(** [stress_lockofd], as the process that runs it sees it: where [fork]
    returns 0 this is the child.  The static [lockofd_infos] is zero when
    the function is entered. *)
Definition stress_lockofd (e : main_env) : option (outcome * pstate) :=
  let ret := EXIT_FAILURE in
  let cpid := -1 in
  let p := mk_pstate (mk_tstate init []) [] in
  let p := sys Mkdir p in
  if (mkdir_rc e <? 0) && negb (mkdir_errno e =? EEXIST) then
    let ret := exit_status e (mkdir_errno e) in
    Some (Returned ret, sys (Fail "mkdir") p)
  else
    let p := sys Open p in
    if open_fd e <? 0 then
      let ret := exit_status e (open_errno e) in
      Some (Returned ret, sys Rmdir (sys (Fail "open") p))
    else
      let p := sys Lseek p in
      if lseek_rc e <? 0 then tidy cpid ret (sys (Fail "lseek") p)
      else
        '(r, p) ← fill_file e p;
        match r with
        | Some ret => tidy cpid ret p
        | None =>
            '(fr, p) ← fork_again (forks e) ret p;
            match fr with
            | inl (cpid, ret) => tidy cpid ret p
            | inr cpid =>
                if cpid =? 0 then
                  let p := sys ParentDiedAlarm (sys (Setpgid 0) p) in
                  '(rc, p) ← contention (passes e) p;
                  if rc <? 0 then Some (Exited EXIT_FAILURE, p)
                  else
                    p ← info_free p;
                    Some (Exited EXIT_SUCCESS, p)
                else
                  let p := sys (Setpgid cpid) p in
                  '(rc, p) ← contention (passes e) p;
                  let ret := if rc =? 0 then EXIT_SUCCESS else ret in
                  tidy cpid ret p
            end
        end.

(** ** What is said of the stressor *)

(** [g_keep_stressing_flag] is found cleared at some pass. *)
Definition fill_stopped (ws : list write_env) : bool :=
  existsb (fun w => negb (w_flag w)) ws.

Definition fork_stopped (fs : list fork_env) : bool :=
  existsb (fun f => negb (f_flag f)) fs.

(** [keep_stressing()] answers false at some pass. *)
Definition loop_stopped (envs : list iter_env) : bool :=
  existsb (fun e => negb (keep e)) envs.

(** The writes of a whole buffer in a log. *)
Definition full_writes (lg : list sys_event) : nat :=
  length (List.filter (fun ev => match ev with
                                 | Write rc => rc =? BUFFER_SIZE
                                 | _ => false
                                 end) lg).

(** The children killed, and those waited for. *)
Definition killed (lg : list sys_event) : list Z :=
  omap (fun ev => match ev with Kill c => Some c | _ => None end) lg.

Definition reaped (lg : list sys_event) : list Z :=
  omap (fun ev => match ev with Waitpid c => Some c | _ => None end) lg.

(** The process ids [fork] has returned to a parent. *)
Definition children (lg : list sys_event) : list Z :=
  omap (fun ev => match ev with
                  | Fork c => if 0 <? c then Some c else None
                  | _ => None
                  end) lg.

(** The failures the stressor reports itself. *)
Definition sys_failures (lg : list sys_event) : list String.string :=
  omap (fun ev => match ev with Fail w => Some w | _ => None end) lg.

(** The calls that remove what the stressor has made. *)
Definition is_removal (ev : sys_event) : bool :=
  match ev with
  | Close | Unlink | Rmdir => true
  | _ => false
  end.

(** The calls made before control reaches [tidy] or [_exit]. *)
Definition body_event (ev : sys_event) : bool :=
  match ev with
  | Write _ | Fork _ | Fail _ | Setpgid _ | ParentDiedAlarm | Contention => true
  | _ => false
  end.

(** The results of the [write] calls in a log, in order. *)
Definition write_calls (lg : list sys_event) : list Z :=
  omap (fun ev => match ev with Write rc => Some rc | _ => None end) lg.

End Lockofd.

(* ===================================================================== *)
(** * Part II: stress-membarrier.c *)
(* ===================================================================== *)

Module Membarrier.

(** ** Constants *)

Definition MAX_MEMBARRIER_THREADS : nat := 4.

Definition MEMBARRIER_CMD_QUERY : Z := 0.
Definition MEMBARRIER_CMD_GLOBAL : Z := Z.shiftl 1 0.
Definition MEMBARRIER_CMD_SHARED : Z := MEMBARRIER_CMD_GLOBAL.
Definition MEMBARRIER_CMD_GLOBAL_EXPEDITED : Z := Z.shiftl 1 1.
Definition MEMBARRIER_CMD_REGISTER_GLOBAL_EXPEDITED : Z := Z.shiftl 1 2.
Definition MEMBARRIER_CMD_PRIVATE_EXPEDITED : Z := Z.shiftl 1 3.
Definition MEMBARRIER_CMD_REGISTER_PRIVATE_EXPEDITED : Z := Z.shiftl 1 4.
Definition MEMBARRIER_CMD_PRIVATE_EXPEDITED_SYNC_CORE : Z := Z.shiftl 1 5.
Definition MEMBARRIER_CMD_REGISTER_PRIVATE_EXPEDITED_SYNC_CORE : Z := Z.shiftl 1 6.
Definition MEMBARRIER_CMD_PRIVATE_EXPEDITED_RSEQ : Z := Z.shiftl 1 7.
Definition MEMBARRIER_CMD_REGISTER_PRIVATE_EXPEDITED_RSEQ : Z := Z.shiftl 1 8.

Definition MEMBARRIER_CMD_FLAG_CPU : Z := Z.shiftl 1 0.

(** The outcome of the test [#if defined(MEMBARRIER_CMD_FLAG_CPU)] of line
    93.  The name is an enumerator (line 68, and in <linux/membarrier.h>
    as well), not a macro, so the preprocessor does not find it defined:
    the second counted call of lines 94-96 is not part of the program. *)
Definition flag_cpu_defined : bool := false.

Definition INT_MAX : Z := 2 ^ 31 - 1.

(** [errno] value of Linux for a system call that does not exist. *)
Definition ENOSYS : Z := 38.

(** The exit classes of a stressor. *)
Inductive exit_status : Type :=
  | EXIT_SUCCESS
  | EXIT_FAILURE
  | EXIT_NOT_IMPLEMENTED.

(** ** Machine integers *)

(** An [unsigned int] has 32 bits. *)
Definition uint_wrap (z : Z) : Z := z mod 2 ^ 32.

(** [(int)i] for an [unsigned int] [i]. *)
Definition to_int (u : Z) : Z := if u <? 2 ^ 31 then u else u - 2 ^ 32.

(** ** Arithmetic on [double] *)

(** The operations on [double] the file uses.  The development holds for
    every interpretation of them; [Q] is the one without rounding. *)
Class DoubleOps (D : Type) : Type := {
  d_zero : D;
  d_one : D;
  d_add : D -> D -> D;
  d_sub : D -> D -> D;
  d_div : D -> D -> D;
  d_gt : D -> D -> bool;
  d_gt_irrefl : forall x, d_gt x x = false;
}.

Lemma Q_gt_irrefl (x : Q) : negb (Qle_bool x x) = false.
Proof.
  apply negb_false_iff, Qle_bool_iff, Qle_refl.
Qed.

#[export] Instance Q_DoubleOps : DoubleOps Q := {
  d_zero := 0%Q;
  d_one := 1%Q;
  d_add := Qplus;
  d_sub := Qminus;
  d_div := Qdiv;
  d_gt := fun a b => negb (Qle_bool a b);
  d_gt_irrefl := Q_gt_irrefl;
}.

Section WithDouble.

Context {D : Type} `{DoubleOps D}.

(** ** Data model *)

(** [membarrier_info_t]; the thread handle is the index of the thread. *)
Record membarrier_info_t : Type := mk_info {
  pthread : Z;
  pthread_ret : Z;
  duration : D;
  count : D;
}.

Inductive event : Type :=
  | Membarrier (cmd flags cpu_id : Z)
  | PrFail
  | PrInf
  | PrInfSkip
  | PthreadCreate (i : nat)
  | PthreadJoin (i : nat)
  | IncCounter
  | MetricsSet (idx : Z) (label : string) (rate : D).

(** What an exercise cycle works on: the slot of its thread and the trace. *)
Record estate : Type := mk_estate {
  info : membarrier_info_t;
  trace : list event;
}.

(** [VOID_RET(int, shim_membarrier(cmd, flags, cpu_id))]: the call is made
    and its result is dropped. *)
Definition call (cmd flags cpu_id : Z) (s : estate) : estate :=
  mk_estate (info s) (trace s ++ [Membarrier cmd flags cpu_id]).

(** [info->count += 1.0]. *)
Definition count_incr (s : estate) : estate :=
  let i := info s in
  mk_estate (mk_info (pthread i) (pthread_ret i) (duration i)
                     (d_add (count i) d_one))
            (trace s).

(** [info->duration += d]. *)
Definition duration_add (d : D) (s : estate) : estate :=
  let i := info s in
  mk_estate (mk_info (pthread i) (pthread_ret i) (d_add (duration i) d)
                     (count i))
            (trace s).

(** ** The exercise cycle *)

(** [for (i = 1; i; i <<= 1) body], where [body] answers whether it ended
    in [break].  The loop stops by itself when the shift wraps [i] to 0;
    [None] only if [fuel] passes were not enough. *)
Fixpoint shift_loop (fuel : nat) (i : Z) (body : Z -> estate -> estate * bool)
  (s : estate) : option estate :=
  match fuel with
  | O => None
  | S fuel' =>
      if i =? 0 then Some s
      else
        let '(s', brk) := body i s in
        if brk then Some s'
        else shift_loop fuel' (uint_wrap (Z.shiftl i 1)) body s'
  end.

(** Lines 87-99: the timed sweep over the commands the mask allows.
    [flag_cpu] is the outcome of the preprocessor test of line 93,
    [#if defined(MEMBARRIER_CMD_FLAG_CPU)]: with [true] lines 94-96 are part
    of the loop body, with [false] they are not.  The program is the
    instance [flag_cpu_defined], that is [false]; what is proved for every
    [flag_cpu] holds of it. *)
Definition legal_body (flag_cpu : bool) (mask : Z) (i : Z) (s : estate)
  : estate * bool :=
  if negb (Z.land i mask =? 0) then
    let s := call (to_int i) 0 0 s in
    let s := count_incr s in
    let s :=
      if flag_cpu then
        (* Exercise MEMBARRIER_CMD_FLAG_CPU flag *)
        count_incr (call (to_int i) MEMBARRIER_CMD_FLAG_CPU 0 s)
      else s in
    (s, false)
  else (s, false).

(** Lines 102-110: illegal flags and illegal cpu_id on the allowed
    commands. *)
Definition illegal_args_body (mask : Z) (i : Z) (s : estate) : estate * bool :=
  if negb (Z.land i mask =? 0) then
    (* Exercise illegal flags *)
    let s := call (to_int i) (Z.lnot 0) 0 s in
    (* Exercise illegal cpu_id *)
    let s := call (to_int i) 0 INT_MAX s in
    (s, false)
  else (s, false).

(** Lines 113-118: exercise illegal command. *)
Definition illegal_command_body (mask : Z) (i : Z) (s : estate) : estate * bool :=
  if Z.land i mask =? 0 then (call (to_int i) 0 0 s, true)
  else (s, false).

(** Enough passes for a 32-bit [i] to be shifted out. *)
Definition loop_fuel : nat := 33.

(** What one cycle reads from outside: the result of the capability query
    and the two readings of [stress_time_now()]. *)
Record cycle_env : Type := mk_cycle {
  query_ret : Z;
  t_start : D;
  t_end : D;
}.

Definition legal_sweep (flag_cpu : bool) (mask : Z) (s : estate) : option estate :=
  shift_loop loop_fuel 1 (legal_body flag_cpu mask) s.

Definition illegal_args_sweep (mask : Z) (s : estate) : option estate :=
  shift_loop loop_fuel 1 (illegal_args_body mask) s.

Definition illegal_command_probe (mask : Z) (s : estate) : option estate :=
  shift_loop loop_fuel 1 (illegal_command_body mask) s.

(** [stress_membarrier_exercise]: the returned [int] and the state after. *)
Definition stress_membarrier_exercise (flag_cpu : bool) (e : cycle_env)
  (s : estate) : option (Z * estate) :=
  let ret := query_ret e in
  let s := call MEMBARRIER_CMD_QUERY 0 0 s in
  if ret <? 0 then
    Some (-1, mk_estate (info s) (trace s ++ [PrFail]))
  else
    let mask := uint_wrap ret in
    let t := t_start e in
    s ← legal_sweep flag_cpu mask s;
    let s := duration_add (d_sub (t_end e) t) s in
    s ← illegal_args_sweep mask s;
    s ← illegal_command_probe mask s;
    Some (0, s).

(** ** The stressor *)

(** [stress_membarrier_thread] shares the address space with the
    coordinator, all pool threads are handed the one [pargs], and the sums
    are taken before the joins: what the slots of the pool threads hold
    when they are read is an input ([observed]), as are the results of the
    first query and of [pthread_create].  The coordinator runs its cycles on
    the last slot, which no pool thread is given: one cycle, and one more
    each time [keep_stressing(args)] answers true. *)
Record run_env : Type := mk_run {
  instance : Z;
  q_ret : Z;
  q_errno : Z;
  create_ret : nat -> Z;
  first_cycle : cycle_env;
  more_cycles : list cycle_env;
  observed : nat -> D * D;
}.

Record mstate : Type := mk_mstate {
  slots : list membarrier_info_t;
  log : list event;
}.

(** [for (i = 0; i < n; i++) body], the body may fail. *)
Fixpoint for_upto (n : nat) (body : nat -> mstate -> option mstate)
  (m : mstate) : option mstate :=
  match n with
  | O => Some m
  | S n' => m' ← for_upto n' body m; body n' m'
  end.

(** Lines 176-181. *)
Definition init_slot (i : nat) (m : mstate) : option mstate :=
  _ ← slots m !! i;
  Some (mk_mstate (<[i := mk_info 0 (-1) d_zero d_zero]> (slots m)) (log m)).

(** Lines 184-189. *)
Definition create_thread (e : run_env) (i : nat) (m : mstate) : option mstate :=
  x ← slots m !! i;
  Some (mk_mstate
          (<[i := mk_info (Z.of_nat i) (create_ret e i) (duration x) (count x)]>
             (slots m))
          (log m ++ [PthreadCreate i])).

(** Lines 194-198: one pass of the coordinator's [do ... while]. *)
Definition coordinator_cycle (flag_cpu : bool) (c : cycle_env) (m : mstate)
  : option mstate :=
  x ← slots m !! MAX_MEMBARRIER_THREADS;
  '(r, s) ← stress_membarrier_exercise flag_cpu c (mk_estate x (log m));
  let tr := if r <? 0 then trace s ++ [PrFail] else trace s in
  Some (mk_mstate (<[MAX_MEMBARRIER_THREADS := info s]> (slots m))
                  (tr ++ [IncCounter])).

Fixpoint coordinator_cycles (flag_cpu : bool) (cs : list cycle_env)
  (m : mstate) : option mstate :=
  match cs with
  | [] => Some m
  | c :: cs' =>
      m' ← coordinator_cycle flag_cpu c m;
      coordinator_cycles flag_cpu cs' m'
  end.

(** What the pool threads have written into their slots by the time the
    sums are taken. *)
Definition pool_write (e : run_env) (i : nat) (m : mstate) : option mstate :=
  x ← slots m !! i;
  Some (mk_mstate
          (<[i := mk_info (pthread x) (pthread_ret x)
                          (fst (observed e i)) (snd (observed e i))]>
             (slots m))
          (log m)).

(** Lines 205-208, on the pair [(duration, count)]. *)
Fixpoint sum_slots (n : nat) (sl : list membarrier_info_t) (acc : D * D)
  : option (D * D) :=
  match n with
  | O => Some acc
  | S n' =>
      '(d, c) ← sum_slots n' sl acc;
      x ← sl !! n';
      Some (d_add d (duration x), d_add c (count x))
  end.

(** Lines 212-215. *)
Definition join_thread (i : nat) (m : mstate) : option mstate :=
  x ← slots m !! i;
  if pthread_ret x =? 0 then Some (mk_mstate (slots m) (log m ++ [PthreadJoin i]))
  else Some m.

(** [stress_membarrier]: the exit status and everything it did. *)
Definition stress_membarrier (flag_cpu : bool) (e : run_env)
  : option (exit_status * list event) :=
  let ret := q_ret e in
  let lg := [Membarrier MEMBARRIER_CMD_QUERY 0 0] in
  if ret <? 0 then
    if q_errno e =? ENOSYS then
      Some (EXIT_NOT_IMPLEMENTED,
            if instance e =? 0 then lg ++ [PrInfSkip] else lg)
    else Some (EXIT_FAILURE, lg ++ [PrFail])
  else if Z.land ret MEMBARRIER_CMD_SHARED =? 0 then
    Some (EXIT_NOT_IMPLEMENTED, lg ++ [PrInf])
  else
    let m := mk_mstate (replicate (S MAX_MEMBARRIER_THREADS)
                                  (mk_info 0 0 d_zero d_zero)) lg in
    m ← for_upto (S MAX_MEMBARRIER_THREADS) init_slot m;
    m ← for_upto MAX_MEMBARRIER_THREADS (create_thread e) m;
    m ← coordinator_cycles flag_cpu (first_cycle e :: more_cycles e) m;
    m ← for_upto MAX_MEMBARRIER_THREADS (pool_write e) m;
    '(duration, count) ← sum_slots (S MAX_MEMBARRIER_THREADS) (slots m)
                                   (d_zero, d_zero);
    let rate := if d_gt duration d_zero then d_div count duration else d_zero in
    let m := mk_mstate (slots m)
               (log m ++ [MetricsSet 0 "membarrier calls per sec" rate]) in
    m ← for_upto MAX_MEMBARRIER_THREADS join_thread m;
    Some (EXIT_SUCCESS, log m).

(** ** What the claims speak of *)

(** Bit [b] of the mask. *)
Definition bit_set (mask : Z) (b : nat) : bool := Z.testbit mask (Z.of_nat b).

(** The set bits of the 32-bit mask, lowest first. *)
Definition set_bits (mask : Z) : list nat :=
  List.filter (bit_set mask) (seq 0 32).

Definition popcount (mask : Z) : nat := length (set_bits mask).

(** The lowest bit of the 32-bit mask that is not set. *)
Definition lowest_unset_bit (mask : Z) : option nat :=
  List.find (fun b => negb (bit_set mask b)) (seq 0 32).

(** The command value for bit [b]: [(int)(1u << b)]. *)
Definition cmd_of_bit (b : nat) : Z := to_int (2 ^ Z.of_nat b).

(** The counted calls for one bit. *)
Definition legal_calls (flag_cpu : bool) (b : nat) : list event :=
  Membarrier (cmd_of_bit b) 0 0 ::
  (if flag_cpu then [Membarrier (cmd_of_bit b) MEMBARRIER_CMD_FLAG_CPU 0] else []).

(** The two probes with illegal arguments for one bit. *)
Definition illegal_args_calls (b : nat) : list event :=
  [Membarrier (cmd_of_bit b) (Z.lnot 0) 0; Membarrier (cmd_of_bit b) 0 INT_MAX].

(** The probe with an illegal command. *)
Definition probe_calls (mask : Z) : list event :=
  match lowest_unset_bit mask with
  | Some b => [Membarrier (cmd_of_bit b) 0 0]
  | None => []
  end.

(** Counted calls per set bit. *)
Definition calls_per_bit (flag_cpu : bool) : nat := if flag_cpu then 2 else 1.

(** [c] after [n] times [+= 1.0]. *)
Definition incr_times (n : nat) (c : D) : D :=
  Nat.iter n (fun c => d_add c d_one) c.

(** The rates reported through [stress_metrics_set]. *)
Definition reported_rates (l : list event) : list D :=
  omap (fun ev => match ev with MetricsSet _ _ r => Some r | _ => None end) l.

(** The thread creations in a trace. *)
Definition created_threads (l : list event) : list nat :=
  omap (fun ev => match ev with PthreadCreate i => Some i | _ => None end) l.

(** Left-to-right sum from [0.0]. *)
Definition d_sum (l : list D) : D := foldl d_add d_zero l.

(** The slot of a thread after one exercise cycle, in closed form: a failed
    query leaves it alone; otherwise the counter has taken its increments
    and the duration the measured time. *)
Definition cycle_info (flag_cpu : bool) (c : cycle_env)
  (x : membarrier_info_t) : membarrier_info_t :=
  if query_ret c <? 0 then x
  else
    mk_info (pthread x) (pthread_ret x)
      (d_add (duration x) (d_sub (t_end c) (t_start c)))
      (incr_times (calls_per_bit flag_cpu * popcount (uint_wrap (query_ret c)))
                  (count x)).

(** The slot after a run of cycles. *)
Definition cycles_info (flag_cpu : bool) (cs : list cycle_env)
  (x : membarrier_info_t) : membarrier_info_t :=
  foldl (fun x c => cycle_info flag_cpu c x) x cs.

(** The slot as lines 176-181 leave it. *)
Definition fresh_slot : membarrier_info_t := mk_info 0 (-1) d_zero d_zero.

(** The figures the sums of lines 205-208 run over: the slots of the pool
    threads as observed, then the slot of the coordinator. *)
Definition summed_slots (flag_cpu : bool) (e : run_env) : list (D * D) :=
  map (observed e) (seq 0 MAX_MEMBARRIER_THREADS) ++
  [let c := cycles_info flag_cpu (first_cycle e :: more_cycles e) fresh_slot in
   (duration c, count c)].

(** The rate of the specification: total calls over total duration when the
    latter is positive, zero otherwise. *)
Definition aggregate_rate (ms : list (D * D)) : D :=
  let duration := d_sum (map fst ms) in
  let count := d_sum (map snd ms) in
  if d_gt duration d_zero then d_div count duration else d_zero.

(** Events that neither report a metric nor create a thread. *)
Definition quiet (ev : event) : bool :=
  match ev with
  | MetricsSet _ _ _ | PthreadCreate _ => false
  | _ => true
  end.

(** ** Further notions for the stressor *)

(** The calls of [inc_counter] in a trace. *)
Definition bogo_ops (l : list event) : nat :=
  length (List.filter (fun ev => match ev with IncCounter => true | _ => false end) l).

(** The calls of [pr_fail] in a trace. *)
Definition failure_reports (l : list event) : nat :=
  length (List.filter (fun ev => match ev with PrFail => true | _ => false end) l).

(** The [membarrier] calls in a trace, as [(cmd, flags, cpu_id)]. *)
Definition membarrier_calls (l : list event) : list (Z * Z * Z) :=
  omap (fun ev => match ev with
                  | Membarrier c f i => Some (c, f, i)
                  | _ => None
                  end) l.

(** The thread joins in a trace. *)
Definition joined_threads (l : list event) : list nat :=
  omap (fun ev => match ev with PthreadJoin i => Some i | _ => None end) l.

(** The loop of [stress_membarrier_thread]:
    [while (keep_running && keep_stressing_flag()) { if (exercise < 0) break; }].
    Each entry holds what the loop condition evaluates to and what the cycle
    reads if it is run.  [None]: the entries ran out with the loop still
    going.  The signal mask is outside the model. *)
Fixpoint stress_membarrier_thread (flag_cpu : bool)
  (cs : list (bool * cycle_env)) (s : estate) : option estate :=
  match cs with
  | [] => None
  | (false, _) :: _ => Some s
  | (true, c) :: cs' =>
      '(r, s') ← stress_membarrier_exercise flag_cpu c s;
      if r <? 0 then Some s' else stress_membarrier_thread flag_cpu cs' s'
  end.

(** The cycles such a loop runs: up to the first entry whose condition is
    false, and no further than a cycle whose query fails. *)
Fixpoint cycles_run (cs : list (bool * cycle_env)) : list cycle_env :=
  match cs with
  | [] => []
  | (false, _) :: _ => []
  | (true, c) :: cs' =>
      if query_ret c <? 0 then [c] else c :: cycles_run cs'
  end.

(** The loop comes to an end on these entries. *)
Fixpoint thread_stops (cs : list (bool * cycle_env)) : bool :=
  match cs with
  | [] => false
  | (false, _) :: _ => true
  | (true, c) :: cs' => (query_ret c <? 0) || thread_stops cs'
  end.

(** What one pass of the coordinator's loop adds to the trace: the calls of
    the cycle (with the failure report of the cycle when the query fails),
    the coordinator's own failure report in that case, and [inc_counter]. *)
Definition cycle_events (flag_cpu : bool) (c : cycle_env) : list event :=
  if query_ret c <? 0 then
    [Membarrier MEMBARRIER_CMD_QUERY 0 0; PrFail; PrFail; IncCounter]
  else
    Membarrier MEMBARRIER_CMD_QUERY 0 0 ::
      flat_map (legal_calls flag_cpu) (set_bits (uint_wrap (query_ret c))) ++
      flat_map illegal_args_calls (set_bits (uint_wrap (query_ret c))) ++
      probe_calls (uint_wrap (query_ret c)) ++ [IncCounter].

(** The threads whose creation succeeded. *)
Definition created_ok (e : run_env) : list nat :=
  List.filter (fun i => create_ret e i =? 0) (seq 0 MAX_MEMBARRIER_THREADS).

(** The event is a [membarrier] call. *)
Definition is_call (ev : event) : bool :=
  match ev with Membarrier _ _ _ => true | _ => false end.

(** The cycles of the coordinator whose query fails. *)
Definition failed_cycles (e : run_env) : nat :=
  length (List.filter (fun c => query_ret c <? 0) (first_cycle e :: more_cycles e)).

End WithDouble.

Arguments membarrier_info_t D : clear implicits.
Arguments event D : clear implicits.
Arguments estate D : clear implicits.
Arguments cycle_env D : clear implicits.
Arguments run_env D : clear implicits.
Arguments mstate D : clear implicits.

End Membarrier.

(* ===================================================================== *)
(** * Part III: facts about the tracking list *)
(* ===================================================================== *)

Module LockofdFacts.

Import Lockofd.

(** ** Chains in the heap *)

Lemma chain_bound h p l :
  chain h p l -> forall a, a ∈ l -> (a < length h)%nat.
Proof.
  revert p. induction l as [|b l IH]; intros p Hc a Ha.
  - inversion Ha.
  - destruct Hc as (-> & n & Hb & Hc).
    apply elem_of_cons in Ha as [-> | Ha].
    + eapply lookup_lt_Some; eassumption.
    + eapply IH; eassumption.
Qed.

(** Overwriting a node with one of the same [next] keeps every chain. *)
Lemma chain_insert_next h p l a n n' :
  h !! a = Some n -> next n' = next n ->
  chain h p l -> chain (<[a := n']> h) p l.
Proof.
  intros Ha Hn. revert p. induction l as [|b l IH]; intros p Hc; [exact Hc|].
  destruct Hc as (-> & m & Hb & Hc). split; [reflexivity|].
  destruct (decide (a = b)) as [->|Hne].
  - exists n'. split.
    + apply list_lookup_insert_eq. eapply lookup_lt_Some; eassumption.
    + rewrite Hn. rewrite Ha in Hb. injection Hb as <-. apply IH, Hc.
  - exists m. split.
    + rewrite list_lookup_insert_ne; assumption.
    + apply IH, Hc.
Qed.

(** Overwriting a node off the chain keeps it. *)
Lemma chain_insert_notin h p l a n' :
  a ∉ l -> chain h p l -> chain (<[a := n']> h) p l.
Proof.
  revert p. induction l as [|b l IH]; intros p Hnot Hc; [exact Hc|].
  destruct Hc as (-> & m & Hb & Hc). split; [reflexivity|].
  apply not_elem_of_cons in Hnot as [Hne Hnot].
  exists m. split.
  - rewrite list_lookup_insert_ne; assumption.
  - apply IH; assumption.
Qed.

(** Allocation keeps every chain. *)
Lemma chain_app h k p l : chain h p l -> chain (h ++ k) p l.
Proof.
  revert p. induction l as [|b l IH]; intros p Hc; [exact Hc|].
  destruct Hc as (-> & m & Hb & Hc). split; [reflexivity|].
  exists m. split; [apply lookup_app_l_Some, Hb | apply IH, Hc].
Qed.

(** Linking a node with [next = NULL] behind the last node of a chain. *)
Lemma chain_snoc h p l t nt a na :
  chain h p (l ++ [t]) -> NoDup (l ++ [t]) ->
  h !! t = Some nt -> a ∉ l ++ [t] -> h !! a = Some na -> next na = None ->
  chain (<[t := mk_info (offset nt) (len nt) (Some a)]> h) p (l ++ [t; a]).
Proof.
  intros Hc Hnd Ht Hnot Ha Hna. revert p Hc Hnd Hnot.
  induction l as [|b l IH]; intros p Hc Hnd Hnot.
  - simpl in *. destruct Hc as (-> & m & Hb & Hc). split; [reflexivity|].
    eexists. split.
    + apply list_lookup_insert_eq. eapply lookup_lt_Some; eassumption.
    + simpl. split; [reflexivity|]. exists na. split.
      * rewrite list_lookup_insert_ne; [assumption|].
        intros ->. apply Hnot. left.
      * rewrite Hna. reflexivity.
  - simpl in *. destruct Hc as (-> & m & Hb & Hc). split; [reflexivity|].
    apply NoDup_cons in Hnd as [Hbl Hnd].
    apply not_elem_of_cons in Hnot as [Hab Hnot].
    exists m. split.
    + rewrite list_lookup_insert_ne; [assumption|].
      intros ->. apply Hbl. apply elem_of_app. right. left.
    + apply IH; assumption.
Qed.

(** A chain determines the records [walk] reads. *)
Lemma walk_chain fuel h p l :
  chain h p l -> (length l <= fuel)%nat ->
  walk fuel h p = map (record_at h) l.
Proof.
  revert p fuel. induction l as [|b l IH]; intros p fuel Hc Hf.
  - simpl in Hc. subst p. destruct fuel; reflexivity.
  - destruct Hc as (-> & m & Hb & Hc). destruct fuel as [|fuel]; [simpl in Hf; lia|].
    simpl. unfold record_at at 1. rewrite Hb. f_equal.
    apply IH; [assumption | simpl in Hf; lia].
Qed.

(** Distinct addresses below a bound are no more than the bound. *)
Lemma NoDup_bounded_length (l : list nat) (n : nat) :
  NoDup l -> (forall a, a ∈ l -> (a < n)%nat) -> (length l <= n)%nat.
Proof.
  intros Hnd Hb.
  assert (Hle : (length l <= length (seq 0 n))%nat).
  { apply submseteq_length, NoDup_submseteq; [assumption|].
    intros a Ha. apply elem_of_seq. specialize (Hb a Ha). lia. }
  rewrite length_seq in Hle. exact Hle.
Qed.

Lemma records_wf st act fre :
  wf st act fre -> records st = map (record_at (heap st)) act.
Proof.
  intros [Hh Hf Ht Hnd]. apply walk_chain; [assumption|].
  apply NoDup_bounded_length.
  - apply NoDup_app in Hnd. tauto.
  - eapply chain_bound; eassumption.
Qed.

Lemma free_records_wf st act fre :
  wf st act fre -> free_records st = map (record_at (heap st)) fre.
Proof.
  intros [Hh Hf Ht Hnd]. apply walk_chain; [assumption|].
  apply NoDup_bounded_length.
  - apply NoDup_app in Hnd. tauto.
  - eapply chain_bound; eassumption.
Qed.

Lemma wf_init : wf init [] [].
Proof.
  split; simpl; try reflexivity. constructor.
Qed.

Ltac munfold :=
  unfold stress_lockofd_info_head_remove, stress_lockofd_info_new,
    set_next, set_offset, set_len, set_head, set_tail, set_free, set_length,
    bind, ret, get_infos, put_infos, load, store, calloc, emit; cbn.

Lemma head_remove_cons st a act fre :
  wf st (a :: act) fre ->
  exists st',
    stress_lockofd_info_head_remove st = Some (tt, st') /\
    wf st' act (a :: fre) /\
    (forall b, record_at (heap st') b = record_at (heap st) b) /\
    length (heap st') = length (heap st) /\
    trace st' = trace st /\
    li_length (lockofd_infos st') = uint64_wrap (li_length (lockofd_infos st) - 1).
Proof.
  destruct st as [h [hd tl fr ln] tr]. intros [Hh Hf Ht Hnd]. simpl in *.
  destruct Hh as (-> & n & Ha & Hc).
  assert (Hnd' : NoDup (act ++ a :: fre)).
  { eapply NoDup_Permutation_proper; [|exact Hnd].
    symmetry. apply Permutation_middle. }
  apply NoDup_cons in Hnd as [Hnot Hnd].
  apply not_elem_of_app in Hnot as [Hna Hnf].
  assert (Hrec : forall m b,
    record_at (<[a := mk_info (offset n) (len n) m]> h) b = record_at h b).
  { intros m b. unfold record_at. destruct (decide (a = b)) as [<-|Hne].
    - rewrite list_lookup_insert_eq by (eapply lookup_lt_Some; eassumption).
      rewrite Ha. reflexivity.
    - rewrite list_lookup_insert_ne by assumption. reflexivity. }
  munfold. rewrite Ha.
  destruct (decide (tl = Some a)) as [Heq|Hne]; cbn; repeat (rewrite Ha; cbn);
    (eexists; split; [reflexivity|]); cbn;
    (split; [|split; [apply Hrec|split; [apply length_insert|split; reflexivity]]]).
  - (* one node *)
    assert (act = []) as ->.
    { destruct act as [|b act]; [reflexivity|]. exfalso.
      rewrite Heq in Ht. symmetry in Ht.
      rewrite last_cons_cons in Ht. apply last_Some_elem_of in Ht.
      contradiction. }
    simpl in Hc. split; simpl.
    + reflexivity.
    + split; [reflexivity|]. eexists. split.
      * apply list_lookup_insert_eq. eapply lookup_lt_Some; eassumption.
      * simpl. apply chain_insert_notin; assumption.
    + reflexivity.
    + assumption.
  - (* more nodes *)
    assert (act <> []) as Hact by (intros ->; simpl in Ht; congruence).
    split; simpl.
    + apply chain_insert_notin; assumption.
    + split; [reflexivity|]. eexists. split.
      * apply list_lookup_insert_eq. eapply lookup_lt_Some; eassumption.
      * simpl. apply chain_insert_notin; assumption.
    + rewrite Ht. destruct act; [congruence|]. apply last_cons_cons.
    + assumption.
Qed.

Lemma chain_last_lookup h p l t :
  chain h p l -> last l = Some t -> exists nt, h !! t = Some nt.
Proof.
  intros Hc Hl. apply last_Some_elem_of in Hl.
  apply lookup_lt_is_Some. eapply chain_bound; eassumption.
Qed.

(** Linking a detached node [a] behind the tail, as
    [stress_lockofd_info_new] does it. *)
Lemma chain_link h hd act a na :
  chain h hd act -> NoDup act -> a ∉ act ->
  h !! a = Some na -> next na = None ->
  match hd with
  | Some _ =>
      exists t nt, last act = Some t /\ h !! t = Some nt /\ t <> a /\
        chain (<[t := mk_info (offset nt) (len nt) (Some a)]> h) hd (act ++ [a])
  | None => act = [] /\ chain h (Some a) [a]
  end.
Proof.
  intros Hc Hnd Hnot Ha Hna. destruct hd as [x|].
  - destruct (last act) as [t|] eqn:Hl.
    + destruct (chain_last_lookup _ _ _ _ Hc Hl) as [nt Ht].
      exists t, nt. split; [reflexivity|]. split; [assumption|].
      assert (t <> a) by (intros ->; apply Hnot; eapply last_Some_elem_of; eassumption).
      split; [assumption|].
      apply last_Some in Hl as [l ->].
      rewrite <- app_assoc. simpl.
      eapply chain_snoc; eassumption.
    + apply last_None in Hl. subst act. simpl in Hc. discriminate.
  - destruct act as [|b act]; [|destruct Hc as [? _]; discriminate].
    split; [reflexivity|]. simpl. split; [reflexivity|].
    exists na. split; [assumption|]. rewrite Hna. reflexivity.
Qed.

Lemma new_reuse st act f fre ok :
  wf st act (f :: fre) ->
  exists st',
    stress_lockofd_info_new ok st = Some (Some f, st') /\
    wf st' (act ++ [f]) fre /\
    (forall b, record_at (heap st') b = record_at (heap st) b) /\
    length (heap st') = length (heap st) /\
    trace st' = trace st /\
    li_length (lockofd_infos st') = uint64_wrap (li_length (lockofd_infos st) + 1).
Proof.
  destruct st as [h [hd tl fr ln] tr]. intros [Hh Hf Ht Hnd]. simpl in *.
  destruct Hf as (-> & nf & Hfl & Hf).
  assert (Hnd' : NoDup ((act ++ [f]) ++ fre)) by (rewrite <- app_assoc; exact Hnd).
  apply NoDup_app in Hnd as (Hnda & Hdisj & Hndf).
  apply NoDup_cons in Hndf as [Hnf Hndf].
  assert (Hna : f ∉ act) by (intros Hin; apply (Hdisj _ Hin); left).
  remember (<[f := mk_info (offset nf) (len nf) None]> h) as h1 eqn:Eh1.
  assert (Hf1 : h1 !! f = Some (mk_info (offset nf) (len nf) None)).
  { subst h1. apply list_lookup_insert_eq. eapply lookup_lt_Some; eassumption. }
  assert (Hh1 : chain h1 hd act) by (subst h1; apply chain_insert_notin; assumption).
  pose proof (chain_link _ _ _ _ _ Hh1 Hnda Hna Hf1 eq_refl) as Hlink.
  munfold. repeat (rewrite Hfl; cbn). rewrite <- Eh1.
  destruct hd as [x|].
  - destruct Hlink as (t & nt & Hl & Htl & Hta & Hlink).
    rewrite Ht, Hl. cbn. repeat (rewrite Htl; cbn).
    eexists. split; [reflexivity|]. cbn.
    split; [|split; [|split; [|split; reflexivity]]].
    + split; simpl.
      * exact Hlink.
      * apply chain_insert_notin.
        { intros Hin. apply (Hdisj t); [eapply last_Some_elem_of; eassumption | right; exact Hin]. }
        subst h1. apply chain_insert_notin; assumption.
      * rewrite last_snoc. reflexivity.
      * exact Hnd'.
    + intros b. unfold record_at.
      destruct (decide (t = b)) as [<-|Hne].
      * rewrite list_lookup_insert_eq by (eapply lookup_lt_Some; eassumption).
        subst h1. rewrite list_lookup_insert_ne in Htl by congruence.
        rewrite Htl. reflexivity.
      * rewrite list_lookup_insert_ne by assumption. subst h1.
        destruct (decide (f = b)) as [<-|Hne'].
        -- rewrite list_lookup_insert_eq by (eapply lookup_lt_Some; eassumption).
           rewrite Hfl. reflexivity.
        -- rewrite list_lookup_insert_ne by assumption. reflexivity.
    + subst h1. rewrite !length_insert. reflexivity.
  - destruct Hlink as (-> & Hlink). cbn.
    eexists. split; [reflexivity|]. cbn.
    split; [|split; [|split; [|split; reflexivity]]].
    + split; simpl.
      * exact Hlink.
      * subst h1. apply chain_insert_notin; assumption.
      * reflexivity.
      * exact Hnd'.
    + intros b. unfold record_at. subst h1.
      destruct (decide (f = b)) as [<-|Hne'].
      * rewrite list_lookup_insert_eq by (eapply lookup_lt_Some; eassumption).
        rewrite Hfl. reflexivity.
      * rewrite list_lookup_insert_ne by assumption. reflexivity.
    + subst h1. apply length_insert.
Qed.

Lemma new_calloc st act :
  wf st act [] ->
  exists st',
    stress_lockofd_info_new true st = Some (Some (length (heap st)), st') /\
    wf st' (act ++ [length (heap st)]) [] /\
    (forall b, b <> length (heap st) ->
               record_at (heap st') b = record_at (heap st) b) /\
    length (heap st') = S (length (heap st)) /\
    trace st' = trace st /\
    li_length (lockofd_infos st') = uint64_wrap (li_length (lockofd_infos st) + 1).
Proof.
  destruct st as [h [hd tl fr ln] tr]. intros [Hh Hf Ht Hnd]. simpl in *.
  subst fr. rewrite app_nil_r in Hnd.
  set (a := length h).
  assert (Hna : a ∉ act).
  { intros Hin. pose proof (chain_bound _ _ _ Hh _ Hin). unfold a in *. lia. }
  remember (h ++ [mk_info 0 0 None]) as h1 eqn:Eh1.
  assert (Ha1 : h1 !! a = Some (mk_info 0 0 None)).
  { subst h1. apply list_lookup_middle. reflexivity. }
  assert (Hh1 : chain h1 hd act) by (subst h1; apply chain_app; assumption).
  pose proof (chain_link _ _ _ _ _ Hh1 Hnd Hna Ha1 eq_refl) as Hlink.
  assert (Hnd' : NoDup ((act ++ [a]) ++ [])).
  { rewrite app_nil_r. apply NoDup_app. split; [assumption|]. split.
    - intros x Hx Hxa. apply list_elem_of_singleton in Hxa. subst x. contradiction.
    - apply NoDup_singleton. }
  assert (Hrec1 : forall b, b <> a -> record_at h1 b = record_at h b).
  { intros b Hb. unfold record_at. subst h1.
    destruct (decide (b < a)%nat) as [Hlt|Hge].
    - rewrite lookup_app_l by exact Hlt. reflexivity.
    - rewrite (lookup_ge_None_2 h b) by (unfold a in *; lia).
      rewrite lookup_ge_None_2; [reflexivity|].
      rewrite length_app. simpl. unfold a in *. lia. }
  munfold. rewrite <- Eh1. fold a.
  destruct hd as [x|].
  - destruct Hlink as (t & nt & Hl & Htl & Hta & Hlink).
    rewrite Ht, Hl. cbn. repeat (rewrite Htl; cbn).
    eexists. split; [reflexivity|]. cbn.
    split; [|split; [|split; [|split; reflexivity]]].
    + split; simpl.
      * exact Hlink.
      * reflexivity.
      * rewrite last_snoc. reflexivity.
      * exact Hnd'.
    + intros b Hb. rewrite <- (Hrec1 b Hb). unfold record_at.
      destruct (decide (t = b)) as [<-|Hne].
      * rewrite list_lookup_insert_eq by (eapply lookup_lt_Some; eassumption).
        rewrite Htl. reflexivity.
      * rewrite list_lookup_insert_ne by assumption. reflexivity.
    + rewrite length_insert. subst h1. rewrite length_app. simpl. lia.
  - destruct Hlink as (-> & Hlink). cbn.
    eexists. split; [reflexivity|]. cbn.
    split; [|split; [|split; [|split; reflexivity]]].
    + split; simpl.
      * exact Hlink.
      * reflexivity.
      * reflexivity.
      * exact Hnd'.
    + exact Hrec1.
    + subst h1. rewrite length_app. simpl. lia.
Qed.

(** With an empty free pool and a failing [calloc] nothing changes. *)
Lemma new_fail st :
  li_free (lockofd_infos st) = None ->
  stress_lockofd_info_new false st = Some (None, st).
Proof.
  intros Hf. munfold. rewrite Hf. cbn. reflexivity.
Qed.

(** With an empty list [stress_lockofd_info_head_remove] does nothing. *)
Lemma head_remove_nil st :
  li_head (lockofd_infos st) = None ->
  stress_lockofd_info_head_remove st = Some (tt, st).
Proof.
  intros Hh. munfold. rewrite Hh. reflexivity.
Qed.

(** The two assignments [p->offset = ...; p->len = ...]. *)
Lemma set_record st act fre a n r :
  wf st act fre -> heap st !! a = Some n ->
  exists st',
    (let* _ := set_offset (Some a) (fst r) in set_len (Some a) (snd r)) st
      = Some (tt, st') /\
    wf st' act fre /\
    record_at (heap st') a = r /\
    (forall b, b <> a -> record_at (heap st') b = record_at (heap st) b) /\
    length (heap st') = length (heap st) /\
    trace st' = trace st /\
    lockofd_infos st' = lockofd_infos st.
Proof.
  destruct st as [h li tr]. intros [Hh Hf Ht Hnd] Ha. simpl in *.
  assert (Hlt : (a < length h)%nat) by (eapply lookup_lt_Some; eassumption).
  munfold. repeat (rewrite Ha; cbn).
  repeat (rewrite list_lookup_insert_eq by assumption; cbn).
  eexists. split; [reflexivity|]. cbn.
  rewrite list_insert_insert_eq.
  split; [|split; [|split; [|split; [|split; reflexivity]]]].
  - split; simpl; try assumption.
    + eapply chain_insert_next; [eassumption|reflexivity|assumption].
    + eapply chain_insert_next; [eassumption|reflexivity|assumption].
  - unfold record_at. rewrite list_lookup_insert_eq by assumption.
    destruct r; reflexivity.
  - intros b Hb. unfold record_at.
    rewrite list_lookup_insert_ne by congruence. reflexivity.
  - apply length_insert.
Qed.

Lemma map_record_at_ext h h' (l : list nat) :
  (forall b, b ∈ l -> record_at h' b = record_at h b) ->
  map (record_at h') l = map (record_at h) l.
Proof.
  intros Hext. apply map_ext_in. intros b Hb. apply Hext, list_elem_of_In, Hb.
Qed.

(** A push appends its record at the tail; it takes its node from the free
    pool when there is one and allocates otherwise. *)
Lemma push_ok st act fre ok r :
  wf st act fre -> fre <> [] \/ ok = true ->
  exists a st',
    push ok r st = Some (Some a, st') /\
    wf st' (act ++ [a]) (tail fre) /\
    records st' = records st ++ [r] /\
    free_records st' = tail (free_records st) /\
    length (heap st') =
      (if decide (fre = []) then S (length (heap st)) else length (heap st)) /\
    trace st' = trace st /\
    li_length (lockofd_infos st') = uint64_wrap (li_length (lockofd_infos st) + 1).
Proof.
  intros Hwf Hcond.
  assert (Hbound : forall b, b ∈ act ++ fre -> (b < length (heap st))%nat).
  { intros b Hb. apply elem_of_app in Hb as [Hb|Hb].
    - eapply chain_bound; [apply Hwf|exact Hb].
    - eapply chain_bound; [apply (wf_free _ _ _ Hwf)|exact Hb]. }
  assert (Hnew : exists a st1,
    stress_lockofd_info_new ok st = Some (Some a, st1) /\
    wf st1 (act ++ [a]) (tail fre) /\
    (forall b, b ∈ act ++ tail fre -> record_at (heap st1) b = record_at (heap st) b) /\
    length (heap st1) =
      (if decide (fre = []) then S (length (heap st)) else length (heap st)) /\
    trace st1 = trace st /\
    li_length (lockofd_infos st1) = uint64_wrap (li_length (lockofd_infos st) + 1)).
  { destruct fre as [|f fre].
    - destruct Hcond as [?| ->]; [congruence|].
      destruct (new_calloc _ _ Hwf) as (st1 & E & Hwf1 & Hrec & Hlen & Htr & Hln).
      exists (length (heap st)), st1.
      split; [exact E|]. split; [exact Hwf1|]. split; [|auto].
      intros b Hb. apply Hrec. rewrite app_nil_r in Hbound, Hb.
      specialize (Hbound b Hb). lia.
    - destruct (new_reuse _ _ _ _ ok Hwf) as (st1 & E & Hwf1 & Hrec & Hlen & Htr & Hln).
      exists f, st1.
      split; [exact E|]. split; [exact Hwf1|]. split; [|auto].
      intros b _. apply Hrec. }
  destruct Hnew as (a & st1 & E & Hwf1 & Hrec & Hlen & Htr & Hln).
  assert (Hin : a ∈ act ++ [a]) by (apply elem_of_app; right; left).
  destruct (lookup_lt_is_Some_2 (heap st1) a) as [n Hn].
  { eapply chain_bound; [apply Hwf1|exact Hin]. }
  destruct (set_record _ _ _ _ _ r Hwf1 Hn)
    as (st2 & E2 & Hwf2 & Hra & Hrb & Hlen2 & Htr2 & Hli2).
  exists a, st2.
  assert (Hnd := wf_nodup _ _ _ Hwf1).
  rewrite <- app_assoc in Hnd. apply NoDup_app in Hnd as (_ & Hdisj & Hnd).
  apply NoDup_cons in Hnd as [Haf _].
  assert (Haa : a ∉ act).
  { intros Hx. apply (Hdisj _ Hx). left. }
  split.
  { unfold push, bind. rewrite E. unfold bind in E2. cbn in E2.
    destruct (set_offset (Some a) r.1 st1) as [[[] st']|]; [|discriminate].
    rewrite E2. reflexivity. }
  split; [exact Hwf2|].
  split.
  { rewrite (records_wf _ _ _ Hwf2), (records_wf _ _ _ Hwf).
    rewrite map_app. simpl. rewrite Hra. f_equal.
    apply map_record_at_ext. intros b Hb.
    rewrite Hrb by (intros ->; contradiction).
    apply Hrec, elem_of_app. left. exact Hb. }
  split.
  { rewrite (free_records_wf _ _ _ Hwf2), (free_records_wf _ _ _ Hwf).
    destruct fre as [|f fre]; [reflexivity|]. simpl.
    apply map_record_at_ext. intros b Hb.
    rewrite Hrb by (intros ->; contradiction).
    apply Hrec, elem_of_app. right. exact Hb. }
  split; [congruence|]. split; [congruence|]. rewrite Hli2. exact Hln.
Qed.

(** With an empty free pool and a failing [calloc] a push changes nothing. *)
Lemma push_fail st r :
  li_free (lockofd_infos st) = None -> push false r st = Some (None, st).
Proof.
  intros Hf. unfold push, bind. rewrite (new_fail _ Hf). reflexivity.
Qed.

(** A pop removes the record at the head and hands its node to the free
    pool. *)
Lemma pop_cons st a act fre :
  wf st (a :: act) fre ->
  exists st',
    pop st = Some (Some (record_at (heap st) a), st') /\
    wf st' act (a :: fre) /\
    records st = record_at (heap st) a :: records st' /\
    free_records st' = record_at (heap st) a :: free_records st /\
    length (heap st') = length (heap st) /\
    trace st' = trace st /\
    li_length (lockofd_infos st') = uint64_wrap (li_length (lockofd_infos st) - 1).
Proof.
  intros Hwf.
  destruct (head_remove_cons _ _ _ _ Hwf) as (st' & E & Hwf' & Hrec & Hlen & Htr & Hln).
  exists st'.
  split.
  { destruct (wf_head _ _ _ Hwf) as (Hhd & n & Hn & _).
    unfold pop, bind, get_infos, load, ret. rewrite Hhd, Hn, E.
    unfold record_at. rewrite Hn. reflexivity. }
  split; [exact Hwf'|].
  split.
  { rewrite (records_wf _ _ _ Hwf), (records_wf _ _ _ Hwf'). simpl. f_equal.
    apply map_record_at_ext. intros b _. symmetry. apply Hrec. }
  split.
  { rewrite (free_records_wf _ _ _ Hwf), (free_records_wf _ _ _ Hwf'). simpl.
    rewrite Hrec. f_equal. apply map_record_at_ext. intros b _. apply Hrec. }
  repeat split; assumption.
Qed.

Lemma pop_nil st fre :
  wf st [] fre -> pop st = Some (None, st).
Proof.
  intros Hwf. pose proof (wf_head _ _ _ Hwf) as Hh. simpl in Hh.
  unfold pop, bind, get_infos. rewrite Hh, (head_remove_nil _ Hh). reflexivity.
Qed.

(** ** Runs of pushes and pops *)

Lemma pushes_ok rs : forall st act fre,
  wf st act fre ->
  exists st' act' fre',
    pushes rs st = Some (tt, st') /\ wf st' act' fre' /\
    records st' = records st ++ rs /\
    trace st' = trace st.
Proof.
  induction rs as [|r rs IH]; intros st act fre Hwf.
  - exists st, act, fre. rewrite app_nil_r. auto.
  - destruct (push_ok _ _ _ true r Hwf) as (a & st1 & E & Hwf1 & Hrec & _ & _ & Htr & _);
      [right; reflexivity|].
    destruct (IH _ _ _ Hwf1) as (st' & act' & fre' & E' & Hwf' & Hrec' & Htr').
    exists st', act', fre'. split.
    { simpl. unfold bind. rewrite E. exact E'. }
    split; [assumption|]. split; [|congruence].
    rewrite Hrec', Hrec, <- app_assoc. reflexivity.
Qed.

Lemma pops_ok k : forall st act fre,
  wf st act fre ->
  exists st' act' fre',
    pops k st = Some (take k (records st), st') /\ wf st' act' fre' /\
    records st' = drop k (records st) /\
    trace st' = trace st.
Proof.
  induction k as [|k IH]; intros st act fre Hwf.
  - exists st, act, fre. rewrite drop_0. auto.
  - destruct act as [|a act].
    + pose proof (pop_nil _ _ Hwf) as E.
      destruct (IH _ _ _ Hwf) as (st' & act' & fre' & E' & Hwf' & Hrec' & Htr').
      assert (Hnil : records st = []) by (rewrite (records_wf _ _ _ Hwf); reflexivity).
      exists st', act', fre'. split.
      { simpl. unfold bind. rewrite E, E'. rewrite Hnil, take_nil. reflexivity. }
      split; [assumption|]. split; [|assumption].
      rewrite Hrec', Hnil, !drop_nil. reflexivity.
    + destruct (pop_cons _ _ _ _ Hwf) as (st1 & E & Hwf1 & Hrec & _ & _ & Htr & _).
      destruct (IH _ _ _ Hwf1) as (st' & act' & fre' & E' & Hwf' & Hrec' & Htr').
      exists st', act', fre'. split.
      { simpl. unfold bind. rewrite E, E'. rewrite Hrec. reflexivity. }
      split; [assumption|]. split; [|congruence].
      rewrite Hrec', Hrec. reflexivity.
Qed.

(** ** Eviction *)

Lemma unlock_nil rc st :
  li_head (lockofd_infos st) = None ->
  stress_lockofd_unlock rc st = Some (0, st).
Proof.
  intros Hh. unfold stress_lockofd_unlock, bind, get_infos. rewrite Hh. reflexivity.
Qed.

(** On a non-empty list the head is removed whatever [fcntl] answers; the
    answer decides the result and whether the failure is reported. *)
Lemma unlock_cons rc st a act fre :
  wf st (a :: act) fre ->
  exists st',
    stress_lockofd_info_head_remove st = Some (tt, st') /\
    stress_lockofd_unlock rc st =
      Some (if rc <? 0 then -1 else 0,
            with_trace st'
              (trace st ++ unlock_event (record_at (heap st) a) ::
                 (if rc <? 0 then [PrFailErr "F_SETLK"] else []))).
Proof.
  intros Hwf.
  destruct (head_remove_cons _ _ _ _ Hwf) as (st' & E & _ & _ & _ & Htr & _).
  exists st'. split; [exact E|].
  destruct (wf_head _ _ _ Hwf) as (Hhd & n & Hn & _).
  unfold stress_lockofd_unlock, bind, get_infos, load, emit, ret.
  rewrite Hhd, Hn, E. unfold record_at, unlock_event, with_trace. rewrite Hn, Htr. simpl.
  destruct (rc <? 0); simpl; [rewrite <- app_assoc|]; reflexivity.
Qed.

(** ** The loop body *)

Lemma wf_with_trace st tr act fre :
  wf st act fre -> wf (with_trace st tr) act fre.
Proof. intros [? ? ? ?]. split; assumption. Qed.

(** Lines 188-194 are a push of the drawn range. *)
Lemma lock_and_record_push e st :
  lock_and_record e st =
  (let* _ := emit (getlk_event (lock_request e)) in
   if getlk_rc e <? 0 then ret None
   else
     let* p := push (calloc_ok e) (lock_request e) in
     match p with
     | None => let* _ := emit (PrFailErr "calloc") in ret (Some (-1))
     | Some _ => let* _ := emit IncCounter in ret None
     end) st.
Proof.
  unfold lock_and_record, push, bind, emit, ret, getlk_event, lock_request. simpl.
  destruct (getlk_rc e <? 0); [reflexivity|].
  destruct (stress_lockofd_info_new _ _) as [[[a|] s]|]; try reflexivity.
  destruct (set_offset _ _ _) as [[[] s1]|]; try reflexivity.
  destruct (set_len _ _ _) as [[[] s2]|]; reflexivity.
Qed.

(** What lines 173-196 do, case by case. *)
Lemma lock_and_record_spec e st act fre :
  wf st act fre ->
  exists r st',
    lock_and_record e st = Some (r, st') /\
    ( (* the call fails: nothing is recorded *)
      (getlk_rc e < 0 /\ r = None /\
       st' = with_trace st (trace st ++ [getlk_event (lock_request e)]))
      \/
      (* no node to be had: nothing is recorded, the loop is left *)
      (0 <= getlk_rc e /\ fre = [] /\ calloc_ok e = false /\ r = Some (-1) /\
       st' = with_trace st (trace st ++ [getlk_event (lock_request e);
                                         PrFailErr "calloc"]))
      \/
      (* the range is recorded at the tail *)
      (0 <= getlk_rc e /\ (fre <> [] \/ calloc_ok e = true) /\ r = None /\
       (exists a, wf st' (act ++ [a]) (tail fre)) /\
       records st' = records st ++ [lock_request e] /\
       free_records st' = tail (free_records st) /\
       trace st' = trace st ++ [getlk_event (lock_request e); IncCounter] /\
       li_length (lockofd_infos st') =
         uint64_wrap (li_length (lockofd_infos st) + 1)) ).
Proof.
  intros Hwf. rewrite lock_and_record_push. unfold bind at 1. unfold emit at 1.
  fold (with_trace st (trace st ++ [getlk_event (lock_request e)])).
  set (st1 := with_trace st _).
  assert (Hwf1 : wf st1 act fre) by (apply wf_with_trace; assumption).
  destruct (Z.ltb_spec (getlk_rc e) 0) as [Hrc|Hrc].
  { exists None, st1. split; [reflexivity|]. left. auto. }
  destruct (decide (fre = [])) as [->|Hfre]; [destruct (calloc_ok e) eqn:Hok|].
  - destruct (push_ok _ _ _ true (lock_request e) Hwf1)
      as (a & st2 & E & Hwf2 & Hrec & Hfr & _ & Htr & Hln); [right; reflexivity|].
    eexists None, _. unfold bind, emit, ret. rewrite E. split; [reflexivity|].
    right. right. simpl.
    split; [assumption|]. split; [right; reflexivity|]. split; [reflexivity|].
    split; [exists a; split; apply Hwf2|].
    split; [exact Hrec|]. split; [exact Hfr|].
    split; [rewrite Htr; simpl; rewrite <- app_assoc; reflexivity|exact Hln].
  - exists (Some (-1)). eexists. unfold bind, emit, ret.
    rewrite push_fail by (apply (wf_free _ _ _ Hwf1)). split; [reflexivity|].
    right. left. simpl. repeat (split; [auto|]).
    unfold with_trace. simpl. rewrite <- app_assoc. reflexivity.
  - destruct (push_ok _ _ _ (calloc_ok e) (lock_request e) Hwf1)
      as (a & st2 & E & Hwf2 & Hrec & Hfr & _ & Htr & Hln); [left; assumption|].
    eexists None, _. unfold bind, emit, ret. rewrite E. split; [reflexivity|].
    right. right. simpl.
    split; [assumption|]. split; [left; assumption|]. split; [reflexivity|].
    split; [exists a; split; apply Hwf2|].
    split; [exact Hrec|]. split; [exact Hfr|].
    split; [rewrite Htr; simpl; rewrite <- app_assoc; reflexivity|exact Hln].
Qed.

Lemma inv_init : inv init.
Proof.
  exists [], []. split; [apply wf_init|]. split; [reflexivity|].
  unfold LOCK_MAX. simpl. lia.
Qed.

Lemma inv_length st :
  inv st ->
  li_length (lockofd_infos st) = Z.of_nat (length (records st)) /\
  li_length (lockofd_infos st) <= LOCK_MAX.
Proof.
  intros (act & fre & Hwf & Hlen & Hmax).
  rewrite (records_wf _ _ _ Hwf), length_map. unfold length_ok in Hlen.
  rewrite Hlen. auto.
Qed.

(** What lines 169-171 do. *)
Lemma evict_spec e st act fre :
  wf st act fre -> length_ok st act -> Z.of_nat (length act) <= LOCK_MAX ->
  exists r st',
    evict_if_full e st = Some (r, st') /\
    ( (li_length (lockofd_infos st) < LOCK_MAX /\ r = None /\ st' = st)
      \/
      (li_length (lockofd_infos st) = LOCK_MAX /\
       exists a act',
         act = a :: act' /\ wf st' act' (a :: fre) /\ length_ok st' act' /\
         records st = record_at (heap st) a :: records st' /\
         trace st' = trace st ++ unlock_event (record_at (heap st) a) ::
                       (if unlock_rc e <? 0 then [PrFailErr "F_SETLK"] else []) /\
         r = (if unlock_rc e <? 0 then Some (-1) else None)) ).
Proof.
  intros Hwf Hlen Hmax. unfold length_ok in Hlen.
  unfold evict_if_full, bind at 1, get_infos.
  destruct (Z.leb_spec LOCK_MAX (li_length (lockofd_infos st))) as [Hfull|Hroom].
  - destruct act as [|a act'].
    { simpl in Hlen. unfold LOCK_MAX in *. lia. }
    destruct (unlock_cons (unlock_rc e) _ _ _ _ Hwf) as (st1 & Erm & Eun).
    destruct (head_remove_cons _ _ _ _ Hwf) as (st1' & E & Hwf1 & Hrec & _ & Htr & Hln).
    rewrite Erm in E. injection E as <-.
    unfold bind. rewrite Eun.
    destruct (unlock_rc e <? 0); simpl; (eexists _, _; split; [reflexivity|]);
      (right; split; [lia|]; exists a, act'; split; [reflexivity|];
       split; [apply wf_with_trace, Hwf1|]; split; [|split; [|split; reflexivity]]).
    all: try (unfold length_ok; simpl; rewrite Hln, Hlen; unfold uint64_wrap;
              simpl length in *; unfold LOCK_MAX in *; rewrite Z.mod_small; lia).
    all: rewrite (records_wf _ _ _ Hwf),
           (records_wf _ _ _ (wf_with_trace _ _ _ _ Hwf1));
         simpl; f_equal; apply map_record_at_ext; intros b _; symmetry; apply Hrec.
  - exists None, st. split; [reflexivity|]. left. auto.
Qed.

(** One pass keeps the invariant and never dereferences a bad pointer. *)
Lemma iteration_inv e st :
  inv st -> exists r st', iteration e st = Some (r, st') /\ inv st'.
Proof.
  intros (act & fre & Hwf & Hlen & Hmax).
  destruct (evict_spec e _ _ _ Hwf Hlen Hmax) as (r1 & st1 & E1 & Hcase).
  assert (Hmid : exists act1 fre1,
    wf st1 act1 fre1 /\ length_ok st1 act1 /\
    (r1 = None -> Z.of_nat (length act1) < LOCK_MAX) /\
    Z.of_nat (length act1) <= LOCK_MAX).
  { destruct Hcase as [(Hlt & -> & ->) | (Heq & a & act' & -> & Hwf1 & Hlen1 & _)].
    - exists act, fre. unfold length_ok in Hlen.
      split; [exact Hwf|]. split; [exact Hlen|]. split; [intros _; lia|exact Hmax].
    - exists act', (a :: fre). unfold length_ok in Hlen. simpl length in *.
      split; [exact Hwf1|]. split; [exact Hlen1|]. split; [intros _; lia|lia]. }
  destruct Hmid as (act1 & fre1 & Hwf1 & Hlen1 & Hlt1 & Hle1).
  unfold iteration, bind. rewrite E1. destruct r1 as [rc|].
  { exists (Some rc), st1. split; [reflexivity|]. exists act1, fre1. auto. }
  specialize (Hlt1 eq_refl).
  destruct (lock_and_record_spec e _ _ _ Hwf1) as (r & st' & E & Hc).
  exists r, st'. split; [exact E|].
  destruct Hc as [(_ & _ & ->) | [(_ & _ & _ & _ & ->) | (_ & _ & _ & (a & Hwf') & _ & _ & _ & Hln)]].
  - exists act1, fre1. split; [apply wf_with_trace, Hwf1|]. auto.
  - exists act1, fre1. split; [apply wf_with_trace, Hwf1|]. auto.
  - exists (act1 ++ [a]), (tail fre1). split; [exact Hwf'|].
    unfold length_ok in *. rewrite length_app. simpl length.
    rewrite Hln, Hlen1. unfold uint64_wrap, LOCK_MAX in *.
    rewrite Z.mod_small by lia. split; lia.
Qed.

(** The loop keeps the invariant, whatever it reads. *)
Lemma contention_inv envs : forall st,
  inv st ->
  exists r st', stress_lockofd_contention envs st = Some (r, st') /\ inv st'.
Proof.
  induction envs as [|e envs IH]; intros st Hinv.
  - exists None, st. auto.
  - destruct (iteration_inv e _ Hinv) as (r & st1 & E & Hinv1).
    simpl. unfold bind. rewrite E. destruct r as [rc|].
    + exists (Some rc), st1. auto.
    + destruct (keep e); [apply IH, Hinv1|].
      exists (Some 0), st1. auto.
Qed.

(** A run that is still going is continued by the passes that follow. *)
Lemma contention_app envs1 envs2 : forall st st1,
  stress_lockofd_contention envs1 st = Some (None, st1) ->
  stress_lockofd_contention (envs1 ++ envs2) st =
  stress_lockofd_contention envs2 st1.
Proof.
  induction envs1 as [|e envs1 IH]; intros st st1 E.
  - injection E as ->. reflexivity.
  - simpl in *. unfold bind in *.
    destruct (iteration e st) as [[[rc|] s]|]; try discriminate.
    destruct (keep e); [apply IH, E|discriminate].
Qed.

(** ** The claims about the tracking list *)

Lemma free_pool_empty_iff st act fre :
  wf st act fre -> (fre = [] <-> li_free (lockofd_infos st) = None).
Proof.
  intros Hwf. pose proof (wf_free _ _ _ Hwf) as Hf.
  destruct fre as [|f fre]; simpl in Hf.
  - tauto.
  - destruct Hf as [-> _]. split; discriminate.
Qed.

Lemma app_singleton_neq {A} (l : list A) (x : A) : l ++ [x] <> l.
Proof.
  intros E. apply (f_equal length) in E. rewrite length_app in E. simpl in E. lia.
Qed.

(** What decides whether a pass records the drawn range: the result of the
    call of line 182 and whether a node is to be had (the free pool has one
    or the allocation succeeds).  With a negative result the pass records
    nothing and heap and list are as the eviction step left them; with no
    node to be had nothing is recorded either and the loop is left with
    -1. *)
Lemma record_iff_call_and_node (e : iter_env) (st : state)
  (Hwf : well_formed st) :
  exists r st',
    lock_and_record e st = Some (r, st') /\
    ((exists x, records st' = records st ++ [x]) <->
     (0 <= getlk_rc e /\ (free_pool_nonempty st \/ calloc_ok e = true))) /\
    (0 <= getlk_rc e -> free_pool_nonempty st \/ calloc_ok e = true ->
     r = None /\ records st' = records st ++ [lock_request e] /\
     trace st' = trace st ++ [getlk_event (lock_request e); IncCounter]) /\
    (getlk_rc e < 0 ->
     r = None /\ heap st' = heap st /\ lockofd_infos st' = lockofd_infos st /\
     trace st' = trace st ++ [getlk_event (lock_request e)]) /\
    (0 <= getlk_rc e -> ~ free_pool_nonempty st -> calloc_ok e = false ->
     r = Some (-1) /\ heap st' = heap st /\ lockofd_infos st' = lockofd_infos st).
Proof.
  destruct Hwf as (act & fre & Hwf).
  pose proof (free_pool_empty_iff _ _ _ Hwf) as Hfree.
  unfold free_pool_nonempty.
  destruct (lock_and_record_spec e _ _ _ Hwf) as (r & st' & E & Hc).
  exists r, st'. split; [exact E|].
  destruct Hc as [(Hrc & -> & ->) | [(Hrc & Hfre & Hok & -> & ->) |
                  (Hrc & Hnode & -> & _ & Hrec & _ & Htr & _)]].
  - (* the call fails *)
    split; [|split; [|split; [|]]].
    + split; [|lia]. intros [x Hx]. exfalso. exact (app_singleton_neq (records st) x (eq_sym Hx)).
    + lia.
    + intros _. auto.
    + lia.
  - (* no node *)
    apply Hfree in Hfre.
    split; [|split; [|split; [|]]].
    + split.
      * intros [x Hx]. exfalso. exact (app_singleton_neq (records st) x (eq_sym Hx)).
      * intros (_ & [Hn | Hn]); [contradiction | congruence].
    + intros _ [Hn | Hn]; [contradiction | congruence].
    + lia.
    + intros _ _ _. auto.
  - (* recorded *)
    assert (Hnode' : li_free (lockofd_infos st) <> None \/ calloc_ok e = true).
    { destruct Hnode as [Hn | Hn]; [left | right; exact Hn].
      intros Hx. apply Hn, Hfree, Hx. }
    split; [|split; [|split; [|]]].
    + split; [auto|]. intros _. eexists. exact Hrec.
    + intros _ _. auto.
    + lia.
    + intros _ Hn Hok. destruct Hnode' as [Hx | Hx]; [contradiction | congruence].
Qed.

(** C1: a pass whose call of line 182 returns 0 appends the drawn range to
    the list and counts it, under the comment "Locked OK"; yet the call is
    the query [F_OFD_GETLK], and it is the only [fcntl] call made: nothing
    the loop has done places a lock, so the range is recorded as locked
    without a lock having been acquired. *)
Theorem C1_recorded_without_lock :
  exists st,
    stress_lockofd_contention [mk_env 0 7 77 0 true false] init
      = Some (Some 0, st) /\
    records st = [(77, 8)] /\
    trace st = [Fcntl F_OFD_GETLK (mk_flock F_WRLCK SEEK_SET 77 8 0); IncCounter] /\
    forallb (fun ev => negb (places_lock ev)) (trace st) = true.
Proof.
  eexists. split; [vm_compute; reflexivity|].
  split; [vm_compute; reflexivity|]. split; reflexivity.
Qed.

(** What the two draws can give, for every value of the generators: the
    length lies in [0, 4095] and the range ends before the end of the
    file. *)
Lemma lock_request_bounds (v16 v64 : Z) :
  0 <= lock_len v16 <= 4095 /\
  0 <= lock_offset v64 (lock_len v16) < LOCK_FILE_SIZE - lock_len v16 /\
  lock_offset v64 (lock_len v16) + lock_len v16 < LOCK_FILE_SIZE.
Proof.
  assert (Hlen : 0 <= lock_len v16 <= 4095).
  { unfold lock_len. change 4095 with (Z.ones 12). rewrite Z.land_ones by lia.
    pose proof (Z.mod_pos_bound (v16 + 1) (2 ^ 12) ltac:(lia)).
    change (Z.ones 12) with (2 ^ 12 - 1). lia. }
  split; [exact Hlen|].
  assert (Hoff : 0 <= lock_offset v64 (lock_len v16) < LOCK_FILE_SIZE - lock_len v16).
  { unfold lock_offset. apply Z.mod_pos_bound. unfold LOCK_FILE_SIZE. lia. }
  split; [exact Hoff|]. lia.
Qed.

(** C2: the draw [mwc16() = 4095] gives the length 0, below the claimed
    range [1, 4096]; the pass issues the lock call with [l_len = 0] and
    records the range. *)
Theorem C2_zero_length_request :
  lock_len 4095 = 0 /\
  lock_request (mk_env 0 4095 77 0 true false) = (77, 0) /\
  exists st,
    stress_lockofd_contention [mk_env 0 4095 77 0 true false] init
      = Some (Some 0, st) /\
    records st = [(77, 0)] /\
    trace st = [Fcntl F_OFD_GETLK (mk_flock F_WRLCK SEEK_SET 77 0 0); IncCounter].
Proof.
  split; [reflexivity|]. split; [reflexivity|].
  eexists. split; [vm_compute; reflexivity|]. split; reflexivity.
Qed.

(** C3: from the empty list, N pushes followed by k <= N pops remove the
    records in the order they were pushed, oldest first; the list then holds
    the remaining records in that order, and further pushes go behind
    them. *)
Theorem C3_fifo_order (rs rs' : list (Z * Z)) (k : nat)
  (Hk : (k <= length rs)%nat) :
  exists st1 st2 st3,
    pushes rs init = Some (tt, st1) /\ records st1 = rs /\
    pops k st1 = Some (take k rs, st2) /\ length (take k rs) = k /\
    records st2 = drop k rs /\
    pushes rs' st2 = Some (tt, st3) /\ records st3 = drop k rs ++ rs'.
Proof.
  destruct (pushes_ok rs _ _ _ wf_init) as (st1 & act1 & fre1 & E1 & Hwf1 & Hrec1 & _).
  change (records init) with (@nil (Z * Z)) in Hrec1. simpl in Hrec1.
  destruct (pops_ok k _ _ _ Hwf1) as (st2 & act2 & fre2 & E2 & Hwf2 & Hrec2 & _).
  destruct (pushes_ok rs' _ _ _ Hwf2) as (st3 & act3 & fre3 & E3 & Hwf3 & Hrec3 & _).
  rewrite Hrec1 in E2, Hrec2. rewrite Hrec2 in Hrec3.
  exists st1, st2, st3. repeat (split; [assumption|]).
  split; [apply length_take_le, Hk|]. auto.
Qed.

Lemma C3_fifo_order_witness :
  exists st1 st2 st3,
    pushes [(0, 8); (8, 8); (16, 8)] init = Some (tt, st1) /\
    records st1 = [(0, 8); (8, 8); (16, 8)] /\
    pops 2 st1 = Some ([(0, 8); (8, 8)], st2) /\ length [(0, 8); (8, 8)] = 2%nat /\
    records st2 = [(16, 8)] /\
    pushes [(24, 8)] st2 = Some (tt, st3) /\ records st3 = [(16, 8); (24, 8)].
Proof.
  apply (C3_fifo_order [(0, 8); (8, 8); (16, 8)] [(24, 8)] 2). simpl. lia.
Defined.

(** C4: from the empty list, at the head of every pass of the contention
    loop, after its eviction step and after the whole pass, [length] is the
    number of records and is at most [LOCK_MAX]; and when it has reached
    [LOCK_MAX] the pass first unlocks and removes the oldest record and only
    then admits at most one new one, behind the others. *)
Theorem C4_capacity_bound (envs : list iter_env) :
  exists r st,
    stress_lockofd_contention envs init = Some (r, st) /\
    li_length (lockofd_infos st) = Z.of_nat (length (records st)) /\
    li_length (lockofd_infos st) <= LOCK_MAX /\
    forall e, r = None ->
      exists r1 st1 r2 st2,
        evict_if_full e st = Some (r1, st1) /\
        li_length (lockofd_infos st1) = Z.of_nat (length (records st1)) /\
        li_length (lockofd_infos st1) <= LOCK_MAX /\
        iteration e st = Some (r2, st2) /\
        li_length (lockofd_infos st2) = Z.of_nat (length (records st2)) /\
        li_length (lockofd_infos st2) <= LOCK_MAX /\
        (li_length (lockofd_infos st) = LOCK_MAX ->
         exists oldest rest tr,
           records st = oldest :: rest /\ records st1 = rest /\
           li_length (lockofd_infos st1) = LOCK_MAX - 1 /\
           trace st2 = trace st ++ unlock_event oldest :: tr /\
           (records st2 = rest \/ records st2 = rest ++ [lock_request e])).
Proof.
  destruct (contention_inv envs _ inv_init) as (r & st & E & Hinv).
  exists r, st. split; [exact E|].
  destruct (inv_length _ Hinv) as [Hlen Hmax]. split; [exact Hlen|]. split; [exact Hmax|].
  intros e _.
  destruct Hinv as (act & fre & Hwf & Hlk & Hle).
  destruct (evict_spec e _ _ _ Hwf Hlk Hle) as (r1 & st1 & E1 & Hcase).
  destruct (iteration_inv e st) as (r2 & st2 & E2 & Hinv2).
  { exists act, fre. auto. }
  destruct (inv_length _ Hinv2) as [Hlen2 Hmax2].
  exists r1, st1, r2, st2. split; [exact E1|].
  destruct Hcase as [(Hlt & -> & ->) | (Heq & a & act' & -> & Hwf1 & Hlk1 & Hrec & Htr & ->)].
  - repeat (split; [assumption|]). intros Hfull. lia.
  - assert (Hinv1 : inv st1).
    { exists act', (a :: fre). unfold length_ok in *. simpl length in *.
      split; [exact Hwf1|]. split; [exact Hlk1|]. lia. }
    destruct (inv_length _ Hinv1) as [Hlen1 Hmax1].
    repeat (split; [assumption|]). intros _.
    exists (record_at (heap st) a), (records st1).
    unfold iteration, bind in E2. rewrite E1 in E2.
    destruct (unlock_rc e <? 0).
    + injection E2 as <- <-. eexists. split; [exact Hrec|]. split; [reflexivity|].
      split; [unfold length_ok in *; simpl length in *; lia|].
      split; [exact Htr|]. left. reflexivity.
    + destruct (lock_and_record_spec e _ _ _ Hwf1) as (r' & st' & E' & Hc).
      rewrite E' in E2. injection E2 as <- <-.
      assert (Hl1 : li_length (lockofd_infos st1) = LOCK_MAX - 1)
        by (unfold length_ok in *; simpl length in *; lia).
      destruct Hc as [(_ & _ & ->) | [(_ & _ & _ & _ & ->) | (_ & _ & _ & _ & Hr & _ & Ht & _)]].
      * eexists. split; [exact Hrec|]. split; [reflexivity|]. split; [exact Hl1|].
        split; [|left; reflexivity].
        simpl. rewrite Htr, <- app_assoc. reflexivity.
      * eexists. split; [exact Hrec|]. split; [reflexivity|]. split; [exact Hl1|].
        split; [|left; reflexivity].
        simpl. rewrite Htr, <- app_assoc. reflexivity.
      * eexists. split; [exact Hrec|]. split; [reflexivity|]. split; [exact Hl1|].
        split; [|right; exact Hr].
        rewrite Ht, Htr, <- app_assoc. reflexivity.
Qed.

(** C9: on an empty tracking list [stress_lockofd_unlock] returns 0, issues
    no unlock call and leaves heap, list, free pool and [length] as they are,
    and [stress_lockofd_info_head_remove] does nothing; so a removal
    lowers [length] only when there is a record to remove, and the counter of
    a list that started empty never passes below zero. *)
Theorem C9_eviction_of_empty_list :
  (forall st rc,
     li_head (lockofd_infos st) = None ->
     stress_lockofd_unlock rc st = Some (0, st) /\
     stress_lockofd_info_head_remove st = Some (tt, st)) /\
  (forall st,
     inv st ->
     exists st',
       stress_lockofd_info_head_remove st = Some (tt, st') /\ inv st' /\
       li_length (lockofd_infos st') =
         Z.max 0 (li_length (lockofd_infos st) - 1)).
Proof.
  split.
  - intros st rc Hh. split; [apply unlock_nil | apply head_remove_nil]; exact Hh.
  - intros st (act & fre & Hwf & Hlen & Hmax). unfold length_ok in Hlen.
    destruct act as [|a act].
    + pose proof (wf_head _ _ _ Hwf) as Hh. simpl in Hh.
      exists st. split; [apply head_remove_nil, Hh|].
      split; [exists [], fre; auto|]. rewrite Hlen. reflexivity.
    + destruct (head_remove_cons _ _ _ _ Hwf) as (st' & E & Hwf' & _ & _ & _ & Hln).
      simpl length in *.
      assert (Hl' : li_length (lockofd_infos st') = Z.of_nat (length act)).
      { rewrite Hln, Hlen. unfold uint64_wrap, LOCK_MAX in *.
        rewrite Z.mod_small; lia. }
      exists st'. split; [exact E|]. split.
      * exists act, (a :: fre). split; [exact Hwf'|]. split; [exact Hl'|lia].
      * rewrite Hl', Hlen. lia.
Qed.

Lemma C9_eviction_of_empty_list_witness :
  stress_lockofd_unlock (-1) init = Some (0, init) /\
  stress_lockofd_info_head_remove init = Some (tt, init).
Proof.
  exact (proj1 C9_eviction_of_empty_list init (-1) eq_refl).
Defined.

(** C10: [stress_lockofd_unlock] takes the head record off the list and
    puts its node into the free pool before it looks at the result of the
    unlock call: when the call fails (-1 is returned) heap, list and free
    pool are the same as after a call that succeeds, the record is gone from
    the list and its node heads the free pool. *)
Theorem C10_failed_eviction_has_evicted (st : state) (a : nat)
  (act fre : list nat) (rc_fail rc_ok : Z)
  (Hwf : wf st (a :: act) fre) (Hfail : rc_fail < 0) (Hok : 0 <= rc_ok) :
  exists st_rm s_fail s_ok,
    stress_lockofd_info_head_remove st = Some (tt, st_rm) /\
    stress_lockofd_unlock rc_fail st = Some (-1, s_fail) /\
    stress_lockofd_unlock rc_ok st = Some (0, s_ok) /\
    heap s_fail = heap s_ok /\ lockofd_infos s_fail = lockofd_infos s_ok /\
    heap s_fail = heap st_rm /\ lockofd_infos s_fail = lockofd_infos st_rm /\
    records st = record_at (heap st) a :: records s_fail /\
    free_records s_fail = record_at (heap st) a :: free_records st /\
    trace s_ok = trace st ++ [unlock_event (record_at (heap st) a)] /\
    trace s_fail = trace s_ok ++ [PrFailErr "F_SETLK"].
Proof.
  destruct (unlock_cons rc_fail _ _ _ _ Hwf) as (st_rm & Erm & Efail).
  destruct (unlock_cons rc_ok _ _ _ _ Hwf) as (st_rm' & Erm' & Eok).
  rewrite Erm in Erm'. injection Erm' as <-.
  destruct (pop_cons _ _ _ _ Hwf) as (st1 & Epop & Hwf1 & Hrec & Hfree & _).
  assert (st1 = st_rm) as ->.
  { destruct (wf_head _ _ _ Hwf) as (Hhd & n & Hn & _).
    unfold pop, bind, get_infos, load, ret in Epop.
    rewrite Hhd, Hn, Erm in Epop. congruence. }
  apply Z.ltb_lt in Hfail. apply Z.ltb_ge in Hok.
  rewrite Hfail in Efail. rewrite Hok in Eok.
  eexists st_rm, _, _.
  split; [exact Erm|]. split; [exact Efail|]. split; [exact Eok|].
  simpl. repeat (split; [reflexivity|]).
  split; [exact Hrec|]. split; [exact Hfree|].
  split; [reflexivity|]. rewrite <- app_assoc. reflexivity.
Qed.

Lemma C10_failed_eviction_has_evicted_witness :
  let st := mk_state [mk_info 0 8 (Some 1%nat); mk_info 8 8 None]
                     (mk_list (Some 0%nat) (Some 1%nat) None 2) [] in
  exists s_fail s_ok,
    stress_lockofd_unlock (-1) st = Some (-1, s_fail) /\
    stress_lockofd_unlock 0 st = Some (0, s_ok) /\
    heap s_fail = heap s_ok /\ lockofd_infos s_fail = lockofd_infos s_ok /\
    (0, 8) :: records s_fail = [(0, 8); (8, 8)] /\
    free_records s_fail = [(0, 8)].
Proof.
  intros st.
  assert (Hwf : wf st [0%nat; 1%nat] []).
  { split; simpl.
    - split; [reflexivity|]. eexists. split; [reflexivity|]. simpl.
      split; [reflexivity|]. eexists. split; reflexivity.
    - reflexivity.
    - reflexivity.
    - apply NoDup_cons. split; [|apply NoDup_singleton].
      intros Hin. apply list_elem_of_singleton in Hin. discriminate. }
  destruct (C10_failed_eviction_has_evicted _ _ _ _ (-1) 0 Hwf)
    as (st_rm & s_fail & s_ok & _ & Ef & Eo & Hh & Hl & _ & _ & Hrec & Hfr & _);
    [lia | lia |].
  exists s_fail, s_ok.
  split; [exact Ef|]. split; [exact Eo|].
  split; [exact Hh|]. split; [exact Hl|].
  split; [symmetry; exact Hrec|exact Hfr].
Defined.

End LockofdFacts.

(* ===================================================================== *)
(** * Part IV: facts about the membarrier stressor *)
(* ===================================================================== *)

Module MembarrierFacts.

Import Membarrier.

(** ** Bits of an [unsigned int] *)

Lemma uint_wrap_pow2 (b : nat) :
  (b < 32)%nat -> uint_wrap (2 ^ Z.of_nat b) = 2 ^ Z.of_nat b.
Proof.
  intros Hb. unfold uint_wrap. apply Z.mod_small. split; [lia|].
  apply Z.pow_lt_mono_r; lia.
Qed.

Lemma uint_wrap_pow2_32 : uint_wrap (2 ^ Z.of_nat 32) = 0.
Proof. reflexivity. Qed.

(** [i <<= 1] moves from bit [b] to bit [b + 1], and to 0 from bit 31. *)
Lemma shift_next (b : nat) :
  (b < 32)%nat ->
  uint_wrap (Z.shiftl (uint_wrap (2 ^ Z.of_nat b)) 1) = uint_wrap (2 ^ Z.of_nat (S b)).
Proof.
  intros Hb. rewrite uint_wrap_pow2 by assumption.
  rewrite Z.shiftl_mul_pow2 by lia. f_equal.
  rewrite Nat2Z.inj_succ, Z.pow_succ_r by lia. lia.
Qed.

Lemma pow2_nonzero (b : nat) :
  (b < 32)%nat -> (uint_wrap (2 ^ Z.of_nat b) =? 0) = false.
Proof.
  intros Hb. rewrite uint_wrap_pow2 by assumption. apply Z.eqb_neq. lia.
Qed.

(** [i & mask] is zero exactly when the bit of [i] is not set in [mask]. *)
Lemma land_pow2_eqb (mask : Z) (b : nat) :
  (Z.land (2 ^ Z.of_nat b) mask =? 0) = negb (bit_set mask b).
Proof.
  unfold bit_set. set (n := Z.of_nat b). assert (Hn : 0 <= n) by lia.
  destruct (Z.testbit mask n) eqn:Hbit; simpl.
  - apply Z.eqb_neq. intros H0.
    assert (Ht : Z.testbit (Z.land (2 ^ n) mask) n = true).
    { rewrite Z.land_spec, Z.pow2_bits_true, Hbit by lia. reflexivity. }
    rewrite H0, Z.bits_0 in Ht. discriminate.
  - apply Z.eqb_eq. apply Z.bits_inj'. intros m Hm.
    rewrite Z.land_spec, Z.bits_0, Z.pow2_bits_eqb by lia.
    destruct (Z.eqb_spec n m) as [<-|]; [rewrite Hbit|]; reflexivity.
Qed.

Lemma land_wrap_pow2_eqb (mask : Z) (b : nat) :
  (b < 32)%nat ->
  (Z.land (uint_wrap (2 ^ Z.of_nat b)) mask =? 0) = negb (bit_set mask b).
Proof.
  intros Hb. rewrite uint_wrap_pow2 by assumption. apply land_pow2_eqb.
Qed.

Lemma to_int_wrap_pow2 (b : nat) :
  (b < 32)%nat -> to_int (uint_wrap (2 ^ Z.of_nat b)) = cmd_of_bit b.
Proof.
  intros Hb. rewrite uint_wrap_pow2 by assumption. reflexivity.
Qed.

(** The bits of the mask an [int] result turns into are the bits of the
    result. *)
Lemma bit_set_uint_wrap (ret : Z) (b : nat) :
  (b < 32)%nat -> bit_set (uint_wrap ret) b = bit_set ret b.
Proof.
  intros Hb. unfold bit_set, uint_wrap.
  apply Z.mod_pow2_bits_low. lia.
Qed.

(** ** Set bits and the lowest unset bit *)

Lemma elem_of_set_bits (mask : Z) (b : nat) :
  In b (set_bits mask) <-> (b < 32)%nat /\ Z.testbit mask (Z.of_nat b) = true.
Proof.
  unfold set_bits. rewrite filter_In, in_seq. unfold bit_set. intuition lia.
Qed.

Lemma filter_seq_sorted (p : nat -> bool) (n : nat) : forall a,
  StronglySorted lt (List.filter p (seq a n)).
Proof.
  induction n as [|n IH]; intros a; [constructor|].
  cbn [seq List.filter].
  assert (Hall : Forall (lt a) (List.filter p (seq (S a) n))).
  { apply List.Forall_forall. intros x Hx. apply filter_In in Hx as [Hx _].
    apply in_seq in Hx. lia. }
  destruct (p a); [constructor; [apply IH | exact Hall] | apply IH].
Qed.

(** The set bits are listed in increasing order, each once. *)
Lemma set_bits_sorted (mask : Z) : StronglySorted lt (set_bits mask).
Proof. apply filter_seq_sorted. Qed.

Lemma find_seq_first (p : nat -> bool) (n : nat) : forall a,
  match List.find p (seq a n) with
  | Some b =>
      (a <= b < a + n)%nat /\ p b = true /\
      forall b', (a <= b' < b)%nat -> p b' = false
  | None => forall b', (a <= b' < a + n)%nat -> p b' = false
  end.
Proof.
  induction n as [|n IH]; intros a.
  - simpl. intros b' Hb'. lia.
  - cbn [seq List.find]. destruct (p a) eqn:Hpa.
    + split; [lia|]. split; [exact Hpa|]. intros b' Hb'. lia.
    + specialize (IH (S a)). destruct (List.find p (seq (S a) n)) as [b|].
      * destruct IH as (Hb & Hpb & Hlow). split; [lia|]. split; [exact Hpb|].
        intros b' Hb'. destruct (decide (b' = a)) as [->|Hne]; [exact Hpa|].
        apply Hlow. lia.
      * intros b' Hb'. destruct (decide (b' = a)) as [->|Hne]; [exact Hpa|].
        apply IH. lia.
Qed.

(** [lowest_unset_bit] is the lowest unset bit of the 32-bit word, if one is
    unset. *)
Lemma lowest_unset_bit_Some (mask : Z) (b : nat) :
  lowest_unset_bit mask = Some b <->
  (b < 32)%nat /\ bit_set mask b = false /\
  forall b', (b' < b)%nat -> bit_set mask b' = true.
Proof.
  unfold lowest_unset_bit.
  pose proof (find_seq_first (fun b => negb (bit_set mask b)) 32 0) as Hf.
  destruct (List.find _ _) as [b0|].
  - destruct Hf as (Hb0 & Hp & Hlow). apply negb_true_iff in Hp. split.
    + intros [= <-]. split; [lia|]. split; [exact Hp|].
      intros b' Hb'. apply negb_false_iff, Hlow. lia.
    + intros (Hb & Hu & Hl). f_equal.
      destruct (Nat.lt_trichotomy b0 b) as [Hlt|[Heq|Hgt]]; [|exact Heq|].
      * rewrite (Hl b0 Hlt) in Hp. discriminate.
      * specialize (Hlow b ltac:(lia)). apply negb_false_iff in Hlow. congruence.
  - split; [discriminate|]. intros (Hb & Hu & _).
    specialize (Hf b ltac:(lia)). apply negb_false_iff in Hf. congruence.
Qed.

Lemma lowest_unset_bit_None (mask : Z) :
  lowest_unset_bit mask = None <->
  forall b, (b < 32)%nat -> bit_set mask b = true.
Proof.
  unfold lowest_unset_bit.
  pose proof (find_seq_first (fun b => negb (bit_set mask b)) 32 0) as Hf.
  destruct (List.find _ _) as [b0|].
  - destruct Hf as (Hb0 & Hp & _). apply negb_true_iff in Hp. split; [discriminate|].
    intros Hall. rewrite (Hall b0) in Hp by lia. discriminate.
  - split; [|reflexivity]. intros _ b Hb. apply negb_false_iff, Hf. lia.
Qed.

(** The mask of a non-negative [int] has bit 31 clear. *)
Lemma int_mask_bit31 (ret : Z) :
  0 <= ret < 2 ^ 31 -> bit_set (uint_wrap ret) 31 = false.
Proof.
  intros Hret. unfold bit_set, uint_wrap.
  rewrite Z.mod_small by lia. change (Z.of_nat 31) with 31.
  destruct (Z.eq_dec ret 0) as [->|Hne]; [apply Z.bits_0|].
  apply Z.bits_above_log2; [lia|].
  apply Z.log2_lt_pow2; lia.
Qed.

Section Sweeps.

Context {D : Type} `{DoubleOps D}.

Lemma incr_times_add (n m : nat) (c : D) :
  incr_times (n + m) c = incr_times m (incr_times n c).
Proof.
  unfold incr_times. rewrite Nat.add_comm. apply Nat.iter_add.
Qed.

(** ** The timed sweep *)

Lemma legal_sweep_from (flag_cpu : bool) (mask : Z) (n : nat) :
  forall (b fuel : nat) (s : estate D),
    (b + n = 32)%nat -> (n < fuel)%nat ->
    exists s',
      shift_loop fuel (uint_wrap (2 ^ Z.of_nat b)) (legal_body flag_cpu mask) s
        = Some s' /\
      trace s' = trace s ++
        flat_map (legal_calls flag_cpu) (List.filter (bit_set mask) (seq b n)) /\
      count (info s') =
        incr_times (calls_per_bit flag_cpu *
                    length (List.filter (bit_set mask) (seq b n)))
                   (count (info s)) /\
      duration (info s') = duration (info s) /\
      pthread (info s') = pthread (info s) /\
      pthread_ret (info s') = pthread_ret (info s).
Proof.
  induction n as [|n IH]; intros b fuel s Hb Hfuel.
  - assert (b = 32%nat) as -> by lia.
    destruct fuel as [|fuel]; [lia|].
    exists s. cbn [shift_loop]. rewrite uint_wrap_pow2_32. simpl.
    rewrite app_nil_r, Nat.mul_0_r. repeat split; reflexivity.
  - destruct fuel as [|fuel]; [lia|].
    assert (Hb32 : (b < 32)%nat) by lia.
    cbn [shift_loop]. rewrite pow2_nonzero by assumption.
    unfold legal_body at 1.
    rewrite land_wrap_pow2_eqb, negb_involutive, to_int_wrap_pow2 by assumption.
    cbn [seq List.filter].
    destruct (bit_set mask b) eqn:Hbit.
    + rewrite shift_next by assumption.
      set (s1 := if flag_cpu then _ else _).
      destruct (IH (S b) fuel s1 ltac:(lia) ltac:(lia))
        as (s' & E & Htr & Hc & Hd & Hp & Hr).
      exists s'. split; [exact E|].
      assert (Hs1 : trace s1 = trace s ++ legal_calls flag_cpu b /\
                    count (info s1) = incr_times (calls_per_bit flag_cpu) (count (info s)) /\
                    duration (info s1) = duration (info s) /\
                    pthread (info s1) = pthread (info s) /\
                    pthread_ret (info s1) = pthread_ret (info s)).
      { subst s1. unfold legal_calls, calls_per_bit.
        destruct flag_cpu; simpl; rewrite <- ?app_assoc; auto. }
      destruct Hs1 as (Htr1 & Hc1 & Hd1 & Hp1 & Hr1).
      split.
      { rewrite Htr, Htr1. cbn [flat_map]. rewrite <- app_assoc. reflexivity. }
      split.
      { rewrite Hc, Hc1. cbn [length]. rewrite <- incr_times_add. f_equal. lia. }
      split; [congruence|]. split; congruence.
    + rewrite shift_next by assumption.
      destruct (IH (S b) fuel s ltac:(lia) ltac:(lia))
        as (s' & E & Htr & Hc & Hd & Hp & Hr).
      exists s'. repeat (split; [assumption|]). assumption.
Qed.

(** ** The probes with illegal arguments *)

Lemma illegal_args_sweep_from (mask : Z) (n : nat) :
  forall (b fuel : nat) (s : estate D),
    (b + n = 32)%nat -> (n < fuel)%nat ->
    exists s',
      shift_loop fuel (uint_wrap (2 ^ Z.of_nat b)) (illegal_args_body mask) s
        = Some s' /\
      trace s' = trace s ++
        flat_map illegal_args_calls (List.filter (bit_set mask) (seq b n)) /\
      info s' = info s.
Proof.
  induction n as [|n IH]; intros b fuel s Hb Hfuel.
  - assert (b = 32%nat) as -> by lia.
    destruct fuel as [|fuel]; [lia|].
    exists s. cbn [shift_loop]. rewrite uint_wrap_pow2_32. simpl.
    rewrite app_nil_r. auto.
  - destruct fuel as [|fuel]; [lia|].
    assert (Hb32 : (b < 32)%nat) by lia.
    cbn [shift_loop]. rewrite pow2_nonzero by assumption.
    unfold illegal_args_body at 1.
    rewrite land_wrap_pow2_eqb, negb_involutive, to_int_wrap_pow2 by assumption.
    cbn [seq List.filter].
    destruct (bit_set mask b) eqn:Hbit; rewrite shift_next by assumption.
    + set (s1 := call _ _ _ (call _ _ _ s)).
      destruct (IH (S b) fuel s1 ltac:(lia) ltac:(lia)) as (s' & E & Htr & Hi).
      exists s'. split; [exact E|]. split; [|exact Hi].
      rewrite Htr. subst s1. cbn [flat_map]. simpl. rewrite <- !app_assoc. reflexivity.
    + destruct (IH (S b) fuel s ltac:(lia) ltac:(lia)) as (s' & E & Htr & Hi).
      exists s'. auto.
Qed.

(** ** The probe with an illegal command *)

Lemma illegal_command_from (mask : Z) (n : nat) :
  forall (b fuel : nat) (s : estate D),
    (b + n = 32)%nat -> (n < fuel)%nat ->
    shift_loop fuel (uint_wrap (2 ^ Z.of_nat b)) (illegal_command_body mask) s
      = Some (match List.find (fun b => negb (bit_set mask b)) (seq b n) with
              | Some b' => call (cmd_of_bit b') 0 0 s
              | None => s
              end).
Proof.
  induction n as [|n IH]; intros b fuel s Hb Hfuel.
  - assert (b = 32%nat) as -> by lia.
    destruct fuel as [|fuel]; [lia|].
    cbn [shift_loop]. rewrite uint_wrap_pow2_32. reflexivity.
  - destruct fuel as [|fuel]; [lia|].
    assert (Hb32 : (b < 32)%nat) by lia.
    cbn [shift_loop]. rewrite pow2_nonzero by assumption.
    unfold illegal_command_body at 1.
    rewrite land_wrap_pow2_eqb, to_int_wrap_pow2 by assumption.
    cbn [seq List.find].
    destruct (bit_set mask b) eqn:Hbit; simpl.
    + rewrite shift_next by assumption. apply IH; lia.
    + reflexivity.
Qed.

(** The three loops as the cycle runs them: from bit 0, with fuel to
    spare. *)
Lemma legal_sweep_spec (flag_cpu : bool) (mask : Z) (s : estate D) :
  exists s',
    legal_sweep flag_cpu mask s = Some s' /\
    trace s' = trace s ++ flat_map (legal_calls flag_cpu) (set_bits mask) /\
    count (info s') =
      incr_times (calls_per_bit flag_cpu * popcount mask) (count (info s)) /\
    duration (info s') = duration (info s) /\
    pthread (info s') = pthread (info s) /\
    pthread_ret (info s') = pthread_ret (info s).
Proof.
  exact (legal_sweep_from flag_cpu mask 32 0 33 s eq_refl (Nat.lt_succ_diag_r 32)).
Qed.

Lemma illegal_args_sweep_spec (mask : Z) (s : estate D) :
  exists s',
    illegal_args_sweep mask s = Some s' /\
    trace s' = trace s ++ flat_map illegal_args_calls (set_bits mask) /\
    info s' = info s.
Proof.
  exact (illegal_args_sweep_from mask 32 0 33 s eq_refl (Nat.lt_succ_diag_r 32)).
Qed.

Lemma illegal_command_probe_spec (mask : Z) (s : estate D) :
  illegal_command_probe mask s
    = Some (mk_estate (info s) (trace s ++ probe_calls mask)).
Proof.
  etrans;
    [exact (illegal_command_from mask 32 0 33 s eq_refl (Nat.lt_succ_diag_r 32))|].
  unfold probe_calls, lowest_unset_bit.
  destruct (List.find _ _); [reflexivity|].
  rewrite app_nil_r. destruct s; reflexivity.
Qed.

(** ** The whole cycle *)

Lemma exercise_failed_query (flag_cpu : bool) (e : cycle_env D) (s : estate D) :
  query_ret e < 0 ->
  stress_membarrier_exercise flag_cpu e s =
    Some (-1, mk_estate (info s)
                (trace s ++ [Membarrier MEMBARRIER_CMD_QUERY 0 0; PrFail])).
Proof.
  intros Hret. unfold stress_membarrier_exercise.
  apply Z.ltb_lt in Hret. rewrite Hret. unfold call. cbn [info trace].
  rewrite <- app_assoc. reflexivity.
Qed.

(** With a query that succeeds the cycle returns 0; its calls are the
    query, the counted sweep, the probes with illegal arguments and the
    probe with an illegal command, in this order; the counter takes the
    increments of the sweep and the duration the time of the sweep. *)
Lemma exercise_spec (flag_cpu : bool) (e : cycle_env D) (s : estate D) :
  0 <= query_ret e ->
  stress_membarrier_exercise flag_cpu e s =
    Some (0, mk_estate
               (cycle_info flag_cpu e (info s))
               (trace s ++ Membarrier MEMBARRIER_CMD_QUERY 0 0 ::
                  flat_map (legal_calls flag_cpu) (set_bits (uint_wrap (query_ret e))) ++
                  flat_map illegal_args_calls (set_bits (uint_wrap (query_ret e))) ++
                  probe_calls (uint_wrap (query_ret e)))).
Proof.
  intros Hret. unfold stress_membarrier_exercise, cycle_info.
  apply Z.ltb_ge in Hret. rewrite Hret.
  set (mask := uint_wrap (query_ret e)).
  set (s0 := call MEMBARRIER_CMD_QUERY 0 0 s).
  destruct (legal_sweep_spec flag_cpu mask s0) as (s1 & E1 & Htr1 & Hc1 & Hd1 & Hp1 & Hr1).
  rewrite E1. cbn [mbind option_bind].
  set (s2 := duration_add _ s1).
  destruct (illegal_args_sweep_spec mask s2) as (s3 & E3 & Htr3 & Hi3).
  rewrite E3. cbn [mbind option_bind].
  rewrite illegal_command_probe_spec. cbn [mbind option_bind].
  f_equal. f_equal. f_equal.
  - rewrite Hi3. unfold s2, duration_add. cbn [info].
    rewrite Hc1, Hd1, Hp1, Hr1. reflexivity.
  - rewrite Htr3. change (trace s2) with (trace s1). rewrite Htr1.
    change (trace s0) with (trace s ++ [Membarrier MEMBARRIER_CMD_QUERY 0 0]).
    rewrite <- !app_assoc. reflexivity.
Qed.

(** The calls of a cycle neither report a metric nor create a thread. *)
Lemma quiet_legal_calls (flag_cpu : bool) (bs : list nat) :
  forallb (@quiet D) (flat_map (legal_calls flag_cpu) bs) = true.
Proof.
  induction bs as [|b bs IH]; [reflexivity|].
  cbn [flat_map]. rewrite forallb_app, IH.
  unfold legal_calls. destruct flag_cpu; reflexivity.
Qed.

Lemma quiet_illegal_args_calls (bs : list nat) :
  forallb (@quiet D) (flat_map illegal_args_calls bs) = true.
Proof.
  induction bs as [|b bs IH]; [reflexivity|].
  cbn [flat_map]. rewrite forallb_app, IH. reflexivity.
Qed.

Lemma quiet_probe_calls (mask : Z) : forallb (@quiet D) (probe_calls mask) = true.
Proof.
  unfold probe_calls. generalize (lowest_unset_bit mask).
  intros [b|]; reflexivity.
Qed.

Lemma quiet_cycle_calls (flag_cpu : bool) (bs1 bs2 : list nat) (probe : list (event D)) :
  forallb quiet probe = true ->
  forallb quiet (Membarrier MEMBARRIER_CMD_QUERY 0 0 ::
                   flat_map (legal_calls flag_cpu) bs1 ++
                   flat_map illegal_args_calls bs2 ++ probe) = true.
Proof.
  intros Hp. cbn [forallb quiet andb].
  rewrite !forallb_app, quiet_legal_calls, quiet_illegal_args_calls, Hp.
  reflexivity.
Qed.

(** The cycle always returns: -1 when the query fails and 0 otherwise, with
    the slot as [cycle_info] tells and only calls added to the trace. *)
Lemma exercise_total (flag_cpu : bool) (e : cycle_env D) (s : estate D) :
  exists r tr,
    stress_membarrier_exercise flag_cpu e s
      = Some (r, mk_estate (cycle_info flag_cpu e (info s)) (trace s ++ tr)) /\
    forallb quiet tr = true /\
    (r < 0 <-> query_ret e < 0).
Proof.
  destruct (Z.lt_ge_cases (query_ret e) 0) as [Hret|Hret].
  - exists (-1), [Membarrier MEMBARRIER_CMD_QUERY 0 0; PrFail].
    rewrite exercise_failed_query by assumption.
    unfold cycle_info. apply Z.ltb_lt in Hret. rewrite Hret.
    split; [reflexivity|]. split; [reflexivity|]. apply Z.ltb_lt in Hret. lia.
  - eexists 0, _. split; [apply exercise_spec; assumption|].
    split; [|lia].
    apply quiet_cycle_calls, quiet_probe_calls.
Qed.

Lemma app_cons_assoc4 {A} (a : list A) (q : A) (l1 l2 p : list A) :
  a ++ q :: l1 ++ l2 ++ p = (a ++ q :: l1 ++ l2) ++ p.
Proof.
  rewrite <- !app_assoc. cbn [app]. rewrite <- !app_assoc. reflexivity.
Qed.

(** ** The claims about the exercise cycle *)

(** In a cycle whose query gives the mask m, the counted calls are, for
    each set bit of m in increasing bit order, one call with that command
    and zero flags (and one more with [MEMBARRIER_CMD_FLAG_CPU] had the test
    of line 93 held); they come right after the query and before every
    other call of the cycle, and the counter of the thread takes one
    [+= 1.0] for each of them. *)
Lemma counted_calls_per_set_bit (flag_cpu : bool) (e : cycle_env D)
  (s : estate D) (Hret : 0 <= query_ret e) :
  exists s',
    stress_membarrier_exercise flag_cpu e s = Some (0, s') /\
    trace s' =
      trace s ++ Membarrier MEMBARRIER_CMD_QUERY 0 0 ::
        flat_map (legal_calls flag_cpu) (set_bits (uint_wrap (query_ret e))) ++
        flat_map illegal_args_calls (set_bits (uint_wrap (query_ret e))) ++
        probe_calls (uint_wrap (query_ret e)) /\
    count (info s') =
      incr_times (calls_per_bit flag_cpu * popcount (uint_wrap (query_ret e)))
                 (count (info s)) /\
    (forall b, In b (set_bits (uint_wrap (query_ret e))) <->
               (b < 32)%nat /\ Z.testbit (query_ret e) (Z.of_nat b) = true) /\
    StronglySorted lt (set_bits (uint_wrap (query_ret e))).
Proof.
  eexists. split; [apply exercise_spec; exact Hret|].
  cbn [trace info]. split; [reflexivity|].
  assert (Hc : count (cycle_info flag_cpu e (info s)) =
               incr_times (calls_per_bit flag_cpu * popcount (uint_wrap (query_ret e)))
                          (count (info s))).
  { unfold cycle_info. apply Z.ltb_ge in Hret. rewrite Hret. reflexivity. }
  split; [exact Hc|].
  split; [|apply set_bits_sorted].
  intros b. rewrite elem_of_set_bits. split.
  - intros [Hb Ht]. split; [exact Hb|].
    change (bit_set (uint_wrap (query_ret e)) b = true) in Ht.
    rewrite bit_set_uint_wrap in Ht by exact Hb. exact Ht.
  - intros [Hb Ht]. split; [exact Hb|].
    change (bit_set (uint_wrap (query_ret e)) b = true).
    rewrite bit_set_uint_wrap by exact Hb. exact Ht.
Qed.

(** C6: a cycle whose query succeeds ends with the probe for an illegal
    command, which is at most one call: the command of the lowest bit that
    is not set in the mask, when the 32-bit word has such a bit (always, for
    the mask of an [int]), and no call otherwise.  The probe changes neither
    the counter nor the duration: the slot after the cycle is the slot after
    the counted sweep. *)
Theorem C6_single_illegal_command_probe (flag_cpu : bool) (e : cycle_env D)
  (s : estate D) (Hret : 0 <= query_ret e) :
  exists before s',
    stress_membarrier_exercise flag_cpu e s = Some (0, s') /\
    trace s' = before ++ probe_calls (uint_wrap (query_ret e)) /\
    before =
      trace s ++ Membarrier MEMBARRIER_CMD_QUERY 0 0 ::
        flat_map (legal_calls flag_cpu) (set_bits (uint_wrap (query_ret e))) ++
        flat_map illegal_args_calls (set_bits (uint_wrap (query_ret e))) /\
    (length (@probe_calls D (uint_wrap (query_ret e))) <= 1)%nat /\
    (forall b,
       (b < 32)%nat -> bit_set (uint_wrap (query_ret e)) b = false ->
       (forall b', (b' < b)%nat -> bit_set (uint_wrap (query_ret e)) b' = true) ->
       @probe_calls D (uint_wrap (query_ret e)) = [Membarrier (cmd_of_bit b) 0 0]) /\
    ((forall b, (b < 32)%nat -> bit_set (uint_wrap (query_ret e)) b = true) ->
     @probe_calls D (uint_wrap (query_ret e)) = []) /\
    (query_ret e < 2 ^ 31 ->
     length (@probe_calls D (uint_wrap (query_ret e))) = 1%nat) /\
    (forall s1 : estate D,
       illegal_command_probe (uint_wrap (query_ret e)) s1 =
         Some (mk_estate (info s1)
                 (trace s1 ++ probe_calls (uint_wrap (query_ret e))))) /\
    count (info s') =
      incr_times (calls_per_bit flag_cpu * popcount (uint_wrap (query_ret e)))
                 (count (info s)) /\
    duration (info s') =
      d_add (duration (info s)) (d_sub (t_end e) (t_start e)).
Proof.
  set (mask := uint_wrap (query_ret e)).
  exists (trace s ++ Membarrier MEMBARRIER_CMD_QUERY 0 0 ::
            flat_map (legal_calls flag_cpu) (set_bits mask) ++
            flat_map illegal_args_calls (set_bits mask)).
  eexists. split; [apply exercise_spec; exact Hret|].
  cbn [trace info]. fold mask.
  split; [apply app_cons_assoc4|].
  split; [reflexivity|].
  assert (Hsome : forall b, lowest_unset_bit mask = Some b ->
                    @probe_calls D mask = [Membarrier (cmd_of_bit b) 0 0]).
  { intros b Hb. unfold probe_calls. rewrite Hb. reflexivity. }
  assert (Hnone : lowest_unset_bit mask = None -> @probe_calls D mask = []).
  { intros Hb. unfold probe_calls. rewrite Hb. reflexivity. }
  split.
  { destruct (lowest_unset_bit mask) as [b|] eqn:Hb.
    - rewrite (Hsome b eq_refl). simpl. lia.
    - rewrite (Hnone eq_refl). simpl. lia. }
  split.
  { intros b Hb Hu Hl. apply Hsome, lowest_unset_bit_Some. auto. }
  split.
  { intros Hall. apply Hnone, lowest_unset_bit_None, Hall. }
  split.
  { intros Hint. destruct (lowest_unset_bit mask) as [b|] eqn:Hb.
    - rewrite (Hsome b eq_refl). reflexivity.
    - exfalso. pose proof (proj1 (lowest_unset_bit_None mask) Hb 31%nat ltac:(lia)) as H31.
      unfold mask in H31. rewrite int_mask_bit31 in H31 by lia. discriminate. }
  split; [intros s1; apply illegal_command_probe_spec|].
  unfold cycle_info. apply Z.ltb_ge in Hret. rewrite Hret. fold mask.
  split; reflexivity.
Qed.

End Sweeps.

Section Stressor.

Context {D : Type} `{DoubleOps D}.

(** ** The phases of [stress_membarrier] *)

Lemma init_slots (lg : list (event D)) :
  for_upto (S MAX_MEMBARRIER_THREADS) init_slot
    (mk_mstate (replicate (S MAX_MEMBARRIER_THREADS) (mk_info 0 0 d_zero d_zero)) lg)
  = Some (mk_mstate (replicate 5 fresh_slot) lg).
Proof. reflexivity. Qed.

(** A slot after [pthread_create] for thread [i]. *)
Lemma create_threads (e : run_env D) (x0 x1 x2 x3 x4 : membarrier_info_t D)
  (lg : list (event D)) :
  for_upto MAX_MEMBARRIER_THREADS (create_thread e)
    (mk_mstate [x0; x1; x2; x3; x4] lg)
  = Some (mk_mstate
            [mk_info 0 (create_ret e 0) (duration x0) (count x0);
             mk_info 1 (create_ret e 1) (duration x1) (count x1);
             mk_info 2 (create_ret e 2) (duration x2) (count x2);
             mk_info 3 (create_ret e 3) (duration x3) (count x3);
             x4]
            (lg ++ map PthreadCreate (seq 0 4))).
Proof.
  cbn. rewrite <- !app_assoc. reflexivity.
Qed.

(** Quiet events report no rate and create no thread. *)
Lemma quiet_no_reports (l : list (event D)) :
  forallb quiet l = true -> reported_rates l = [] /\ created_threads l = [].
Proof.
  induction l as [|ev l IH]; intros Hl; [split; reflexivity|].
  cbn [forallb] in Hl. apply andb_prop in Hl as [Hev Hl].
  destruct (IH Hl) as [IH1 IH2].
  destruct ev; try discriminate; split; assumption.
Qed.

Lemma coordinator_cycle_spec (flag_cpu : bool) (c : cycle_env D)
  (x0 x1 x2 x3 x4 : membarrier_info_t D) (lg : list (event D)) :
  exists tr,
    coordinator_cycle flag_cpu c (mk_mstate [x0; x1; x2; x3; x4] lg)
    = Some (mk_mstate [x0; x1; x2; x3; cycle_info flag_cpu c x4] (lg ++ tr)) /\
    forallb quiet tr = true.
Proof.
  unfold coordinator_cycle. cbn [slots log].
  change ([x0; x1; x2; x3; x4] !! MAX_MEMBARRIER_THREADS) with (Some x4).
  cbn [mbind option_bind].
  destruct (exercise_total flag_cpu c (mk_estate x4 lg)) as (r & tr & E & Hq & _).
  cbn [info trace] in E. rewrite E. clear E. cbn [mbind option_bind info trace].
  generalize (cycle_info flag_cpu c x4). intros x4'.
  exists (tr ++ (if r <? 0 then [PrFail] else []) ++ [IncCounter]).
  split.
  { change (<[MAX_MEMBARRIER_THREADS:=x4']> [x0; x1; x2; x3; x4])
      with [x0; x1; x2; x3; x4'].
    destruct (r <? 0); rewrite <- ?app_assoc; reflexivity. }
  rewrite !forallb_app, Hq. destruct (r <? 0); reflexivity.
Qed.

Lemma coordinator_cycles_spec (flag_cpu : bool) (cs : list (cycle_env D)) :
  forall (x0 x1 x2 x3 x4 : membarrier_info_t D) (lg : list (event D)),
  exists tr,
    coordinator_cycles flag_cpu cs (mk_mstate [x0; x1; x2; x3; x4] lg)
    = Some (mk_mstate [x0; x1; x2; x3; cycles_info flag_cpu cs x4] (lg ++ tr)) /\
    forallb quiet tr = true.
Proof.
  induction cs as [|c cs IH]; intros x0 x1 x2 x3 x4 lg.
  - exists []. rewrite app_nil_r. split; reflexivity.
  - destruct (coordinator_cycle_spec flag_cpu c x0 x1 x2 x3 x4 lg) as (tr1 & E1 & Hq1).
    destruct (IH x0 x1 x2 x3 (cycle_info flag_cpu c x4) (lg ++ tr1)) as (tr2 & E2 & Hq2).
    exists (tr1 ++ tr2). cbn [coordinator_cycles]. rewrite E1. cbn [mbind option_bind].
    rewrite E2. split; [rewrite <- app_assoc; reflexivity|].
    rewrite forallb_app, Hq1, Hq2. reflexivity.
Qed.

Lemma pool_writes (e : run_env D) (x0 x1 x2 x3 x4 : membarrier_info_t D)
  (lg : list (event D)) :
  for_upto MAX_MEMBARRIER_THREADS (pool_write e)
    (mk_mstate [x0; x1; x2; x3; x4] lg)
  = Some (mk_mstate
            [mk_info (pthread x0) (pthread_ret x0) (fst (observed e 0)) (snd (observed e 0));
             mk_info (pthread x1) (pthread_ret x1) (fst (observed e 1)) (snd (observed e 1));
             mk_info (pthread x2) (pthread_ret x2) (fst (observed e 2)) (snd (observed e 2));
             mk_info (pthread x3) (pthread_ret x3) (fst (observed e 3)) (snd (observed e 3));
             x4]
            lg).
Proof. reflexivity. Qed.

Lemma sum_slots_spec (y0 y1 y2 y3 y4 : membarrier_info_t D) :
  sum_slots (S MAX_MEMBARRIER_THREADS) [y0; y1; y2; y3; y4] (d_zero, d_zero)
  = Some (d_sum (map duration [y0; y1; y2; y3; y4]),
          d_sum (map count [y0; y1; y2; y3; y4])).
Proof. reflexivity. Qed.

Lemma join_threads (y0 y1 y2 y3 y4 : membarrier_info_t D) (lg : list (event D)) :
  for_upto MAX_MEMBARRIER_THREADS join_thread (mk_mstate [y0; y1; y2; y3; y4] lg)
  = Some (mk_mstate [y0; y1; y2; y3; y4]
            (lg ++ map PthreadJoin
                     (List.filter
                        (fun i => default 1 (pthread_ret <$> [y0; y1; y2; y3] !! i) =? 0)
                        (seq 0 4)))).
Proof.
  cbn -[Z.eqb].
  repeat (match goal with
          | |- context [pthread_ret ?y =? 0] => destruct (pthread_ret y =? 0)
          end; cbn -[Z.eqb]);
    rewrite <- ?app_assoc, ?app_nil_r; reflexivity.
Qed.

Lemma rate_of_slots (o : nat -> D * D) (c : membarrier_info_t D)
  (p0 p1 p2 p3 r0 r1 r2 r3 : Z) :
  let ys := [mk_info p0 r0 (fst (o 0%nat)) (snd (o 0%nat));
             mk_info p1 r1 (fst (o 1%nat)) (snd (o 1%nat));
             mk_info p2 r2 (fst (o 2%nat)) (snd (o 2%nat));
             mk_info p3 r3 (fst (o 3%nat)) (snd (o 3%nat)); c] in
  (if d_gt (d_sum (map duration ys)) d_zero
   then d_div (d_sum (map count ys)) (d_sum (map duration ys))
   else d_zero)
  = aggregate_rate (map o (seq 0 4) ++ [(duration c, count c)]).
Proof. reflexivity. Qed.

(** A run past the capability gate: the threads are created, the
    coordinator cycles, one rate is reported, the threads that were created
    are joined and the stressor succeeds. *)
Lemma stress_membarrier_run (flag_cpu : bool) (e : run_env D) :
  0 <= q_ret e -> Z.land (q_ret e) MEMBARRIER_CMD_SHARED <> 0 ->
  exists mid,
    stress_membarrier flag_cpu e =
      Some (EXIT_SUCCESS,
            (Membarrier MEMBARRIER_CMD_QUERY 0 0 :: map PthreadCreate (seq 0 4)) ++
            mid ++
            MetricsSet 0 "membarrier calls per sec"
                       (aggregate_rate (summed_slots flag_cpu e)) ::
            map PthreadJoin
                (List.filter (fun i => create_ret e i =? 0) (seq 0 4))) /\
    forallb quiet mid = true.
Proof.
  intros Hret Hbit. unfold stress_membarrier.
  apply Z.ltb_ge in Hret. apply Z.eqb_neq in Hbit. rewrite Hret, Hbit.
  rewrite init_slots. change (replicate 5 fresh_slot)
    with [@fresh_slot D _; fresh_slot; fresh_slot; fresh_slot; fresh_slot].
  cbn [mbind option_bind]. rewrite create_threads. cbn [mbind option_bind].
  destruct (coordinator_cycles_spec flag_cpu (first_cycle e :: more_cycles e)
              (mk_info 0 (create_ret e 0) (duration fresh_slot) (count fresh_slot))
              (mk_info 1 (create_ret e 1) (duration fresh_slot) (count fresh_slot))
              (mk_info 2 (create_ret e 2) (duration fresh_slot) (count fresh_slot))
              (mk_info 3 (create_ret e 3) (duration fresh_slot) (count fresh_slot))
              fresh_slot
              ([Membarrier MEMBARRIER_CMD_QUERY 0 0] ++ map PthreadCreate (seq 0 4)))
    as (mid & E & Hq).
  rewrite E. clear E. cbn [mbind option_bind].
  rewrite pool_writes. cbn [mbind option_bind slots log].
  rewrite sum_slots_spec. cbn [mbind option_bind slots log].
  rewrite join_threads. cbn [mbind option_bind slots log].
  exists mid. split; [|exact Hq].
  unfold summed_slots. cbv zeta.
  change (seq 0 MAX_MEMBARRIER_THREADS) with (seq 0 4).
  rewrite <- (rate_of_slots (observed e)
                (cycles_info flag_cpu (first_cycle e :: more_cycles e) fresh_slot)
                0 1 2 3 (create_ret e 0) (create_ret e 1) (create_ret e 2) (create_ret e 3)).
  cbv zeta. cbn [pthread pthread_ret].
  rewrite <- !app_assoc. reflexivity.
Qed.

Lemma no_reports_in_joins (l : list nat) :
  reported_rates (map (@PthreadJoin D) l) = [] /\
  created_threads (map (@PthreadJoin D) l) = [].
Proof.
  induction l as [|i l [IH1 IH2]]; split; try reflexivity; assumption.
Qed.

(** What a run past the gate reports and which threads it creates. *)
Lemma stress_membarrier_run_events (flag_cpu : bool) (e : run_env D) :
  0 <= q_ret e -> Z.land (q_ret e) MEMBARRIER_CMD_SHARED <> 0 ->
  exists lg,
    stress_membarrier flag_cpu e = Some (EXIT_SUCCESS, lg) /\
    reported_rates lg = [aggregate_rate (summed_slots flag_cpu e)] /\
    created_threads lg = seq 0 4.
Proof.
  intros Hret Hbit.
  destruct (stress_membarrier_run flag_cpu e Hret Hbit) as (mid & E & Hq).
  eexists. split; [exact E|].
  destruct (quiet_no_reports mid Hq) as [Hr Hc].
  generalize (aggregate_rate (summed_slots flag_cpu e)). intros rate.
  generalize (List.filter (fun i => create_ret e i =? 0) (seq 0 4)). intros js.
  destruct (no_reports_in_joins js) as [Hjr Hjc].
  unfold reported_rates, created_threads in *.
  rewrite !omap_app, Hr, Hc. cbn. rewrite Hjr, Hjc.
  split; reflexivity.
Qed.

(** C7: past the capability gate the stressor succeeds and reports one
    rate, computed from the slots of the pool threads and of the
    coordinator as they are when the sums are taken: the sum of the counts
    divided by the sum of the durations when that sum is positive, and zero
    otherwise, in particular when it is zero. *)
Theorem C7_rate_is_calls_over_duration (flag_cpu : bool) (e : run_env D)
  (Hret : 0 <= q_ret e)
  (Hbit : Z.land (q_ret e) MEMBARRIER_CMD_SHARED <> 0) :
  exists lg rate,
    stress_membarrier flag_cpu e = Some (EXIT_SUCCESS, lg) /\
    reported_rates lg = [rate] /\
    rate = aggregate_rate (summed_slots flag_cpu e) /\
    (d_gt (d_sum (map fst (summed_slots flag_cpu e))) d_zero = true ->
     rate = d_div (d_sum (map snd (summed_slots flag_cpu e)))
                  (d_sum (map fst (summed_slots flag_cpu e)))) /\
    (d_gt (d_sum (map fst (summed_slots flag_cpu e))) d_zero = false ->
     rate = d_zero) /\
    (d_sum (map fst (summed_slots flag_cpu e)) = d_zero -> rate = d_zero).
Proof.
  destruct (stress_membarrier_run_events flag_cpu e Hret Hbit) as (lg & E & Hr & _).
  exists lg, (aggregate_rate (summed_slots flag_cpu e)).
  split; [exact E|]. split; [exact Hr|]. split; [reflexivity|].
  generalize (summed_slots flag_cpu e). intros ms. unfold aggregate_rate.
  split; [intros ->; reflexivity|]. split; [intros ->; reflexivity|].
  intros ->. rewrite d_gt_irrefl. reflexivity.
Qed.

(** C8: [stress_membarrier] returns [EXIT_NOT_IMPLEMENTED] exactly when the
    first query fails with [ENOSYS] or succeeds with a mask without
    [MEMBARRIER_CMD_SHARED]; it returns [EXIT_FAILURE] exactly when the query
    fails with another error; in both cases no thread is created.  Otherwise
    the four threads are created and the stressor returns [EXIT_SUCCESS]. *)
Theorem C8_capability_gate (flag_cpu : bool) (e : run_env D) :
  exists st lg,
    stress_membarrier flag_cpu e = Some (st, lg) /\
    (st = EXIT_NOT_IMPLEMENTED <->
     (q_ret e < 0 /\ q_errno e = ENOSYS) \/
     (0 <= q_ret e /\ Z.land (q_ret e) MEMBARRIER_CMD_SHARED = 0)) /\
    (st = EXIT_FAILURE <-> q_ret e < 0 /\ q_errno e <> ENOSYS) /\
    (st = EXIT_SUCCESS <->
     0 <= q_ret e /\ Z.land (q_ret e) MEMBARRIER_CMD_SHARED <> 0) /\
    (st = EXIT_SUCCESS -> created_threads lg = seq 0 4) /\
    (st <> EXIT_SUCCESS -> created_threads lg = []).
Proof.
  destruct (Z.lt_ge_cases (q_ret e) 0) as [Hret|Hret].
  - unfold stress_membarrier.
    pose proof Hret as Hret'. apply Z.ltb_lt in Hret'. rewrite Hret'.
    destruct (Z.eqb_spec (q_errno e) ENOSYS) as [Herr|Herr].
    + eexists _, _. split; [reflexivity|].
      split; [split; [intros _; left; auto | reflexivity]|].
      split; [split; [discriminate | intros [_ Hne]; contradiction]|].
      split; [split; [discriminate | intros [Hge _]; lia]|].
      split; [discriminate|]. intros _. destruct (instance e =? 0); reflexivity.
    + eexists _, _. split; [reflexivity|].
      split; [split; [discriminate | intros [[_ Heq] | [Hge _]]; [contradiction | lia]]|].
      split; [split; [intros _; auto | reflexivity]|].
      split; [split; [discriminate | intros [Hge _]; lia]|].
      split; [discriminate|]. intros _. reflexivity.
  - destruct (Z.eq_dec (Z.land (q_ret e) MEMBARRIER_CMD_SHARED) 0) as [Hbit|Hbit].
    + unfold stress_membarrier.
      pose proof Hret as Hret'. apply Z.ltb_ge in Hret'. rewrite Hret'.
      pose proof Hbit as Hbit'. apply Z.eqb_eq in Hbit'. rewrite Hbit'.
      eexists _, _. split; [reflexivity|].
      split; [split; [intros _; right; auto | reflexivity]|].
      split; [split; [discriminate | intros [Hlt _]; lia]|].
      split; [split; [discriminate | intros [_ Hne]; contradiction]|].
      split; [discriminate|]. intros _. reflexivity.
    + destruct (stress_membarrier_run_events flag_cpu e Hret Hbit) as (lg & E & _ & Hc).
      exists EXIT_SUCCESS, lg. split; [exact E|].
      split; [split; [discriminate | intros [[Hlt _] | [_ Heq]]; [lia | contradiction]]|].
      split; [split; [discriminate | intros [Hlt _]; lia]|].
      split; [split; [auto | reflexivity]|].
      split; [intros _; exact Hc | intros Hne; contradiction].
Qed.

End Stressor.

(** ** The exact instance *)

(** Over the rationals [n] increments add [n]. *)
Lemma incr_times_Q (n : nat) (c : Q) :
  (incr_times n c == c + inject_Z (Z.of_nat n))%Q.
Proof.
  induction n as [|n IH].
  - simpl. unfold inject_Z. ring.
  - change (incr_times (S n) c) with (incr_times n c + 1)%Q.
    rewrite IH, Nat2Z.inj_succ. unfold Z.succ. rewrite inject_Z_plus. ring.
Qed.

(** C5: in the program the test of line 93 fails ([flag_cpu_defined]), and
    the call with the per-CPU flag is never made, although the flag
    exists: a cycle whose query gives the mask 6 makes one counted call for
    each of the two set bits, none of them with [MEMBARRIER_CMD_FLAG_CPU],
    and the counter of the thread goes from 0 to 2, not to twice the number
    of set bits. *)
Theorem C5_flag_cpu_call_never_made :
  exists s',
    stress_membarrier_exercise flag_cpu_defined (mk_cycle 6 (1 # 2) (3 # 4))
      (mk_estate (mk_info 0 0 0%Q 0%Q) []) = Some (0, s') /\
    trace s' =
      [Membarrier 0 0 0;
       Membarrier 2 0 0; Membarrier 4 0 0;
       Membarrier 2 (-1) 0; Membarrier 2 0 INT_MAX;
       Membarrier 4 (-1) 0; Membarrier 4 0 INT_MAX;
       Membarrier 1 0 0] /\
    popcount 6 = 2%nat /\
    (count (info s') == 2)%Q /\
    ~ (count (info s') == inject_Z (2 * Z.of_nat (popcount 6)))%Q.
Proof.
  destruct (counted_calls_per_set_bit flag_cpu_defined (mk_cycle 6 (1 # 2) (3 # 4))
              (mk_estate (mk_info 0 0 0%Q 0%Q) []))
    as (s' & E & Htr & Hc & _); [simpl; lia|].
  exists s'. split; [exact E|].
  split; [rewrite Htr; vm_compute; reflexivity|].
  split; [vm_compute; reflexivity|].
  rewrite Hc. split; vm_compute; [reflexivity | discriminate].
Qed.

Lemma C6_single_illegal_command_probe_witness :
  exists before s',
    stress_membarrier_exercise flag_cpu_defined (mk_cycle 6 (1 # 2) (3 # 4))
      (mk_estate (mk_info 0 0 0%Q 0%Q) []) = Some (0, s') /\
    trace s' = before ++ [Membarrier 1 0 0] /\
    count (info s') = 2%Q /\ (duration (info s') == 1 # 4)%Q.
Proof.
  destruct (C6_single_illegal_command_probe flag_cpu_defined (mk_cycle 6 (1 # 2) (3 # 4))
              (mk_estate (mk_info 0 0 0%Q 0%Q) []))
    as (before & s' & E & Htr & _ & _ & _ & _ & _ & _ & Hc & Hd); [simpl; lia|].
  exists before, s'. split; [exact E|].
  split; [rewrite Htr; vm_compute; reflexivity|].
  split; [rewrite Hc | rewrite Hd]; vm_compute; reflexivity.
Defined.

Lemma C7_rate_is_calls_over_duration_witness :
  exists lg rate,
    stress_membarrier flag_cpu_defined
      (mk_run 0 1 0 (fun _ => 0) (mk_cycle 6 (1 # 2) (3 # 4)) [mk_cycle (-1) 0%Q 0%Q]
              (fun _ => (1 # 3, 5)%Q))
      = Some (EXIT_SUCCESS, lg) /\
    reported_rates lg = [rate] /\ (rate == 264 # 19)%Q.
Proof.
  destruct (C7_rate_is_calls_over_duration flag_cpu_defined
              (mk_run 0 1 0 (fun _ => 0) (mk_cycle 6 (1 # 2) (3 # 4))
                      [mk_cycle (-1) 0%Q 0%Q] (fun _ => (1 # 3, 5)%Q)))
    as (lg & rate & E & Hr & Hrate & _); [simpl; lia | discriminate |].
  exists lg, rate. split; [exact E|]. split; [exact Hr|].
  rewrite Hrate. vm_compute. reflexivity.
Defined.

(** No cycle of any thread ever found a legal command: the durations sum to
    zero, the rate is zero and the stressor succeeds all the same. *)
Example zero_duration_run :
  exists lg,
    stress_membarrier flag_cpu_defined
      (mk_run 0 1 0 (fun _ => 0) (mk_cycle (-1) 0%Q 0%Q) [mk_cycle 0 (1 # 2) (1 # 2)]
              (fun _ => (0, 0)%Q))
      = Some (EXIT_SUCCESS, lg) /\
    exists rate, reported_rates lg = [rate] /\ (rate == 0)%Q.
Proof.
  eexists. split; [vm_compute; reflexivity|].
  eexists. split; [vm_compute; reflexivity | reflexivity].
Qed.

End MembarrierFacts.

(* ===================================================================== *)
(** * Part V: more about the lock stressor *)
(* ===================================================================== *)

Module LockofdMore.

Import Lockofd LockofdFacts.

(** ** Traces *)

Lemma admitted_app (tr tr' : list event) :
  hd_error tr' <> Some IncCounter ->
  admitted (tr ++ tr') = admitted tr ++ admitted tr'.
Proof.
  intros Hhd. induction tr as [|ev tr IH]; [reflexivity|].
  cbn [app admitted]. rewrite IH.
  destruct tr as [|ev' tr].
  - cbn [app admitted].
    destruct tr' as [|ev' tr']; [destruct ev as [[] ?| |]; reflexivity|].
    destruct ev' as [c f|w|]; [| |exfalso; apply Hhd; reflexivity];
      destruct ev as [[] ?| |]; reflexivity.
  - cbn [app]. destruct ev as [[] ?| |], ev' as [? ?| |]; reflexivity.
Qed.

Lemma unlocked_app (tr tr' : list event) :
  unlocked (tr ++ tr') = unlocked tr ++ unlocked tr'.
Proof. apply omap_app. Qed.

Lemma counted_app (tr tr' : list event) :
  counted (tr ++ tr') = (counted tr + counted tr')%nat.
Proof. unfold counted. rewrite List.filter_app, length_app. reflexivity. Qed.

Lemma failures_app (tr tr' : list event) :
  failures (tr ++ tr') = failures tr ++ failures tr'.
Proof. apply omap_app. Qed.

Lemma in_file_lock_request (e : iter_env) : in_file (lock_request e) = true.
Proof.
  destruct (lock_request_bounds (v16 e) (v64 e)) as (Hl & Ho & Hs).
  unfold in_file, lock_request. cbn [fst snd].
  apply andb_true_intro. split; [apply andb_true_intro; split|].
  - apply Z.leb_le. lia.
  - apply Z.leb_le. lia.
  - apply Z.ltb_lt. lia.
Qed.

Lemma fcntl_ok_getlk (r : Z * Z) : fcntl_ok (getlk_event r) = in_file r.
Proof. destruct r. reflexivity. Qed.

Lemma fcntl_ok_unlock (r : Z * Z) : fcntl_ok (unlock_event r) = in_file r.
Proof. destruct r. reflexivity. Qed.

(** ** The two steps of a pass, with the heap *)

Lemma records_with_trace st tr : records (with_trace st tr) = records st.
Proof. reflexivity. Qed.

Lemma evict_detail e st act fre :
  wf st act fre -> length_ok st act -> Z.of_nat (length act) <= LOCK_MAX ->
  (li_length (lockofd_infos st) < LOCK_MAX /\
   evict_if_full e st = Some (None, st))
  \/
  (exists a act' st_rm,
     act = a :: act' /\ li_length (lockofd_infos st) = LOCK_MAX /\
     stress_lockofd_info_head_remove st = Some (tt, st_rm) /\
     wf st_rm act' (a :: fre) /\
     length (heap st_rm) = length (heap st) /\
     records st = record_at (heap st) a :: records st_rm /\
     li_length (lockofd_infos st_rm) = LOCK_MAX - 1 /\
     evict_if_full e st =
       Some (if unlock_rc e <? 0 then Some (-1) else None,
             with_trace st_rm
               (trace st ++ unlock_event (record_at (heap st) a) ::
                  (if unlock_rc e <? 0 then [PrFailErr "F_SETLK"] else [])))).
Proof.
  intros Hwf Hlen Hmax. unfold length_ok in Hlen.
  unfold evict_if_full, bind, get_infos.
  destruct (Z.leb_spec LOCK_MAX (li_length (lockofd_infos st))) as [Hfull|Hroom].
  - right. destruct act as [|a act'].
    { simpl in Hlen. unfold LOCK_MAX in *. lia. }
    destruct (unlock_cons (unlock_rc e) _ _ _ _ Hwf) as (st_rm & Erm & Eun).
    destruct (pop_cons _ _ _ _ Hwf) as (st1 & Epop & Hwf1 & Hrec & _ & Hheap & _ & Hln).
    assert (st1 = st_rm) as ->.
    { destruct (wf_head _ _ _ Hwf) as (Hhd & n & Hn & _).
      unfold pop, bind, get_infos, load, ret in Epop.
      rewrite Hhd, Hn, Erm in Epop. congruence. }
    exists a, act', st_rm. simpl length in *.
    split; [reflexivity|]. split; [lia|]. split; [exact Erm|].
    split; [exact Hwf1|]. split; [exact Hheap|]. split; [exact Hrec|].
    split.
    { rewrite Hln, Hlen. unfold uint64_wrap, LOCK_MAX in *. rewrite Z.mod_small; lia. }
    rewrite Eun. destruct (unlock_rc e <? 0); reflexivity.
  - left. split; [exact Hroom | reflexivity].
Qed.

Lemma lock_detail e st act fre :
  wf st act fre ->
  (getlk_rc e < 0 /\
   lock_and_record e st =
     Some (None, with_trace st (trace st ++ [getlk_event (lock_request e)])))
  \/
  (0 <= getlk_rc e /\ fre = [] /\ calloc_ok e = false /\
   lock_and_record e st =
     Some (Some (-1),
           with_trace st (trace st ++ [getlk_event (lock_request e);
                                       PrFailErr "calloc"])))
  \/
  (0 <= getlk_rc e /\ (fre <> [] \/ calloc_ok e = true) /\
   exists a st',
     lock_and_record e st = Some (None, st') /\
     wf st' (act ++ [a]) (tail fre) /\
     records st' = records st ++ [lock_request e] /\
     length (heap st') =
       (if decide (fre = []) then S (length (heap st)) else length (heap st)) /\
     trace st' = trace st ++ [getlk_event (lock_request e); IncCounter] /\
     li_length (lockofd_infos st') =
       uint64_wrap (li_length (lockofd_infos st) + 1)).
Proof.
  intros Hwf.
  set (st1 := with_trace st (trace st ++ [getlk_event (lock_request e)])).
  assert (Eq : lock_and_record e st =
    (if getlk_rc e <? 0 then ret None
     else
       let* p := push (calloc_ok e) (lock_request e) in
       match p with
       | None => let* _ := emit (PrFailErr "calloc") in ret (Some (-1))
       | Some _ => let* _ := emit IncCounter in ret None
       end) st1).
  { rewrite lock_and_record_push. reflexivity. }
  rewrite Eq. clear Eq.
  assert (Hwf1 : wf st1 act fre) by (apply wf_with_trace; assumption).
  destruct (Z.ltb_spec (getlk_rc e) 0) as [Hrc|Hrc].
  { left. split; [exact Hrc | reflexivity]. }
  right.
  assert (Hpush : fre <> [] \/ calloc_ok e = true ->
    exists a st',
      push (calloc_ok e) (lock_request e) st1 = Some (Some a, st') /\
      wf st' (act ++ [a]) (tail fre) /\
      records st' = records st ++ [lock_request e] /\
      length (heap st') =
        (if decide (fre = []) then S (length (heap st)) else length (heap st)) /\
      trace st' = trace st ++ [getlk_event (lock_request e)] /\
      li_length (lockofd_infos st') =
        uint64_wrap (li_length (lockofd_infos st) + 1)).
  { intros Hnode.
    destruct (push_ok _ _ _ (calloc_ok e) (lock_request e) Hwf1 Hnode)
      as (a & st2 & E & Hwf2 & Hrec & _ & Hheap & Htr & Hln).
    exists a, st2. auto 10. }
  destruct (decide (fre = [])) as [Hfre|Hfre]; [destruct (calloc_ok e) eqn:Hok|].
  - right. split; [exact Hrc|]. split; [right; reflexivity|].
    destruct (Hpush (or_intror eq_refl)) as (a & st2 & E & Hwf2 & Hrec & Hheap & Htr & Hln).
    exists a. eexists. unfold bind, emit, ret. rewrite E.
    split; [reflexivity|]. cbn [heap lockofd_infos trace].
    split; [split; apply Hwf2|]. split; [exact Hrec|]. split; [exact Hheap|].
    split; [rewrite Htr, <- app_assoc; reflexivity | exact Hln].
  - left. split; [exact Hrc|]. split; [exact Hfre|]. split; [reflexivity|].
    unfold bind, emit, ret. subst fre.
    rewrite push_fail by (apply (wf_free _ _ _ Hwf1)).
    unfold st1, with_trace. cbn [heap lockofd_infos trace].
    rewrite <- app_assoc. reflexivity.
  - right. split; [exact Hrc|]. split; [left; exact Hfre|].
    destruct (Hpush (or_introl Hfre)) as (a & st2 & E & Hwf2 & Hrec & Hheap & Htr & Hln).
    exists a. eexists. unfold bind, emit, ret. rewrite E.
    split; [reflexivity|]. cbn [heap lockofd_infos trace].
    split; [split; apply Hwf2|]. split; [exact Hrec|]. split; [exact Hheap|].
    split; [rewrite Htr, <- app_assoc; reflexivity | exact Hln].
Qed.

(** ** The full invariant *)

Lemma loop_inv_init : loop_inv init.
Proof.
  exists [], []. split; [apply wf_init|].
  unfold length_ok, LOCK_MAX. cbn. repeat split; try reflexivity; lia.
Qed.

Lemma loop_inv_inv st : loop_inv st -> inv st.
Proof.
  intros (act & fre & Hwf & Hlen & Hmax & _). exists act, fre. auto.
Qed.

Lemma admitted_unlock_chunk (r : Z * Z) (l : list event) :
  admitted (unlock_event r :: l) = admitted l.
Proof. destruct l as [|[| |] l]; reflexivity. Qed.

Lemma evict_loop_inv e st :
  loop_inv st ->
  exists r1 st1,
    evict_if_full e st = Some (r1, st1) /\ loop_inv st1 /\
    (r1 = None ->
     li_length (lockofd_infos st1) < LOCK_MAX /\
     failures (trace st1) = failures (trace st)) /\
    (forall rc, r1 = Some rc ->
     rc = -1 /\ failures (trace st1) = failures (trace st) ++ ["F_SETLK"%string]).
Proof.
  intros (act & fre & Hwf & Hlen & Hmax & Hheap & Hbound & Hin & Hok & Hcons & Hcnt).
  destruct (evict_detail e _ _ _ Hwf Hlen Hmax)
    as [[Hroom E] | (a & act' & st_rm & -> & Hfull & Erm & Hwf1 & Hh1 & Hrec & Hl1 & E)].
  - exists None, st. split; [exact E|]. split.
    { exists act, fre. auto 10. }
    split; [auto | discriminate].
  - set (r := record_at (heap st) a) in *.
    set (chunk := unlock_event r ::
                    (if unlock_rc e <? 0 then [PrFailErr "F_SETLK"] else [])) in *.
    eexists _, _. split; [exact E|].
    rewrite Hrec in Hin, Hcons. cbn [forallb] in Hin.
    apply andb_prop in Hin as [Hr Hin].
    assert (Hadm : admitted chunk = []).
    { unfold chunk. rewrite admitted_unlock_chunk.
      destruct (unlock_rc e <? 0); reflexivity. }
    assert (Hunl : unlocked chunk = [r]).
    { unfold chunk. destruct r. destruct (unlock_rc e <? 0); reflexivity. }
    assert (Hcn : counted chunk = 0%nat).
    { unfold chunk. destruct (unlock_rc e <? 0); reflexivity. }
    assert (Hfok : forallb fcntl_ok chunk = true).
    { unfold chunk. cbn [forallb]. rewrite fcntl_ok_unlock, Hr.
      destruct (unlock_rc e <? 0); reflexivity. }
    split.
    { exists act', (a :: fre). simpl length in *.
      split; [apply wf_with_trace, Hwf1|].
      split; [unfold length_ok in *; cbn [with_trace lockofd_infos]; simpl length in *; lia|].
      split; [lia|].
      cbn [with_trace heap trace]. rewrite records_with_trace.
      split; [lia|]. split; [lia|]. split; [exact Hin|].
      split; [rewrite forallb_app, Hok, Hfok; reflexivity|].
      split.
      - rewrite unlocked_app, Hunl, admitted_app, Hadm, app_nil_r, <- Hcons, <- app_assoc
          by (unfold chunk; discriminate).
        reflexivity.
      - rewrite counted_app, Hcn, admitted_app, Hadm, app_nil_r, Nat.add_0_r
          by (unfold chunk; discriminate).
        exact Hcnt. }
    split.
    + intros Hnone. destruct (unlock_rc e <? 0) eqn:Hrc; [discriminate|].
      cbn [with_trace lockofd_infos trace]. split; [lia|].
      rewrite failures_app. unfold chunk. rewrite ?Hrc. cbn. apply app_nil_r.
    + intros rc Hsome. destruct (unlock_rc e <? 0) eqn:Hrc; [|discriminate].
      injection Hsome as <-. split; [reflexivity|].
      cbn [with_trace trace]. rewrite failures_app. unfold chunk. rewrite ?Hrc.
      reflexivity.
Qed.

Lemma lock_loop_inv e st :
  loop_inv st -> li_length (lockofd_infos st) < LOCK_MAX ->
  exists r st',
    lock_and_record e st = Some (r, st') /\ loop_inv st' /\
    (r = None -> failures (trace st') = failures (trace st)) /\
    (forall rc, r = Some rc ->
     rc = -1 /\ failures (trace st') = failures (trace st) ++ ["calloc"%string]).
Proof.
  intros (act & fre & Hwf & Hlen & Hmax & Hheap & Hbound & Hin & Hok & Hcons & Hcnt) Hroom.
  pose proof (in_file_lock_request e) as Hreq.
  assert (Hg : fcntl_ok (getlk_event (lock_request e)) = true)
    by (rewrite fcntl_ok_getlk; exact Hreq).
  destruct (lock_detail e _ _ _ Hwf)
    as [[Hrc E] | [(Hrc & -> & Hcal & E) | (Hrc & Hnode & a & st' & E & Hwf' & Hrec & Hh' & Htr & Hln)]].
  - eexists _, _. split; [exact E|]. split.
    { exists act, fre. split; [apply wf_with_trace, Hwf|].
      cbn [with_trace heap trace lockofd_infos]. rewrite records_with_trace.
      repeat (split; [assumption|]).
      split; [rewrite forallb_app, Hok; cbn [forallb]; rewrite Hg; reflexivity|].
      split.
      - rewrite unlocked_app, admitted_app by discriminate.
        destruct (lock_request e). cbn. rewrite !app_nil_r. exact Hcons.
      - rewrite counted_app, admitted_app by discriminate.
        destruct (lock_request e). cbn. rewrite app_nil_r, Nat.add_0_r. exact Hcnt. }
    split; [|discriminate]. intros _. cbn [with_trace trace].
    rewrite failures_app. destruct (lock_request e). cbn. apply app_nil_r.
  - eexists _, _. split; [exact E|]. split.
    { exists act, []. split; [apply wf_with_trace, Hwf|].
      cbn [with_trace heap trace lockofd_infos]. rewrite records_with_trace.
      repeat (split; [assumption|]).
      split; [rewrite forallb_app, Hok; cbn [forallb]; rewrite Hg; reflexivity|].
      split.
      - rewrite unlocked_app, admitted_app by discriminate.
        destruct (lock_request e). cbn. rewrite !app_nil_r. exact Hcons.
      - rewrite counted_app, admitted_app by discriminate.
        destruct (lock_request e). cbn. rewrite app_nil_r, Nat.add_0_r. exact Hcnt. }
    split; [discriminate|]. intros rc [= <-]. split; [reflexivity|].
    cbn [with_trace trace]. rewrite failures_app. destruct (lock_request e). reflexivity.
  - exists None, st'. split; [exact E|]. split.
    { exists (act ++ [a]), (tail fre). split; [exact Hwf'|].
      unfold length_ok in *. rewrite length_app. simpl length.
      assert (Hln' : li_length (lockofd_infos st') = Z.of_nat (length act + 1)).
      { rewrite Hln, Hlen. unfold uint64_wrap, LOCK_MAX in *. rewrite Z.mod_small; lia. }
      split; [exact Hln'|]. split; [unfold LOCK_MAX in *; lia|].
      assert (Hheap' : length (heap st') = (length act + 1 + length (tail fre))%nat /\
                       Z.of_nat (length (heap st')) <= LOCK_MAX).
      { rewrite Hh'. destruct fre as [|f fre]; cbn [tail length] in *.
        - rewrite decide_True by reflexivity. unfold LOCK_MAX in *. lia.
        - rewrite decide_False by discriminate. lia. }
      split; [apply Hheap'|]. split; [apply Hheap'|].
      split; [rewrite Hrec, forallb_app, Hin; cbn [forallb]; rewrite Hreq; reflexivity|].
      rewrite Htr.
      split; [rewrite forallb_app, Hok; cbn [forallb]; rewrite Hg; reflexivity|].
      split.
      - rewrite unlocked_app, admitted_app, Hrec by discriminate.
        destruct (lock_request e). cbn. rewrite app_nil_r, app_assoc, Hcons. reflexivity.
      - rewrite counted_app, admitted_app by discriminate.
        destruct (lock_request e). cbn. rewrite length_app, Hcnt. reflexivity. }
    split; [|discriminate]. intros _. rewrite Htr, failures_app.
    destruct (lock_request e). cbn. apply app_nil_r.
Qed.

Lemma iteration_loop_inv e st :
  loop_inv st -> failures (trace st) = [] ->
  exists r st',
    iteration e st = Some (r, st') /\ loop_inv st' /\
    ((r = None /\ failures (trace st') = []) \/
     (r = Some (-1) /\
      (failures (trace st') = ["F_SETLK"%string] \/
       failures (trace st') = ["calloc"%string]))).
Proof.
  intros Hinv Hquiet.
  destruct (evict_loop_inv e _ Hinv) as (r1 & st1 & E1 & Hinv1 & Hnone & Hsome).
  unfold iteration, bind. rewrite E1. destruct r1 as [rc|].
  - destruct (Hsome rc eq_refl) as [-> Hf]. rewrite Hquiet in Hf.
    exists (Some (-1)), st1. split; [reflexivity|]. split; [exact Hinv1|].
    right. split; [reflexivity|]. left. exact Hf.
  - destruct (Hnone eq_refl) as [Hroom Hf]. rewrite Hquiet in Hf.
    destruct (lock_loop_inv e _ Hinv1 Hroom) as (r & st' & E & Hinv' & Hnone' & Hsome').
    exists r, st'. split; [exact E|]. split; [exact Hinv'|].
    destruct r as [rc|].
    + destruct (Hsome' rc eq_refl) as [-> Hf']. rewrite Hf in Hf'.
      right. split; [reflexivity|]. right. exact Hf'.
    + left. split; [reflexivity|]. rewrite (Hnone' eq_refl). exact Hf.
Qed.

(** The loop keeps the full invariant; it returns 0 with no failure
    reported, or -1 right after reporting one. *)
Lemma contention_loop_inv envs : forall st,
  loop_inv st -> failures (trace st) = [] ->
  exists r st',
    stress_lockofd_contention envs st = Some (r, st') /\ loop_inv st' /\
    ((r = None /\ failures (trace st') = [] /\
      Forall (fun e => keep e = true) envs) \/
     (r = Some 0 /\ failures (trace st') = [] /\
      Exists (fun e => keep e = false) envs) \/
     (r = Some (-1) /\
      (failures (trace st') = ["F_SETLK"%string] \/
       failures (trace st') = ["calloc"%string]))).
Proof.
  induction envs as [|e envs IH]; intros st Hinv Hquiet.
  - exists None, st. split; [reflexivity|]. split; [exact Hinv|]. left. auto.
  - destruct (iteration_loop_inv e _ Hinv Hquiet) as (r & st1 & E & Hinv1 & Hcase).
    cbn [stress_lockofd_contention]. unfold bind. rewrite E.
    destruct Hcase as [[-> Hq] | [-> Hf]].
    + destruct (keep e) eqn:Hk.
      * destruct (IH _ Hinv1 Hq) as (r & st' & E' & Hinv' & Hcase).
        exists r, st'. split; [exact E'|]. split; [exact Hinv'|].
        destruct Hcase as [(-> & Hq' & Hall) | [(-> & Hq' & Hex) | (-> & Hf)]].
        -- left. auto.
        -- right. left. auto.
        -- right. right. auto.
      * exists (Some 0), st1. split; [reflexivity|]. split; [exact Hinv1|].
        right. left. auto.
    + exists (Some (-1)), st1. split; [reflexivity|]. split; [exact Hinv1|].
      right. right. auto.
Qed.

(** ** Properties of every run of the loop *)

(** X1: however long the loop runs, it allocates at most [LOCK_MAX] nodes, and
    every node it has allocated is in the tracking list or in the free
    pool. *)
Theorem heap_bounded_and_accounted (envs : list iter_env) :
  exists r st,
    stress_lockofd_contention envs init = Some (r, st) /\
    Z.of_nat (length (heap st)) <= LOCK_MAX /\
    length (heap st) = (length (records st) + length (free_records st))%nat.
Proof.
  destruct (contention_loop_inv envs init loop_inv_init eq_refl)
    as (r & st & E & Hinv & _).
  exists r, st. split; [exact E|].
  destruct Hinv as (act & fre & Hwf & _ & _ & Hheap & Hbound & _).
  split; [exact Hbound|].
  rewrite (records_wf _ _ _ Hwf), (free_records_wf _ _ _ Hwf), !length_map.
  exact Hheap.
Qed.

(** X2: the ranges the loop has counted as locked are, in order, those it has
    unlocked since followed by those still in the list: ranges are unlocked
    in the order in which they were recorded, none is unlocked twice and none
    is forgotten; and [inc_counter] has been called once for each. *)
Theorem unlocks_follow_records (envs : list iter_env) :
  exists r st,
    stress_lockofd_contention envs init = Some (r, st) /\
    unlocked (trace st) ++ records st = admitted (trace st) /\
    counted (trace st) =
      (length (unlocked (trace st)) + length (records st))%nat.
Proof.
  destruct (contention_loop_inv envs init loop_inv_init eq_refl)
    as (r & st & E & Hinv & _).
  exists r, st. split; [exact E|].
  destruct Hinv as (act & fre & _ & _ & _ & _ & _ & _ & _ & Hcons & Hcnt).
  split; [exact Hcons|]. rewrite Hcnt, <- Hcons, length_app. reflexivity.
Qed.

(** X3: every [fcntl] call of the loop is a write-lock query or an unlock, with
    [SEEK_SET], on a range that starts at or after 0 and ends before
    the end of the file; so is every range in the list. *)
Theorem calls_stay_in_file (envs : list iter_env) :
  exists r st,
    stress_lockofd_contention envs init = Some (r, st) /\
    forallb fcntl_ok (trace st) = true /\
    forallb in_file (records st) = true.
Proof.
  destruct (contention_loop_inv envs init loop_inv_init eq_refl)
    as (r & st & E & Hinv & _).
  exists r, st. split; [exact E|].
  destruct Hinv as (act & fre & _ & _ & _ & _ & _ & Hin & Hok & _).
  auto.
Qed.

(** X4: the loop returns -1 exactly when it has reported a failure, which is
    then the only one and is the failed unlock of an eviction or the failed
    allocation of a record; it returns 0, and only when [keep_stressing]
    answered false, without any failure reported. *)
Theorem contention_result (envs : list iter_env) :
  exists r st,
    stress_lockofd_contention envs init = Some (r, st) /\
    (r = Some (-1) <-> failures (trace st) <> []) /\
    (r = Some (-1) ->
     failures (trace st) = ["F_SETLK"%string] \/
     failures (trace st) = ["calloc"%string]) /\
    (r = None \/ r = Some 0 \/ r = Some (-1)) /\
    (r = Some 0 -> Exists (fun e => keep e = false) envs) /\
    (r = None -> Forall (fun e => keep e = true) envs).
Proof.
  destruct (contention_loop_inv envs init loop_inv_init eq_refl)
    as (r & st & E & _ & Hcase).
  exists r, st. split; [exact E|].
  destruct Hcase as [(-> & Hq & Hall) | [(-> & Hq & Hex) | (-> & Hf)]].
  - rewrite Hq. repeat split; try discriminate; try congruence; auto.
  - rewrite Hq. repeat split; try discriminate; try congruence; auto.
  - repeat split; try discriminate; try congruence; auto.
    destruct Hf as [-> | ->]; discriminate.
Qed.

(** ** Runs without contention *)

Lemma iteration_success e st :
  loop_inv st -> succeeds e = true ->
  exists st',
    iteration e st = Some (None, st') /\ loop_inv st' /\
    failures (trace st') = failures (trace st) /\
    admitted (trace st') = admitted (trace st) ++ [lock_request e] /\
    length (records st') = Nat.min (S (length (records st))) (Z.to_nat LOCK_MAX).
Proof.
  intros Hinv Hs. unfold succeeds in Hs.
  apply andb_prop in Hs as [Hs Hkeep]. apply andb_prop in Hs as [Hs Hcal].
  apply andb_prop in Hs as [Hun Hget].
  apply Z.leb_le in Hun, Hget. pose proof Hun as Hunb. apply Z.ltb_ge in Hunb.
  destruct (inv_length _ (loop_inv_inv _ Hinv)) as [Hlen Hmax].
  destruct (evict_loop_inv e _ Hinv) as (r1 & st1 & E1 & Hinv1 & Hnone & _).
  assert (Hmid : r1 = None /\
                 admitted (trace st1) = admitted (trace st) /\
                 S (length (records st1)) =
                   Nat.min (S (length (records st))) (Z.to_nat LOCK_MAX)).
  { destruct Hinv as (act & fre & Hwf & Hlk & Hle & _).
    destruct (evict_detail e _ _ _ Hwf Hlk Hle)
      as [[Hroom E] | (a & act' & st_rm & -> & Hfull & _ & _ & _ & Hrec & _ & E)];
      rewrite E in E1; rewrite ?Hunb in E1; injection E1 as <- <-.
    - split; [reflexivity|]. split; [reflexivity|]. unfold LOCK_MAX in *. lia.
    - split; [reflexivity|]. cbn [with_trace trace]. rewrite records_with_trace.
      split.
      + rewrite admitted_app by discriminate. apply app_nil_r.
      + rewrite Hrec in Hlen. cbn [length] in Hlen. rewrite Hrec. cbn [length].
        unfold LOCK_MAX in *. lia. }
  destruct Hmid as (-> & Hadm1 & Hlen1).
  destruct (Hnone eq_refl) as [Hroom1 Hf1].
  destruct (lock_loop_inv e _ Hinv1 Hroom1) as (r & st' & E & Hinv' & Hnone' & _).
  assert (Hend : r = None /\
                 admitted (trace st') = admitted (trace st1) ++ [lock_request e] /\
                 length (records st') = S (length (records st1))).
  { destruct Hinv1 as (act & fre & Hwf & _).
    destruct (lock_detail e _ _ _ Hwf)
      as [[Hrc _] | [(_ & _ & Hc & _) | (_ & _ & a & st2 & E2 & _ & Hrec & _ & Htr & _)]];
      [lia | congruence |].
    rewrite E2 in E. injection E as <- <-.
    split; [reflexivity|]. split.
    - rewrite Htr, admitted_app by discriminate.
      destruct (lock_request e). reflexivity.
    - rewrite Hrec, length_app. cbn [length]. lia. }
  destruct Hend as (-> & Hadm & Hlen').
  exists st'. unfold iteration, bind. rewrite E1, E.
  split; [reflexivity|]. split; [exact Hinv'|].
  split; [rewrite (Hnone' eq_refl); exact Hf1|].
  split; [rewrite Hadm, Hadm1; reflexivity|]. lia.
Qed.

Lemma contention_success envs :
  Forall (fun e => succeeds e = true) envs ->
  exists st,
    stress_lockofd_contention envs init = Some (None, st) /\ loop_inv st /\
    failures (trace st) = [] /\
    admitted (trace st) = map lock_request envs /\
    length (records st) = Nat.min (length envs) (Z.to_nat LOCK_MAX).
Proof.
  induction envs as [|e envs IH] using rev_ind; intros Hall.
  - exists init. split; [reflexivity|]. split; [apply loop_inv_init|].
    repeat split; reflexivity.
  - apply Forall_app in Hall as [Hall He]. apply Forall_inv in He.
    destruct (IH Hall) as (st & E & Hinv & Hf & Hadm & Hlen).
    destruct (iteration_success e _ Hinv He) as (st' & E' & Hinv' & Hf' & Hadm' & Hlen').
    exists st'. split.
    { rewrite (contention_app _ [e] _ _ E). cbn [stress_lockofd_contention].
      unfold bind. rewrite E'.
      unfold succeeds in He. apply andb_prop in He as [_ ->]. reflexivity. }
    split; [exact Hinv'|]. split; [congruence|].
    split; [rewrite Hadm', Hadm, map_app; reflexivity|].
    rewrite Hlen', Hlen, length_app. cbn [length]. unfold LOCK_MAX. lia.
Qed.

Lemma app_length_drop {A} (l1 l2 l : list A) :
  l1 ++ l2 = l ->
  l1 = take (length l - length l2) l /\ l2 = drop (length l - length l2) l.
Proof.
  intros <-. rewrite length_app.
  replace (length l1 + length l2 - length l2)%nat with (length l1) by lia.
  rewrite take_app_length, drop_app_length. auto.
Qed.

(** X5: when no call fails and the loop goes on, the tracking list holds the
    ranges of the last [LOCK_MAX] passes, oldest first, and the ranges of
    all passes before have been unlocked, in order. *)
Theorem list_is_window_of_last_requests (envs : list iter_env)
  (Hall : Forall (fun e => succeeds e = true) envs) :
  exists st,
    stress_lockofd_contention envs init = Some (None, st) /\
    records st =
      drop (length envs - Z.to_nat LOCK_MAX) (map lock_request envs) /\
    unlocked (trace st) =
      take (length envs - Z.to_nat LOCK_MAX) (map lock_request envs).
Proof.
  destruct (contention_success envs Hall) as (st & E & Hinv & _ & Hadm & Hlen).
  exists st. split; [exact E|].
  destruct Hinv as (act & fre & _ & _ & _ & _ & _ & _ & _ & Hcons & _).
  rewrite Hadm in Hcons. apply app_length_drop in Hcons as [Hu Hr].
  rewrite length_map, Hlen in Hu, Hr.
  replace (length envs - Nat.min (length envs) (Z.to_nat LOCK_MAX))%nat
    with (length envs - Z.to_nat LOCK_MAX)%nat in Hu, Hr by lia.
  auto.
Qed.

Lemma list_is_window_of_last_requests_witness :
  exists st,
    stress_lockofd_contention
      [mk_env 0 7 0 0 true true; mk_env 0 7 8 0 true true] init
      = Some (None, st) /\
    records st = [(0, 8); (8, 8)] /\ unlocked (trace st) = [].
Proof.
  apply (list_is_window_of_last_requests
           [mk_env 0 7 0 0 true true; mk_env 0 7 8 0 true true]).
  repeat constructor.
Defined.

(** ** The free pool *)

(** X6: with a node in the free pool a push takes that node, the one freed
    last, whether or not an allocation would succeed, and the heap does not
    grow. *)
Theorem push_reuses_freed_node (st : state) (act fre : list nat) (f : nat)
  (ok : bool) (r : Z * Z) (Hwf : wf st act (f :: fre)) :
  exists st',
    push ok r st = Some (Some f, st') /\
    length (heap st') = length (heap st) /\
    wf st' (act ++ [f]) fre /\
    records st' = records st ++ [r] /\
    free_records st = record_at (heap st) f :: free_records st'.
Proof.
  destruct (push_ok _ _ _ ok r Hwf) as (a & st' & E & Hwf' & Hrec & Hfree & Hheap & _);
    [left; discriminate|].
  destruct (new_reuse _ _ _ _ ok Hwf) as (st1 & Enew & _).
  assert (a = f) as ->.
  { unfold push, bind in E. rewrite Enew in E.
    destruct (set_offset (Some f) r.1 st1) as [[[] s1]|]; [|discriminate].
    destruct (set_len (Some f) r.2 s1) as [[[] s2]|]; [|discriminate].
    unfold ret in E. congruence. }
  exists st'. split; [exact E|].
  rewrite decide_False in Hheap by discriminate.
  split; [exact Hheap|]. split; [exact Hwf'|]. split; [exact Hrec|].
  rewrite Hfree, (free_records_wf _ _ _ Hwf). reflexivity.
Qed.

Lemma push_reuses_freed_node_witness :
  let st := mk_state [mk_info 0 8 None; mk_info 8 8 None]
                     (mk_list (Some 1%nat) (Some 1%nat) (Some 0%nat) 1) [] in
  exists st',
    push false (16, 8) st = Some (Some 0%nat, st') /\
    length (heap st') = 2%nat /\
    records st' = [(8, 8); (16, 8)].
Proof.
  intros st.
  assert (Hwf : wf st [1%nat] [0%nat]).
  { split; simpl.
    - split; [reflexivity|]. eexists. split; reflexivity.
    - split; [reflexivity|]. eexists. split; reflexivity.
    - reflexivity.
    - apply NoDup_cons. split; [|apply NoDup_singleton].
      intros Hin. apply list_elem_of_singleton in Hin. discriminate. }
  destruct (push_reuses_freed_node st _ _ _ false (16, 8) Hwf)
    as (st' & E & Hh & _ & Hrec & _).
  exists st'. split; [exact E|]. split; [exact Hh | exact Hrec].
Defined.

(** ** Teardown *)

Lemma free_head_list_chain (l : list nat) :
  forall fuel h hd tl fr ln tr fd,
    chain h hd l -> NoDup (fd ++ l) -> (length l < fuel)%nat ->
    free_head_list fuel (mk_tstate (mk_state h (mk_list hd tl fr ln) tr) fd)
    = Some (mk_tstate (mk_state h (mk_list None tl fr ln) tr) (fd ++ l)).
Proof.
  induction l as [|a l IH]; intros fuel h hd tl fr ln tr fd Hc Hnd Hfuel;
    (destruct fuel as [|fuel]; [simpl in Hfuel; lia|]).
  - simpl in Hc. subst hd. rewrite app_nil_r. reflexivity.
  - destruct Hc as (-> & n & Hn & Hc).
    assert (Hnot : a ∉ fd).
    { apply NoDup_app in Hnd as (_ & Hdisj & _). intros Hin.
      apply (Hdisj _ Hin). left. }
    cbn [free_head_list t_state lockofd_infos li_head].
    unfold live_next, free_node. cbn [freed t_state heap].
    rewrite bool_decide_false by exact Hnot. rewrite Hn.
    cbn [fmap option_fmap option_map mbind option_bind t_state freed].
    unfold set_head, bind, get_infos, put_infos.
    cbn [mbind option_bind heap lockofd_infos trace li_tail li_free li_length].
    rewrite IH; [rewrite <- app_assoc; reflexivity | exact Hc | | simpl in Hfuel; lia].
    rewrite <- app_assoc. exact Hnd.
Qed.

Lemma free_free_list_chain (l : list nat) :
  forall fuel h hd tl fr ln tr fd,
    chain h fr l -> NoDup (fd ++ l) -> (length l < fuel)%nat ->
    free_free_list fuel (mk_tstate (mk_state h (mk_list hd tl fr ln) tr) fd)
    = Some (mk_tstate (mk_state h (mk_list hd tl None ln) tr) (fd ++ l)).
Proof.
  induction l as [|a l IH]; intros fuel h hd tl fr ln tr fd Hc Hnd Hfuel;
    (destruct fuel as [|fuel]; [simpl in Hfuel; lia|]).
  - simpl in Hc. subst fr. rewrite app_nil_r. reflexivity.
  - destruct Hc as (-> & n & Hn & Hc).
    assert (Hnot : a ∉ fd).
    { apply NoDup_app in Hnd as (_ & Hdisj & _). intros Hin.
      apply (Hdisj _ Hin). left. }
    cbn [free_free_list t_state lockofd_infos li_free].
    unfold live_next, free_node. cbn [freed t_state heap].
    rewrite bool_decide_false by exact Hnot. rewrite Hn.
    cbn [fmap option_fmap option_map mbind option_bind t_state freed].
    unfold set_free, bind, get_infos, put_infos.
    cbn [mbind option_bind heap lockofd_infos trace li_head li_tail li_length].
    rewrite IH; [rewrite <- app_assoc; reflexivity | exact Hc | | simpl in Hfuel; lia].
    rewrite <- app_assoc. exact Hnd.
Qed.

Lemma teardown_wf (st : state) (act fre : list nat) (fuel : nat) :
  wf st act fre -> (length act < fuel)%nat -> (length fre < fuel)%nat ->
  stress_lockofd_info_free fuel (mk_tstate st []) =
    Some (mk_tstate
            (mk_state (heap st)
               (mk_list None (li_tail (lockofd_infos st)) None
                        (li_length (lockofd_infos st)))
               (trace st))
            (act ++ fre)).
Proof.
  intros Hwf Hfa Hff.
  destruct st as [h [hd tl fr ln] tr]. destruct Hwf as [Hh Hf _ Hnd].
  cbn [heap lockofd_infos li_head li_free li_tail li_length trace] in *.
  unfold stress_lockofd_info_free.
  rewrite (free_head_list_chain act fuel h hd tl fr ln tr [] Hh);
    [| apply NoDup_app in Hnd; apply Hnd | exact Hfa].
  cbn [mbind option_bind app].
  rewrite (free_free_list_chain fre fuel h None tl fr ln tr act Hf Hnd Hff).
  reflexivity.
Qed.

(** X7: on a well-formed list the teardown ends and frees the nodes of the list
    and then those of the free pool, each once, never reading a node it has
    freed; [head] and [free] are [NULL] afterwards, while [tail] and
    [length] keep their old values. *)
Theorem teardown_frees_each_node_once (st : state) (act fre : list nat)
  (fuel : nat) (Hwf : wf st act fre)
  (Hfuel : (length act < fuel)%nat /\ (length fre < fuel)%nat) :
  exists st',
    stress_lockofd_info_free fuel (mk_tstate st []) =
      Some (mk_tstate st' (act ++ fre)) /\
    NoDup (act ++ fre) /\
    li_head (lockofd_infos st') = None /\
    li_free (lockofd_infos st') = None /\
    li_tail (lockofd_infos st') = li_tail (lockofd_infos st) /\
    li_length (lockofd_infos st') = li_length (lockofd_infos st) /\
    heap st' = heap st.
Proof.
  destruct Hfuel as [Hfa Hff].
  eexists. split; [apply (teardown_wf st act fre fuel Hwf Hfa Hff)|].
  split; [apply (wf_nodup _ _ _ Hwf)|]. repeat split; reflexivity.
Qed.

Lemma teardown_frees_each_node_once_witness :
  let st := mk_state [mk_info 0 8 None; mk_info 8 8 None]
                     (mk_list (Some 1%nat) (Some 1%nat) (Some 0%nat) 1) [] in
  exists st',
    stress_lockofd_info_free 3 (mk_tstate st []) =
      Some (mk_tstate st' [1%nat; 0%nat]) /\
    li_head (lockofd_infos st') = None /\ li_free (lockofd_infos st') = None.
Proof.
  intros st.
  assert (Hwf : wf st [1%nat] [0%nat]).
  { split; simpl.
    - split; [reflexivity|]. eexists. split; reflexivity.
    - split; [reflexivity|]. eexists. split; reflexivity.
    - reflexivity.
    - apply NoDup_cons. split; [|apply NoDup_singleton].
      intros Hin. apply list_elem_of_singleton in Hin. discriminate. }
  destruct (teardown_frees_each_node_once st _ _ 3 Hwf) as (st' & E & _ & Hh & Hf & _).
  { simpl. lia. }
  exists st'. split; [exact E|]. split; [exact Hh | exact Hf].
Defined.

Lemma bounded_NoDup_is_seq (l : list nat) (n : nat) :
  NoDup l -> (forall a, a ∈ l -> (a < n)%nat) -> length l = n ->
  l ≡ₚ seq 0 n.
Proof.
  intros Hnd Hb Hlen.
  apply submseteq_length_Permutation.
  - apply NoDup_submseteq; [exact Hnd|].
    intros a Ha. apply elem_of_seq. specialize (Hb a Ha). lia.
  - rewrite length_seq, Hlen. reflexivity.
Qed.

Lemma wf_nodes (st : state) (act fre : list nat) :
  wf st act fre -> length (heap st) = (length act + length fre)%nat ->
  act ++ fre ≡ₚ seq 0 (length (heap st)).
Proof.
  intros Hwf Hheap.
  apply bounded_NoDup_is_seq; [apply (wf_nodup _ _ _ Hwf)| |rewrite length_app; lia].
  intros a Ha. apply elem_of_app in Ha as [Ha|Ha].
  - eapply chain_bound; [apply Hwf|exact Ha].
  - eapply chain_bound; [apply (wf_free _ _ _ Hwf)|exact Ha].
Qed.

(** X8: after any run of the contention loop the teardown gives back every
    node the loop has allocated, each exactly once. *)
Theorem teardown_after_run_leaks_nothing (envs : list iter_env) :
  exists r st st' fd,
    stress_lockofd_contention envs init = Some (r, st) /\
    stress_lockofd_info_free (S (length (heap st))) (mk_tstate st []) =
      Some (mk_tstate st' fd) /\
    fd ≡ₚ seq 0 (length (heap st)) /\
    li_head (lockofd_infos st') = None /\ li_free (lockofd_infos st') = None.
Proof.
  destruct (contention_loop_inv envs init loop_inv_init eq_refl)
    as (r & st & E & Hinv & _).
  destruct Hinv as (act & fre & Hwf & _ & _ & Hheap & _).
  eexists r, st, _, (act ++ fre).
  split; [exact E|].
  split; [apply (teardown_wf st act fre _ Hwf); lia|].
  split; [exact (wf_nodes st act fre Hwf Hheap)|]. split; reflexivity.
Qed.

(** ** The stressor *)

Lemma full_writes_app (l k : list sys_event) :
  full_writes (l ++ k) = (full_writes l + full_writes k)%nat.
Proof. unfold full_writes. rewrite List.filter_app, length_app. reflexivity. Qed.

Lemma sys_log (ev : sys_event) (t : tstate) (lg : list sys_event) :
  sys ev (mk_pstate t lg) = mk_pstate t (lg ++ [ev]).
Proof. reflexivity. Qed.

Lemma write_calls_app (l k : list sys_event) :
  write_calls (l ++ k) = write_calls l ++ write_calls k.
Proof. apply omap_app. Qed.

(** One more call in front: the call made last keeps its place among the
    inputs. *)
Lemma last_call_shift (w0 w : write_env) (ws : list write_env) (rc0 rc : Z)
  (l : list Z) :
  ws !! pred (length l) = Some w -> last l = Some rc ->
  (w0 :: ws) !! pred (length (rc0 :: l)) = Some w /\ last (rc0 :: l) = Some rc.
Proof.
  destruct l as [|r l]; [discriminate|]. intros Hw Hl. split; assumption.
Qed.

(** The filling of the file, from any whole number of buffers on. *)
Lemma fill_from_redo_spec (e : main_env) (ws : list write_env) :
  fill_stopped ws = true ->
  forall (k : Z) (t : tstate) (lg0 : list sys_event),
    0 <= k < 256 ->
    exists r lg,
      fill_from_redo e ws (BUFFER_SIZE * k) (mk_pstate t lg0) =
        Some (r, mk_pstate t (lg0 ++ lg)) /\
      (forall ev, In ev lg ->
                  (exists rc, ev = Write rc) \/ ev = Fail "write") /\
      Z.of_nat (full_writes lg) <= 256 - k /\
      match r with
      | None => Z.of_nat (full_writes lg) = 256 - k /\ sys_failures lg = []
      | Some ret =>
          (ret = EXIT_SUCCESS /\ sys_failures lg = []) \/
          (sys_failures lg = ["write"%string] /\
           exists w, ws !! pred (length (write_calls lg)) = Some w /\
                     last (write_calls lg) = Some (w_rc w) /\
                     (w_rc w < 0 \/ w_rc w <> BUFFER_SIZE) /\
                     w_errno w <> EAGAIN /\ w_errno w <> EINTR /\
                     ret = exit_status e (w_errno w))
      end.
Proof.
  induction ws as [|w ws IH]; intros Hstop k t lg0 Hk; [discriminate|].
  cbn [fill_from_redo].
  destruct (w_flag w) eqn:Hflag; cbn [negb].
  2:{ exists (Some EXIT_SUCCESS), []. rewrite app_nil_r.
      split; [reflexivity|]. split; [intros ev []|].
      split; [cbn; lia|]. left. split; reflexivity. }
  assert (Hstop' : fill_stopped ws = true).
  { unfold fill_stopped in *. cbn [existsb] in Hstop. rewrite Hflag in Hstop.
    exact Hstop. }
  cbv zeta. rewrite sys_log.
  assert (Hev : forall lg : list sys_event,
             (forall ev, In ev lg ->
                         (exists rc, ev = Write rc) \/ ev = Fail "write") ->
             forall ev, In ev (Write (w_rc w) :: lg) ->
                        (exists rc, ev = Write rc) \/ ev = Fail "write").
  { intros lg Hlg ev [<-|Hin]; [left; eexists; reflexivity | apply Hlg, Hin]. }
  destruct ((w_rc w <? 0) || negb (w_rc w =? BUFFER_SIZE)) eqn:Hbad.
  - assert (Hne : (w_rc w =? BUFFER_SIZE) = false).
    { apply orb_true_iff in Hbad as [Hneg|Hne].
      - apply Z.ltb_lt in Hneg. apply Z.eqb_neq. unfold BUFFER_SIZE. lia.
      - apply negb_true_iff in Hne. exact Hne. }
    destruct ((w_errno w =? EAGAIN) || (w_errno w =? EINTR)) eqn:Hretry.
    + destruct (IH Hstop' k t (lg0 ++ [Write (w_rc w)]) Hk)
        as (r & lg & E & Hin & Hle & Hr).
      exists r, (Write (w_rc w) :: lg).
      split; [rewrite E, <- app_assoc; reflexivity|].
      split; [apply Hev, Hin|].
      assert (Hfw : full_writes (Write (w_rc w) :: lg) = full_writes lg).
      { unfold full_writes. cbn [List.filter]. rewrite Hne. reflexivity. }
      rewrite Hfw. split; [exact Hle|].
      destruct r as [ret|]; [|exact Hr].
      destruct Hr as [Hr|(Hf & w' & Hidx & Hlast & Hw')]; [left; exact Hr|].
      right. split; [exact Hf|]. exists w'.
      destruct (last_call_shift w w' ws (w_rc w) (w_rc w') _ Hidx Hlast) as [H1 H2].
      split; [exact H1|]. split; [exact H2 | exact Hw'].
    + exists (Some (exit_status e (w_errno w))), [Write (w_rc w); Fail "write"].
      split; [rewrite sys_log, <- app_assoc; reflexivity|].
      split; [apply Hev; intros ev [<-|[]]; right; reflexivity|].
      split; [unfold full_writes; cbn [List.filter]; rewrite Hne; cbn; lia|].
      right. split; [reflexivity|]. exists w. split; [reflexivity|].
      split; [reflexivity|].
      split.
      { apply orb_true_iff in Hbad as [Hneg|Hne'].
        - left. apply Z.ltb_lt. exact Hneg.
        - right. apply Z.eqb_neq. exact Hne. }
      apply orb_false_iff in Hretry as [H1 H2].
      apply Z.eqb_neq in H1. apply Z.eqb_neq in H2. auto.
  - apply orb_false_iff in Hbad as [_ Heq]. apply negb_false_iff in Heq.
    assert (Hfw : forall lg, full_writes (Write (w_rc w) :: lg) = S (full_writes lg)).
    { intros lg. unfold full_writes. cbn [List.filter]. rewrite Heq. reflexivity. }
    destruct (Z.ltb_spec (BUFFER_SIZE * k + BUFFER_SIZE) LOCK_FILE_SIZE) as [Hlt|Hge].
    + assert (Hk' : 0 <= k + 1 < 256) by (unfold BUFFER_SIZE, LOCK_FILE_SIZE in Hlt; lia).
      replace (BUFFER_SIZE * k + BUFFER_SIZE) with (BUFFER_SIZE * (k + 1)) by lia.
      destruct (IH Hstop' (k + 1) t (lg0 ++ [Write (w_rc w)]) Hk')
        as (r & lg & E & Hin & Hle & Hr).
      exists r, (Write (w_rc w) :: lg).
      split; [rewrite E, <- app_assoc; reflexivity|].
      split; [apply Hev, Hin|].
      rewrite Hfw. split; [lia|].
      destruct r as [ret|].
      * destruct Hr as [Hr|(Hf & w' & Hidx & Hlast & Hw')]; [left; exact Hr|].
        right. split; [exact Hf|]. exists w'.
        destruct (last_call_shift w w' ws (w_rc w) (w_rc w') _ Hidx Hlast) as [H1 H2].
        split; [exact H1|]. split; [exact H2 | exact Hw'].
      * destruct Hr as [Hr1 Hr2]. split; [lia | exact Hr2].
    + assert (k = 255) as -> by (unfold BUFFER_SIZE, LOCK_FILE_SIZE in Hge; lia).
      exists None, [Write (w_rc w)].
      split; [reflexivity|]. split; [apply Hev; intros ev []|].
      rewrite Hfw. cbn. split; [lia|]. split; [lia | reflexivity].
Qed.

Lemma fill_file_spec (e : main_env) (t : tstate) (lg0 : list sys_event) :
  fill_stopped (writes e) = true ->
  exists r lg,
    fill_file e (mk_pstate t lg0) = Some (r, mk_pstate t (lg0 ++ lg)) /\
    (forall ev, In ev lg -> (exists rc, ev = Write rc) \/ ev = Fail "write") /\
    Z.of_nat (full_writes lg) * BUFFER_SIZE <= LOCK_FILE_SIZE /\
    match r with
    | None => Z.of_nat (full_writes lg) * BUFFER_SIZE = LOCK_FILE_SIZE /\
              sys_failures lg = []
    | Some ret =>
        (ret = EXIT_SUCCESS /\ sys_failures lg = []) \/
        (sys_failures lg = ["write"%string] /\
         exists w, writes e !! pred (length (write_calls lg)) = Some w /\
                   last (write_calls lg) = Some (w_rc w) /\
                   (w_rc w < 0 \/ w_rc w <> BUFFER_SIZE) /\
                   w_errno w <> EAGAIN /\ w_errno w <> EINTR /\
                   ret = exit_status e (w_errno w))
    end.
Proof.
  intros Hstop. unfold fill_file. cbv zeta.
  change (0 <? LOCK_FILE_SIZE) with true. cbv iota.
  destruct (fill_from_redo_spec e (writes e) Hstop 0 t lg0 ltac:(lia))
    as (r & lg & E & Hin & Hle & Hr).
  change (BUFFER_SIZE * 0) with 0 in E.
  exists r, lg. split; [exact E|]. split; [exact Hin|].
  unfold BUFFER_SIZE, LOCK_FILE_SIZE in *.
  split; [lia|]. destruct r as [ret|]; [exact Hr|].
  destruct Hr as [Hr1 Hr2]. split; [lia | exact Hr2].
Qed.

(** The fork, with its retries. *)
Lemma fork_again_spec (fs : list fork_env) :
  fork_stopped fs = true ->
  forall (ret : Z) (t : tstate) (lg0 : list sys_event),
    exists fr lg,
      fork_again fs ret (mk_pstate t lg0) = Some (fr, mk_pstate t (lg0 ++ lg)) /\
      (forall ev, In ev lg -> (exists c, ev = Fork c) \/ ev = Fail "fork") /\
      match fr with
      | inl (cpid, ret') =>
          cpid < 0 /\ children lg = [] /\
          ((ret' = EXIT_SUCCESS /\ sys_failures lg = []) \/
           (ret' = ret /\ sys_failures lg = ["fork"%string]))
      | inr cpid =>
          0 <= cpid /\ sys_failures lg = [] /\
          children lg = (if 0 <? cpid then [cpid] else []) /\
          In (Fork cpid) lg
      end.
Proof.
  induction fs as [|f fs IH]; intros Hstop ret t lg0; [discriminate|].
  cbn [fork_again]. cbv zeta. rewrite sys_log.
  assert (Hev : forall lg : list sys_event,
             (forall ev, In ev lg -> (exists c, ev = Fork c) \/ ev = Fail "fork") ->
             forall ev, In ev (Fork (f_cpid f) :: lg) ->
                        (exists c, ev = Fork c) \/ ev = Fail "fork").
  { intros lg Hlg ev [<-|Hin]; [left; eexists; reflexivity | apply Hlg, Hin]. }
  destruct (Z.ltb_spec (f_cpid f) 0) as [Hneg|Hpos].
  - assert (Hnp : (0 <? f_cpid f) = false) by (apply Z.ltb_ge; lia).
    assert (Hch : forall lg, children (Fork (f_cpid f) :: lg) = children lg).
    { intros lg. unfold children. cbn [omap list_omap]. rewrite Hnp. reflexivity. }
    destruct (f_flag f) eqn:Hflag; cbn [negb].
    + destruct (f_errno f =? EAGAIN).
      * assert (Hstop' : fork_stopped fs = true).
        { unfold fork_stopped in *. cbn [existsb] in Hstop. rewrite Hflag in Hstop.
          exact Hstop. }
        destruct (IH Hstop' ret t (lg0 ++ [Fork (f_cpid f)]))
          as (fr & lg & E & Hin & Hfr).
        exists fr, (Fork (f_cpid f) :: lg).
        split; [rewrite E, <- app_assoc; reflexivity|].
        split; [apply Hev, Hin|].
        destruct fr as [[cpid ret']|cpid].
        -- rewrite Hch. exact Hfr.
        -- rewrite Hch. destruct Hfr as (H1 & H2 & H3 & H4).
           split; [exact H1|]. split; [exact H2|]. split; [exact H3|].
           right. exact H4.
      * exists (inl (f_cpid f, ret)), [Fork (f_cpid f); Fail "fork"].
        split; [rewrite sys_log, <- app_assoc; reflexivity|].
        split; [apply Hev; intros ev [<-|[]]; right; reflexivity|].
        split; [exact Hneg|]. rewrite Hch. split; [reflexivity|].
        right. split; reflexivity.
    + exists (inl (f_cpid f, EXIT_SUCCESS)), [Fork (f_cpid f)].
      split; [reflexivity|]. split; [apply Hev; intros ev []|].
      split; [exact Hneg|]. rewrite Hch. split; [reflexivity|].
      left. split; reflexivity.
  - exists (inr (f_cpid f)), [Fork (f_cpid f)].
    split; [reflexivity|]. split; [apply Hev; intros ev []|].
    split; [exact Hpos|]. split; [reflexivity|]. split; [|left; reflexivity].
    unfold children. cbn [omap list_omap]. destruct (0 <? f_cpid f); reflexivity.
Qed.

(** The loop, when [keep_stressing()] answers false at some pass. *)
Lemma contention_spec (envs : list iter_env) (fd : list addr)
  (lg0 : list sys_event) :
  loop_stopped envs = true ->
  exists rc st,
    contention envs (mk_pstate (mk_tstate init fd) lg0) =
      Some (rc, mk_pstate (mk_tstate st fd) (lg0 ++ [Contention])) /\
    stress_lockofd_contention envs init = Some (Some rc, st) /\
    loop_inv st /\
    ((rc = 0 /\ failures (trace st) = []) \/
     (rc = -1 /\ (failures (trace st) = ["F_SETLK"%string] \/
                  failures (trace st) = ["calloc"%string]))).
Proof.
  intros Hstop.
  destruct (contention_loop_inv envs init loop_inv_init eq_refl)
    as (r & st & E & Hinv & Hcase).
  destruct Hcase as [(-> & _ & Hall) | [(-> & Hq & _) | (-> & Hf)]].
  - exfalso. unfold loop_stopped in Hstop.
    apply existsb_exists in Hstop as (x & Hin & Hx).
    rewrite List.Forall_forall in Hall. rewrite (Hall x Hin) in Hx. discriminate.
  - exists 0, st. unfold contention. cbn [p_list t_state freed p_log]. rewrite E.
    split; [reflexivity|]. split; [reflexivity|]. split; [exact Hinv|]. left. auto.
  - exists (-1), st. unfold contention. cbn [p_list t_state freed p_log]. rewrite E.
    split; [reflexivity|]. split; [reflexivity|]. split; [exact Hinv|]. right. auto.
Qed.

(** The teardown after the loop, or with the list never used. *)
Lemma info_free_spec (st : state) (lg0 : list sys_event) :
  loop_inv st ->
  exists st' fd,
    info_free (mk_pstate (mk_tstate st []) lg0) =
      Some (mk_pstate (mk_tstate st' fd) (lg0 ++ [InfoFree])) /\
    fd ≡ₚ seq 0 (length (heap st)) /\ heap st' = heap st /\ trace st' = trace st.
Proof.
  intros (act & fre & Hwf & _ & _ & Hheap & _).
  eexists _, (act ++ fre). unfold info_free. cbn [p_list t_state p_log].
  rewrite (teardown_wf st act fre _ Hwf) by lia.
  cbn [mbind option_bind].
  split; [reflexivity|]. split; [exact (wf_nodes st act fre Hwf Hheap)|].
  split; reflexivity.
Qed.

Lemma tidy_spec (cpid ret : Z) (st : state) (lg0 : list sys_event) :
  loop_inv st ->
  exists st' fd,
    tidy cpid ret (mk_pstate (mk_tstate st []) lg0) =
      Some (Returned ret,
            mk_pstate (mk_tstate st' fd)
              (lg0 ++ (if 0 <? cpid then [Kill cpid; Waitpid cpid] else []) ++
               [InfoFree; Close; Unlink; Rmdir])) /\
    fd ≡ₚ seq 0 (length (heap st)) /\ heap st' = heap st /\ trace st' = trace st.
Proof.
  intros Hinv. unfold tidy. cbv zeta.
  destruct (0 <? cpid).
  - rewrite !sys_log.
    destruct (info_free_spec st ((lg0 ++ [Kill cpid]) ++ [Waitpid cpid]) Hinv)
      as (st' & fd & E & Hfd & Hh & Ht).
    exists st', fd. rewrite E. cbn [mbind option_bind]. rewrite !sys_log.
    split; [|auto]. rewrite <- !app_assoc. reflexivity.
  - destruct (info_free_spec st lg0 Hinv) as (st' & fd & E & Hfd & Hh & Ht).
    exists st', fd. rewrite E. cbn [mbind option_bind]. rewrite !sys_log.
    split; [|auto]. rewrite <- !app_assoc. reflexivity.
Qed.

Lemma write_events (lg : list sys_event) :
  (forall ev, In ev lg -> (exists rc, ev = Write rc) \/ ev = Fail "write") ->
  forallb body_event lg = true /\ children lg = [] /\
  (forall c, ~ In (Fork c) lg).
Proof.
  intros Hlg. split; [|split].
  - apply forallb_forall. intros ev Hin.
    destruct (Hlg ev Hin) as [[rc ->]| ->]; reflexivity.
  - induction lg as [|ev lg IH]; [reflexivity|].
    unfold children in *. cbn [omap list_omap].
    rewrite IH by (intros ev' Hin; apply Hlg; right; exact Hin).
    destruct (Hlg ev (or_introl eq_refl)) as [[rc ->]| ->]; reflexivity.
  - intros c Hin. destruct (Hlg _ Hin) as [[rc Heq]|Heq]; discriminate.
Qed.

Lemma fork_events (lg : list sys_event) :
  (forall ev, In ev lg -> (exists c, ev = Fork c) \/ ev = Fail "fork") ->
  forallb body_event lg = true /\ full_writes lg = 0%nat.
Proof.
  intros Hlg. split.
  - apply forallb_forall. intros ev Hin.
    destruct (Hlg ev Hin) as [[rc ->]| ->]; reflexivity.
  - induction lg as [|ev lg IH]; [reflexivity|].
    unfold full_writes in *. cbn [List.filter].
    destruct (Hlg ev (or_introl eq_refl)) as [[rc ->]| ->];
      apply IH; intros ev' Hin; apply Hlg; right; exact Hin.
Qed.

Lemma children_app (l k : list sys_event) :
  children (l ++ k) = children l ++ children k.
Proof. apply omap_app. Qed.

Lemma sys_failures_app (l k : list sys_event) :
  sys_failures (l ++ k) = sys_failures l ++ sys_failures k.
Proof. apply omap_app. Qed.

(** Every way through the stressor, when the stop flag is cleared in the
    end: the two early returns, or the calls up to [tidy] or [_exit]
    ([body]) and what follows them. *)
Lemma stress_lockofd_paths (e : main_env) :
  fill_stopped (writes e) = true -> fork_stopped (forks e) = true ->
  loop_stopped (passes e) = true ->
  exists out st fd lg,
    stress_lockofd e = Some (out, mk_pstate (mk_tstate st fd) lg) /\
    Z.of_nat (length (heap st)) <= LOCK_MAX /\
    ((mkdir_rc e < 0 /\ mkdir_errno e <> EEXIST /\
      out = Returned (exit_status e (mkdir_errno e)) /\
      lg = [Mkdir; Fail "mkdir"] /\ fd = [] /\ heap st = [] /\
      failures (trace st) = []) \/
     (~ (mkdir_rc e < 0 /\ mkdir_errno e <> EEXIST) /\ open_fd e < 0 /\
      out = Returned (exit_status e (open_errno e)) /\
      lg = [Mkdir; Open; Fail "open"; Rmdir] /\ fd = [] /\ heap st = [] /\
      failures (trace st) = []) \/
     (~ (mkdir_rc e < 0 /\ mkdir_errno e <> EEXIST) /\ 0 <= open_fd e /\
      exists body,
        forallb body_event body = true /\
        Z.of_nat (full_writes body) * BUFFER_SIZE <= LOCK_FILE_SIZE /\
        (forall c, In (Fork c) body ->
                   Z.of_nat (full_writes body) * BUFFER_SIZE = LOCK_FILE_SIZE) /\
        ((exists cpid ret,
            out = Returned ret /\
            lg = [Mkdir; Open; Lseek] ++ body ++
                 (if 0 <? cpid then [Kill cpid; Waitpid cpid] else []) ++
                 [InfoFree; Close; Unlink; Rmdir] /\
            children body = (if 0 <? cpid then [cpid] else []) /\
            fd ≡ₚ seq 0 (length (heap st)) /\
            ((sys_failures body ++ failures (trace st) = [] /\
              ret = EXIT_SUCCESS) \/
             (ret = EXIT_FAILURE /\
              (sys_failures body ++ failures (trace st) = ["lseek"%string] \/
               sys_failures body ++ failures (trace st) = ["fork"%string] \/
               sys_failures body ++ failures (trace st) = ["F_SETLK"%string] \/
               sys_failures body ++ failures (trace st) = ["calloc"%string])) \/
             (sys_failures body ++ failures (trace st) = ["write"%string] /\
              exists w,
                writes e !! pred (length (write_calls body)) = Some w /\
                last (write_calls body) = Some (w_rc w) /\
                (w_rc w < 0 \/ w_rc w <> BUFFER_SIZE) /\
                w_errno w <> EAGAIN /\ w_errno w <> EINTR /\
                ret = exit_status e (w_errno w)))) \/
         (exists code,
            out = Exited code /\
            lg = [Mkdir; Open; Lseek] ++ body ++
                 (if code =? EXIT_SUCCESS then [InfoFree] else []) /\
            children body = [] /\ In (Fork 0) body /\
            sys_failures body = [] /\
            ((code = EXIT_SUCCESS /\ failures (trace st) = [] /\
              fd ≡ₚ seq 0 (length (heap st))) \/
             (code = EXIT_FAILURE /\ fd = [] /\
              (failures (trace st) = ["F_SETLK"%string] \/
               failures (trace st) = ["calloc"%string]))))))).
Proof.
  intros Hw Hf Hl. unfold stress_lockofd. cbv zeta.
  unfold sys. cbn [p_list p_log app].
  assert (Hinit : Z.of_nat (length (heap init)) <= LOCK_MAX)
    by (cbn; unfold LOCK_MAX; lia).
  destruct ((mkdir_rc e <? 0) && negb (mkdir_errno e =? EEXIST)) eqn:Hmk.
  { apply andb_true_iff in Hmk as [H1 H2]. apply Z.ltb_lt in H1.
    apply negb_true_iff, Z.eqb_neq in H2.
    eexists _, init, [], _. split; [reflexivity|]. split; [exact Hinit|].
    left. repeat split; auto. }
  assert (Hmk' : ~ (mkdir_rc e < 0 /\ mkdir_errno e <> EEXIST)).
  { intros [H1 H2]. apply Z.ltb_lt in H1. apply Z.eqb_neq in H2.
    rewrite H1, H2 in Hmk. discriminate. }
  destruct (Z.ltb_spec (open_fd e) 0) as [Hopen|Hopen].
  { eexists _, init, [], _. split; [reflexivity|]. split; [exact Hinit|].
    right. left. repeat split; auto. }
  destruct (Z.ltb_spec (lseek_rc e) 0) as [Hseek|Hseek].
  { destruct (tidy_spec (-1) EXIT_FAILURE init [Mkdir; Open; Lseek; Fail "lseek"]
                loop_inv_init) as (st' & fd & E & Hfd & Hh & Ht).
    rewrite E. eexists _, st', fd, _. split; [reflexivity|].
    split; [rewrite Hh; exact Hinit|].
    right. right. split; [exact Hmk'|]. split; [exact Hopen|].
    exists [Fail "lseek"]. split; [reflexivity|]. split; [cbn; unfold LOCK_FILE_SIZE; lia|].
    split; [intros c [Hc|[]]; discriminate|].
    left. exists (-1), EXIT_FAILURE. split; [reflexivity|].
    split; [reflexivity|]. split; [reflexivity|].
    split; [rewrite Hh; exact Hfd|].
    right. left. split; [reflexivity|]. left. rewrite Ht. reflexivity. }
  destruct (fill_file_spec e (mk_tstate init []) [Mkdir; Open; Lseek] Hw)
    as (r & wlog & Ew & Hwin & Hwle & Hr).
  rewrite Ew. cbn [mbind option_bind p_list p_log].
  destruct (write_events wlog Hwin) as (Hwbody & Hwch & Hwfork).
  destruct r as [ret|].
  { destruct (tidy_spec (-1) ret init ([Mkdir; Open; Lseek] ++ wlog) loop_inv_init)
      as (st' & fd & E & Hfd & Hh & Ht).
    rewrite E. eexists _, st', fd, _. split; [reflexivity|].
    split; [rewrite Hh; exact Hinit|].
    right. right. split; [exact Hmk'|]. split; [exact Hopen|].
    exists wlog. split; [exact Hwbody|]. split; [exact Hwle|].
    split; [intros c Hc; destruct (Hwfork c Hc)|].
    left. exists (-1), ret. split; [reflexivity|].
    split; [rewrite <- !app_assoc; reflexivity|]. split; [exact Hwch|].
    split; [rewrite Hh; exact Hfd|].
    rewrite Ht. cbn [trace init failures omap list_omap]. rewrite app_nil_r.
    destruct Hr as [[-> Hs]|(Hs & w & Hw')].
    - left. auto.
    - right. right. split; [exact Hs|]. exists w. exact Hw'. }
  destruct Hr as [Hfull Hwfail].
  destruct (fork_again_spec (forks e) Hf EXIT_FAILURE (mk_tstate init [])
              ([Mkdir; Open; Lseek] ++ wlog))
    as (fr & flog & Ef & Hfin & Hfr).
  rewrite Ef. cbn [mbind option_bind p_list p_log].
  destruct (fork_events flog Hfin) as (Hfbody & Hffull).
  assert (Hfw : forall l, full_writes (wlog ++ flog ++ l) =
                          (full_writes wlog + full_writes l)%nat).
  { intros l. rewrite !full_writes_app, Hffull. reflexivity. }
  destruct fr as [[cpid ret']|cpid].
  { destruct Hfr as (Hneg & Hfch & Hret).
    destruct (tidy_spec cpid ret' init (([Mkdir; Open; Lseek] ++ wlog) ++ flog)
                loop_inv_init) as (st' & fd & E & Hfd & Hh & Ht).
    rewrite E. eexists _, st', fd, _. split; [reflexivity|].
    split; [rewrite Hh; exact Hinit|].
    right. right. split; [exact Hmk'|]. split; [exact Hopen|].
    exists (wlog ++ flog).
    split; [rewrite forallb_app, Hwbody, Hfbody; reflexivity|].
    rewrite full_writes_app, Hffull, Nat.add_0_r.
    split; [exact Hwle|]. split; [intros _ _; exact Hfull|].
    left. exists cpid, ret'. split; [reflexivity|].
    split; [rewrite <- !app_assoc; reflexivity|].
    assert (Hnp : (0 <? cpid) = false) by (apply Z.ltb_ge; lia).
    split; [rewrite children_app, Hwch, Hfch, Hnp; reflexivity|].
    split; [rewrite Hh; exact Hfd|].
    rewrite Ht. cbn [trace init failures omap list_omap]. rewrite app_nil_r.
    rewrite sys_failures_app, Hwfail. cbn [app].
    destruct Hret as [[-> Hs]|[-> Hs]].
    - left. auto.
    - right. left. split; [reflexivity|]. right. left. exact Hs. }
  destruct Hfr as (Hpos & Hffail & Hfch & Hfork).
  destruct (Z.eqb_spec cpid 0) as [->|Hnz].
  - (* the child *)
    cbn [mbind option_bind p_list p_log].
    destruct (contention_spec (passes e) []
                (((([Mkdir; Open; Lseek] ++ wlog) ++ flog) ++ [Setpgid 0]) ++
                 [ParentDiedAlarm]) Hl)
      as (rc & st & Ec & _ & Hinv & Hrc).
    rewrite Ec. cbn [mbind option_bind p_list p_log].
    assert (Hbound : Z.of_nat (length (heap st)) <= LOCK_MAX).
    { destruct Hinv as (act & fre & _ & _ & _ & _ & Hb & _). exact Hb. }
    assert (Hbody : forallb body_event
                      (wlog ++ flog ++ [Setpgid 0; ParentDiedAlarm; Contention]) = true)
      by (rewrite !forallb_app, Hwbody, Hfbody; reflexivity).
    assert (Hch : children (wlog ++ flog ++ [Setpgid 0; ParentDiedAlarm; Contention]) = []).
    { rewrite !children_app, Hwch, Hfch. reflexivity. }
    assert (Hsf : sys_failures (wlog ++ flog ++ [Setpgid 0; ParentDiedAlarm; Contention]) = []).
    { rewrite !sys_failures_app, Hwfail, Hffail. reflexivity. }
    assert (Hin0 : In (Fork 0) (wlog ++ flog ++ [Setpgid 0; ParentDiedAlarm; Contention])).
    { apply in_or_app. right. apply in_or_app. left. exact Hfork. }
    destruct Hrc as [[-> Hq]|[-> Hq]].
    + change (0 <? 0) with false. cbv iota.
      destruct (info_free_spec st
                  ((((([Mkdir; Open; Lseek] ++ wlog) ++ flog) ++ [Setpgid 0]) ++
                    [ParentDiedAlarm]) ++ [Contention]) Hinv)
        as (st' & fd & E & Hfd & Hh & Ht).
      rewrite E. cbn [mbind option_bind p_list p_log].
      eexists _, st', fd, _. split; [reflexivity|].
      split; [rewrite Hh; exact Hbound|].
      right. right. split; [exact Hmk'|]. split; [exact Hopen|].
      exists (wlog ++ flog ++ [Setpgid 0; ParentDiedAlarm; Contention]).
      split; [exact Hbody|]. rewrite Hfw.
      change (full_writes [Setpgid 0; ParentDiedAlarm; Contention]) with 0%nat.
      rewrite Nat.add_0_r.
      split; [exact Hwle|]. split; [intros _ _; exact Hfull|].
      right. exists EXIT_SUCCESS. split; [reflexivity|].
      split; [rewrite <- !app_assoc; reflexivity|].
      split; [exact Hch|]. split; [exact Hin0|]. split; [exact Hsf|].
      left. split; [reflexivity|]. split; [rewrite Ht; exact Hq|].
      rewrite Hh. exact Hfd.
    + change (-1 <? 0) with true. cbv iota.
      eexists _, st, [], _. split; [reflexivity|]. split; [exact Hbound|].
      right. right. split; [exact Hmk'|]. split; [exact Hopen|].
      exists (wlog ++ flog ++ [Setpgid 0; ParentDiedAlarm; Contention]).
      split; [exact Hbody|]. rewrite Hfw.
      change (full_writes [Setpgid 0; ParentDiedAlarm; Contention]) with 0%nat.
      rewrite Nat.add_0_r.
      split; [exact Hwle|]. split; [intros _ _; exact Hfull|].
      right. exists EXIT_FAILURE. split; [reflexivity|].
      split; [rewrite <- !app_assoc; reflexivity|].
      split; [exact Hch|]. split; [exact Hin0|]. split; [exact Hsf|].
      right. auto.
  - (* the parent *)
    assert (Hp : (0 <? cpid) = true) by (apply Z.ltb_lt; lia).
    rewrite Hp in Hfch. cbn [mbind option_bind p_list p_log].
    destruct (contention_spec (passes e) []
                ((([Mkdir; Open; Lseek] ++ wlog) ++ flog) ++ [Setpgid cpid]) Hl)
      as (rc & st & Ec & _ & Hinv & Hrc).
    rewrite Ec. cbn [mbind option_bind p_list p_log].
    assert (Hbound : Z.of_nat (length (heap st)) <= LOCK_MAX).
    { destruct Hinv as (act & fre & _ & _ & _ & _ & Hb & _). exact Hb. }
    destruct (tidy_spec cpid (if rc =? 0 then EXIT_SUCCESS else EXIT_FAILURE) st
                (((([Mkdir; Open; Lseek] ++ wlog) ++ flog) ++ [Setpgid cpid]) ++
                 [Contention]) Hinv)
      as (st' & fd & E & Hfd & Hh & Ht).
    rewrite E. eexists _, st', fd, _. split; [reflexivity|].
    split; [rewrite Hh; exact Hbound|].
    right. right. split; [exact Hmk'|]. split; [exact Hopen|].
    exists (wlog ++ flog ++ [Setpgid cpid; Contention]).
    split; [rewrite !forallb_app, Hwbody, Hfbody; reflexivity|].
    rewrite Hfw. change (full_writes [Setpgid cpid; Contention]) with 0%nat.
    rewrite Nat.add_0_r.
    split; [exact Hwle|]. split; [intros _ _; exact Hfull|].
    left. exists cpid, (if rc =? 0 then EXIT_SUCCESS else EXIT_FAILURE).
    split; [reflexivity|].
    split; [rewrite <- !app_assoc; reflexivity|].
    split; [rewrite !children_app, Hwch, Hfch, Hp; reflexivity|].
    split; [rewrite Hh; exact Hfd|].
    rewrite Ht, !sys_failures_app, Hwfail, Hffail. cbn [app sys_failures omap list_omap].
    destruct Hrc as [[-> Hq]|[-> Hq]].
    + left. split; [exact Hq | reflexivity].
    + right. left. split; [reflexivity|]. right. right. exact Hq.
Qed.

Lemma body_quiet (l : list sys_event) :
  forallb body_event l = true ->
  forallb (fun ev => negb (is_removal ev)) l = true /\
  killed l = [] /\ reaped l = [].
Proof.
  induction l as [|ev l IH]; intros Hl; [repeat split; reflexivity|].
  cbn [forallb] in Hl. apply andb_prop in Hl as [Hev Hl].
  destruct (IH Hl) as (IH1 & IH2 & IH3).
  destruct ev; try discriminate; repeat split; assumption.
Qed.

Lemma killed_app (l k : list sys_event) : killed (l ++ k) = killed l ++ killed k.
Proof. apply omap_app. Qed.

Lemma reaped_app (l k : list sys_event) : reaped (l ++ k) = reaped l ++ reaped k.
Proof. apply omap_app. Qed.

(** X9: a failed [mkdir] ends the stressor with [exit_status(errno)] before
    anything is opened, unless the directory was there already, which is no
    failure; a failed [open] removes the directory and returns
    [exit_status(errno)]; a failed [lseek] returns [EXIT_FAILURE], whatever
    [errno] is, after the file is closed and file and directory are
    removed. *)
Theorem failed_setup_returns_early (e : main_env) :
  (mkdir_rc e < 0 /\ mkdir_errno e <> EEXIST ->
   stress_lockofd e =
     Some (Returned (exit_status e (mkdir_errno e)),
           mk_pstate (mk_tstate init []) [Mkdir; Fail "mkdir"])) /\
  (0 <= mkdir_rc e \/ mkdir_errno e = EEXIST ->
   (open_fd e < 0 ->
    stress_lockofd e =
      Some (Returned (exit_status e (open_errno e)),
            mk_pstate (mk_tstate init []) [Mkdir; Open; Fail "open"; Rmdir])) /\
   (0 <= open_fd e -> lseek_rc e < 0 ->
    stress_lockofd e =
      Some (Returned EXIT_FAILURE,
            mk_pstate (mk_tstate init [])
              [Mkdir; Open; Lseek; Fail "lseek"; InfoFree; Close; Unlink; Rmdir]))).
Proof.
  unfold stress_lockofd. cbv zeta. split.
  - intros [H1 H2]. apply Z.ltb_lt in H1. apply Z.eqb_neq in H2.
    rewrite H1, H2. reflexivity.
  - intros Hmk.
    assert (Hc : (mkdir_rc e <? 0) && negb (mkdir_errno e =? EEXIST) = false).
    { destruct Hmk as [Hmk|Hmk].
      - apply Z.ltb_ge in Hmk. rewrite Hmk. reflexivity.
      - apply Z.eqb_eq in Hmk. rewrite Hmk. apply andb_false_r. }
    rewrite Hc. split.
    + intros Hopen. apply Z.ltb_lt in Hopen. rewrite Hopen. reflexivity.
    + intros Hopen Hseek. apply Z.ltb_ge in Hopen. apply Z.ltb_lt in Hseek.
      rewrite Hopen, Hseek. reflexivity.
Qed.

(** X10: once the file is open, a stressor that returns has, as its last
    actions, freed its list, closed the file and removed the file and the
    directory, once each; it has killed and waited for the child it forked,
    if there is one, and for no other process.  The child removes nothing
    and kills nothing. *)
Theorem stressor_tidies_up (e : main_env)
  (Hw : fill_stopped (writes e) = true) (Hf : fork_stopped (forks e) = true)
  (Hl : loop_stopped (passes e) = true)
  (Hmk : 0 <= mkdir_rc e \/ mkdir_errno e = EEXIST) (Hopen : 0 <= open_fd e) :
  exists out p,
    stress_lockofd e = Some (out, p) /\
    match out with
    | Returned _ =>
        exists pre,
          p_log p = pre ++ [InfoFree; Close; Unlink; Rmdir] /\
          forallb (fun ev => negb (is_removal ev)) pre = true /\
          killed (p_log p) = children (p_log p) /\
          reaped (p_log p) = children (p_log p) /\
          (length (children (p_log p)) <= 1)%nat
    | Exited _ =>
        forallb (fun ev => negb (is_removal ev)) (p_log p) = true /\
        killed (p_log p) = [] /\ children (p_log p) = [] /\
        In (Fork 0) (p_log p)
    end.
Proof.
  destruct (stress_lockofd_paths e Hw Hf Hl)
    as (out & st & fd & lg & E & _ & Hpath).
  exists out, (mk_pstate (mk_tstate st fd) lg). split; [exact E|].
  cbn [p_log].
  destruct Hpath as [(H1 & H2 & _) | [(_ & H1 & _) | (_ & _ & body & Hbody & _ & _ & Hout)]];
    [lia | lia |].
  destruct (body_quiet body Hbody) as (Hrem & Hkill & Hreap).
  destruct Hout as [(cpid & ret & -> & -> & Hch & _) | (code & -> & -> & Hch & Hfork & _)].
  - exists ([Mkdir; Open; Lseek] ++ body ++
            (if 0 <? cpid then [Kill cpid; Waitpid cpid] else [])).
    split; [rewrite <- !app_assoc; reflexivity|].
    split.
    { rewrite !forallb_app, Hrem. destruct (0 <? cpid); reflexivity. }
    rewrite !killed_app, !reaped_app, !children_app, Hkill, Hreap, Hch.
    destruct (0 <? cpid); cbn; repeat split; lia.
  - split.
    { rewrite !forallb_app, Hrem. destruct (code =? EXIT_SUCCESS); reflexivity. }
    rewrite !killed_app, !children_app, Hkill, Hch.
    split; [destruct (code =? EXIT_SUCCESS); reflexivity|].
    split; [destruct (code =? EXIT_SUCCESS); reflexivity|].
    apply in_or_app. right. apply in_or_app. left. exact Hfork.
Qed.

Lemma stressor_tidies_up_witness :
  exists out p,
    stress_lockofd
      (mk_main (-1) 17 3 0 0
         (repeat (mk_write true 4096 0) 256 ++ [mk_write false 0 0])
         [mk_fork (-1) true 11; mk_fork 77 false 0]
         [mk_env 0 7 0 0 true true; mk_env 0 7 8 (-1) true false]
         (fun errno => errno)) = Some (out, p) /\
    match out with
    | Returned _ =>
        exists pre,
          p_log p = pre ++ [InfoFree; Close; Unlink; Rmdir] /\
          forallb (fun ev => negb (is_removal ev)) pre = true /\
          killed (p_log p) = children (p_log p) /\
          reaped (p_log p) = children (p_log p) /\
          (length (children (p_log p)) <= 1)%nat
    | Exited _ =>
        forallb (fun ev => negb (is_removal ev)) (p_log p) = true /\
        killed (p_log p) = [] /\ children (p_log p) = [] /\
        In (Fork 0) (p_log p)
    end.
Proof.
  apply (stressor_tidies_up
           (mk_main (-1) 17 3 0 0
              (repeat (mk_write true 4096 0) 256 ++ [mk_write false 0 0])
              [mk_fork (-1) true 11; mk_fork 77 false 0]
              [mk_env 0 7 0 0 true true; mk_env 0 7 8 (-1) true false]
              (fun errno => errno)));
    [vm_compute; reflexivity | reflexivity | reflexivity
    | right; reflexivity | simpl; lia].
Defined.

(** X11: the stressor reports at most one failure.  With none it ends with
    [EXIT_SUCCESS]; a failed [lseek] or [fork], or a failure in the loop,
    gives [EXIT_FAILURE]; a failed [mkdir], [open] or [write] gives what
    [exit_status] makes of the [errno] of that call: of the [mkdir], of the
    [open], or of the [write] made last, which was short or failed with an
    [errno] other than [EAGAIN] and [EINTR]. *)
Theorem exit_code_tells_failure (e : main_env)
  (Hw : fill_stopped (writes e) = true) (Hf : fork_stopped (forks e) = true)
  (Hl : loop_stopped (passes e) = true) :
  exists out p,
    stress_lockofd e = Some (out, p) /\
    ((sys_failures (p_log p) ++ failures (trace (t_state (p_list p))) = [] /\
      (out = Returned EXIT_SUCCESS \/ out = Exited EXIT_SUCCESS)) \/
     (exists w,
        sys_failures (p_log p) ++ failures (trace (t_state (p_list p))) = [w] /\
        ((In w ["lseek"; "fork"]%string /\ out = Returned EXIT_FAILURE) \/
         (In w ["F_SETLK"; "calloc"]%string /\
          (out = Returned EXIT_FAILURE \/ out = Exited EXIT_FAILURE)) \/
         (w = "mkdir"%string /\ mkdir_rc e < 0 /\ mkdir_errno e <> EEXIST /\
          out = Returned (exit_status e (mkdir_errno e))) \/
         (w = "open"%string /\ open_fd e < 0 /\
          out = Returned (exit_status e (open_errno e))) \/
         (w = "write"%string /\
          exists we,
            writes e !! pred (length (write_calls (p_log p))) = Some we /\
            last (write_calls (p_log p)) = Some (w_rc we) /\
            (w_rc we < 0 \/ w_rc we <> BUFFER_SIZE) /\
            w_errno we <> EAGAIN /\ w_errno we <> EINTR /\
            out = Returned (exit_status e (w_errno we)))))).
Proof.
  destruct (stress_lockofd_paths e Hw Hf Hl)
    as (out & st & fd & lg & E & _ & Hpath).
  exists out, (mk_pstate (mk_tstate st fd) lg). split; [exact E|].
  cbn [p_log p_list t_state].
  destruct Hpath as [(Hrc & Herr & -> & -> & _ & _ & Hq)
                    | [(_ & Hfd & -> & -> & _ & _ & Hq)
                      | (_ & _ & body & _ & _ & _ & Hout)]].
  - right. exists "mkdir"%string. rewrite Hq. split; [reflexivity|].
    right. right. left. auto.
  - right. exists "open"%string. rewrite Hq. split; [reflexivity|].
    right. right. right. left. auto.
  - assert (Hshape : forall tl : list sys_event,
               sys_failures tl = [] -> write_calls tl = [] ->
               sys_failures ([Mkdir; Open; Lseek] ++ body ++ tl) = sys_failures body /\
               write_calls ([Mkdir; Open; Lseek] ++ body ++ tl) = write_calls body).
    { intros tl Htl Hwc.
      rewrite !sys_failures_app, !write_calls_app, Htl, Hwc, !app_nil_r.
      split; reflexivity. }
    destruct Hout as [(cpid & ret & -> & -> & _ & _ & Hv)
                     | (code & -> & -> & _ & _ & Hsf & Hc)].
    + destruct (Hshape ((if 0 <? cpid then [Kill cpid; Waitpid cpid] else []) ++
                        [InfoFree; Close; Unlink; Rmdir])) as [Hs1 Hs2];
        [destruct (0 <? cpid); reflexivity.. |].
      rewrite Hs1, Hs2.
      destruct Hv as [[Hq ->] | [[-> Hq] | (Hq & we & Hidx & Hlast & Hbad & Hn1 & Hn2 & ->)]].
      * left. auto.
      * right.
        destruct Hq as [Hq|[Hq|[Hq|Hq]]]; rewrite Hq; eexists; (split; [reflexivity|]).
        -- left. split; [left; reflexivity | reflexivity].
        -- left. split; [right; left; reflexivity | reflexivity].
        -- right. left. split; [left; reflexivity | left; reflexivity].
        -- right. left. split; [right; left; reflexivity | left; reflexivity].
      * right. rewrite Hq. eexists. split; [reflexivity|].
        right. right. right. right. split; [reflexivity|].
        exists we. auto 10.
    + destruct (Hshape (if code =? EXIT_SUCCESS then [InfoFree] else [])) as [Hs1 _];
        [destruct (code =? EXIT_SUCCESS); reflexivity.. |].
      rewrite Hs1, Hsf. cbn [app].
      destruct Hc as [(-> & Hq & _) | (-> & _ & Hq)].
      * left. auto.
      * right. destruct Hq as [Hq|Hq]; rewrite Hq; eexists; (split; [reflexivity|]).
        -- right. left. split; [left; reflexivity | right; reflexivity].
        -- right. left. split; [right; left; reflexivity | right; reflexivity].
Qed.

Lemma exit_code_tells_failure_witness :
  exists out p,
    stress_lockofd
      (mk_main 0 0 3 0 0
         [mk_write true 4096 0; mk_write true 100 28; mk_write false 0 0]
         [mk_fork 77 false 0]
         [mk_env 0 7 0 0 true false]
         (fun errno => errno + 100)) = Some (out, p) /\
    sys_failures (p_log p) = ["write"%string] /\
    write_calls (p_log p) = [4096; 100] /\ out = Returned 128.
Proof.
  destruct (exit_code_tells_failure
              (mk_main 0 0 3 0 0
                 [mk_write true 4096 0; mk_write true 100 28; mk_write false 0 0]
                 [mk_fork 77 false 0]
                 [mk_env 0 7 0 0 true false]
                 (fun errno => errno + 100)) eq_refl eq_refl eq_refl)
    as (out & p & E & _).
  exists out, p. split; [exact E|].
  assert (Hrun : Some (out, p) =
                 stress_lockofd
                   (mk_main 0 0 3 0 0
                      [mk_write true 4096 0; mk_write true 100 28; mk_write false 0 0]
                      [mk_fork 77 false 0]
                      [mk_env 0 7 0 0 true false]
                      (fun errno => errno + 100))) by (symmetry; exact E).
  vm_compute in Hrun. injection Hrun as -> ->. repeat split; reflexivity.
Defined.

(** X12: [fork] is called only when the file has taken 256 writes of a whole
    buffer, which make up [LOCK_FILE_SIZE] bytes; short and failed writes
    that are tried again do not count, and there are never more than 256
    whole ones. *)
Theorem fork_follows_whole_file (e : main_env)
  (Hw : fill_stopped (writes e) = true) (Hf : fork_stopped (forks e) = true)
  (Hl : loop_stopped (passes e) = true) :
  exists out p,
    stress_lockofd e = Some (out, p) /\
    Z.of_nat (full_writes (p_log p)) * BUFFER_SIZE <= LOCK_FILE_SIZE /\
    (forall c, In (Fork c) (p_log p) ->
               Z.of_nat (full_writes (p_log p)) * BUFFER_SIZE = LOCK_FILE_SIZE).
Proof.
  destruct (stress_lockofd_paths e Hw Hf Hl)
    as (out & st & fd & lg & E & _ & Hpath).
  exists out, (mk_pstate (mk_tstate st fd) lg). split; [exact E|].
  cbn [p_log].
  destruct Hpath as [(_ & _ & _ & -> & _) | [(_ & _ & _ & -> & _)
                    | (_ & _ & body & _ & Hle & Hfork & Hout)]].
  - split; [cbn; unfold LOCK_FILE_SIZE; lia|].
    intros c [Hc|[Hc|[]]]; discriminate.
  - split; [cbn; unfold LOCK_FILE_SIZE; lia|].
    intros c [Hc|[Hc|[Hc|[Hc|[]]]]]; discriminate.
  - assert (Hshape : forall tl : list sys_event,
               full_writes tl = 0%nat -> (forall c, ~ In (Fork c) tl) ->
               full_writes ([Mkdir; Open; Lseek] ++ body ++ tl) = full_writes body /\
               forall c, In (Fork c) ([Mkdir; Open; Lseek] ++ body ++ tl) ->
                         In (Fork c) body).
    { intros tl Htl Hno. split.
      - rewrite !full_writes_app, Htl. cbn. lia.
      - intros c Hin. apply in_app_or in Hin as [Hin|Hin].
        + destruct Hin as [Hc|[Hc|[Hc|[]]]]; discriminate.
        + apply in_app_or in Hin as [Hin|Hin]; [exact Hin | destruct (Hno c Hin)]. }
    destruct Hout as [(cpid & ret & _ & -> & _) | (code & _ & -> & _)].
    + destruct (Hshape ((if 0 <? cpid then [Kill cpid; Waitpid cpid] else []) ++
                        [InfoFree; Close; Unlink; Rmdir])) as [Hfw Hin].
      { destruct (0 <? cpid); reflexivity. }
      { intros c Hc. destruct (0 <? cpid); cbn in Hc;
          repeat (destruct Hc as [Hc|Hc]; [discriminate|]); exact Hc. }
      rewrite Hfw. split; [exact Hle|]. intros c Hc. apply (Hfork c), Hin, Hc.
    + destruct (Hshape (if code =? EXIT_SUCCESS then [InfoFree] else [])) as [Hfw Hin].
      { destruct (code =? EXIT_SUCCESS); reflexivity. }
      { intros c Hc. destruct (code =? EXIT_SUCCESS); cbn in Hc;
          repeat (destruct Hc as [Hc|Hc]; [discriminate|]); exact Hc. }
      rewrite Hfw. split; [exact Hle|]. intros c Hc. apply (Hfork c), Hin, Hc.
Qed.

Lemma fork_follows_whole_file_witness :
  exists out p,
    stress_lockofd
      (mk_main 0 0 3 0 0
         (mk_write true 100 4 :: mk_write true (-1) 11 ::
          repeat (mk_write true 4096 0) 256 ++ [mk_write false 0 0])
         [mk_fork 77 false 0]
         [mk_env 0 7 0 0 true false]
         (fun errno => errno)) = Some (out, p) /\
    full_writes (p_log p) = 256%nat /\ children (p_log p) = [77].
Proof.
  destruct (fork_follows_whole_file
              (mk_main 0 0 3 0 0
                 (mk_write true 100 4 :: mk_write true (-1) 11 ::
                  repeat (mk_write true 4096 0) 256 ++ [mk_write false 0 0])
                 [mk_fork 77 false 0]
                 [mk_env 0 7 0 0 true false]
                 (fun errno => errno)))
    as (out & p & E & _); [vm_compute; reflexivity | reflexivity | reflexivity |].
  exists out, p. split; [exact E|].
  assert (Hrun : Some (out, p) =
                 stress_lockofd
                   (mk_main 0 0 3 0 0
                      (mk_write true 100 4 :: mk_write true (-1) 11 ::
                       repeat (mk_write true 4096 0) 256 ++ [mk_write false 0 0])
                      [mk_fork 77 false 0]
                      [mk_env 0 7 0 0 true false]
                      (fun errno => errno))) by (symmetry; exact E).
  vm_compute in Hrun. injection Hrun as -> ->. split; vm_compute; reflexivity.
Defined.

(** X13: a stressor that returns, and a child that exits with [EXIT_SUCCESS],
    have freed every node the loop allocated, each once, and there were at
    most [LOCK_MAX] of them; the child whose loop failed exits with
    [EXIT_FAILURE] and has freed none. *)
Theorem stressor_frees_every_node (e : main_env)
  (Hw : fill_stopped (writes e) = true) (Hf : fork_stopped (forks e) = true)
  (Hl : loop_stopped (passes e) = true) :
  exists out p,
    stress_lockofd e = Some (out, p) /\
    Z.of_nat (length (heap (t_state (p_list p)))) <= LOCK_MAX /\
    (out <> Exited EXIT_FAILURE ->
     freed (p_list p) ≡ₚ seq 0 (length (heap (t_state (p_list p))))) /\
    (out = Exited EXIT_FAILURE ->
     freed (p_list p) = [] /\ failures (trace (t_state (p_list p))) <> []).
Proof.
  destruct (stress_lockofd_paths e Hw Hf Hl)
    as (out & st & fd & lg & E & Hbound & Hpath).
  exists out, (mk_pstate (mk_tstate st fd) lg). split; [exact E|].
  cbn [p_log p_list t_state freed]. split; [exact Hbound|].
  destruct Hpath as [(_ & _ & -> & _ & -> & Hh & _)
                    | [(_ & _ & -> & _ & -> & Hh & _)
                      | (_ & _ & body & _ & _ & _ & Hout)]].
  - rewrite Hh. split; [reflexivity | discriminate].
  - rewrite Hh. split; [reflexivity | discriminate].
  - destruct Hout as [(cpid & ret & -> & _ & _ & Hfd & _)
                     | (code & -> & _ & _ & _ & _ & Hc)].
    + split; [intros _; exact Hfd | discriminate].
    + destruct Hc as [(-> & _ & Hfd) | (-> & -> & Hq)].
      * split; [intros _; exact Hfd | discriminate].
      * split; [intros Hne; destruct (Hne eq_refl)|].
        intros _. split; [reflexivity|]. destruct Hq as [-> | ->]; discriminate.
Qed.

Lemma stressor_frees_every_node_witness :
  exists out p,
    stress_lockofd
      (mk_main 0 0 3 0 0
         (repeat (mk_write true 4096 0) 256 ++ [mk_write false 0 0])
         [mk_fork 77 false 0]
         [mk_env 0 7 0 0 true true; mk_env 0 7 8 0 true true;
          mk_env 0 7 16 (-1) true false]
         (fun errno => errno)) = Some (out, p) /\
    out = Returned 0 /\ freed (p_list p) = [0%nat; 1%nat].
Proof.
  destruct (stressor_frees_every_node
              (mk_main 0 0 3 0 0
                 (repeat (mk_write true 4096 0) 256 ++ [mk_write false 0 0])
                 [mk_fork 77 false 0]
                 [mk_env 0 7 0 0 true true; mk_env 0 7 8 0 true true;
                  mk_env 0 7 16 (-1) true false]
                 (fun errno => errno)))
    as (out & p & E & _); [vm_compute; reflexivity | reflexivity | reflexivity |].
  exists out, p. split; [exact E|].
  assert (Hrun : Some (out, p) =
                 stress_lockofd
                   (mk_main 0 0 3 0 0
                      (repeat (mk_write true 4096 0) 256 ++ [mk_write false 0 0])
                      [mk_fork 77 false 0]
                      [mk_env 0 7 0 0 true true; mk_env 0 7 8 0 true true;
                       mk_env 0 7 16 (-1) true false]
                      (fun errno => errno))) by (symmetry; exact E).
  vm_compute in Hrun. injection Hrun as -> ->. split; reflexivity.
Defined.

End LockofdMore.

(* ===================================================================== *)
(** * Part VI: more about the membarrier stressor *)
(* ===================================================================== *)

Module MembarrierMore.

Import Membarrier MembarrierFacts.

Section More.

Context {D : Type} `{DoubleOps D}.

(** ** One cycle *)

(** X14: a cycle always returns, -1 or 0: -1 exactly when the capability query
    fails, and then it has made no call but the query, reported the failure
    once and left the slot of its thread alone. *)
Theorem exercise_result (flag_cpu : bool) (e : cycle_env D) (s : estate D) :
  exists r s',
    stress_membarrier_exercise flag_cpu e s = Some (r, s') /\
    (r = -1 \/ r = 0) /\
    (r = -1 <-> query_ret e < 0) /\
    (query_ret e < 0 ->
     info s' = info s /\
     trace s' = trace s ++ [Membarrier MEMBARRIER_CMD_QUERY 0 0; PrFail]).
Proof.
  destruct (Z.lt_ge_cases (query_ret e) 0) as [Hret|Hret].
  - eexists _, _. split; [apply exercise_failed_query; exact Hret|].
    split; [left; reflexivity|]. split; [tauto|]. intros _. split; reflexivity.
  - eexists _, _. split; [apply exercise_spec; exact Hret|].
    split; [right; reflexivity|]. split; [|lia].
    split; [discriminate | lia].
Qed.

(** X15: the second loop: for every set bit of the mask, in increasing bit
    order, one call with all flags set and one with the cpu id [INT_MAX];
    none of them is counted or timed. *)
Theorem illegal_args_probes (mask : Z) (s : estate D) :
  illegal_args_sweep mask s =
    Some (mk_estate (info s)
            (trace s ++ flat_map illegal_args_calls (set_bits mask))) /\
  length (flat_map (@illegal_args_calls D) (set_bits mask)) = (2 * popcount mask)%nat.
Proof.
  split.
  - destruct (illegal_args_sweep_spec mask s) as (s' & E & Htr & Hi).
    rewrite E. destruct s' as [i t]. cbn [info trace] in Htr, Hi.
    rewrite Htr, Hi. reflexivity.
  - unfold popcount. generalize (set_bits mask). intros bs.
    induction bs as [|b bs IH]; [reflexivity|].
    cbn [flat_map length app illegal_args_calls]. rewrite IH. lia.
Qed.

(** ** The commands of a cycle *)

Lemma to_int_mod (u : Z) : 0 <= u < 2 ^ 32 -> to_int u mod 2 ^ 32 = u.
Proof.
  intros Hu. unfold to_int. destruct (Z.ltb_spec u (2 ^ 31)) as [Hlt|Hge].
  - apply Z.mod_small. lia.
  - replace (u - 2 ^ 32) with (u + (-1) * 2 ^ 32) by lia.
    rewrite Z.mod_add by lia. apply Z.mod_small. lia.
Qed.

Lemma cmd_of_bit_mod (b : nat) :
  (b < 32)%nat -> cmd_of_bit b mod 2 ^ 32 = 2 ^ Z.of_nat b.
Proof.
  intros Hb. unfold cmd_of_bit. apply to_int_mod. split; [lia|].
  apply Z.pow_lt_mono_r; lia.
Qed.

(** Distinct bits have distinct commands, and none is the query. *)
Lemma cmd_of_bit_inj (b b' : nat) :
  (b < 32)%nat -> (b' < 32)%nat -> cmd_of_bit b = cmd_of_bit b' -> b = b'.
Proof.
  intros Hb Hb' Heq. apply (f_equal (fun z => z mod 2 ^ 32)) in Heq.
  rewrite !cmd_of_bit_mod in Heq by assumption.
  apply Z.pow_inj_r in Heq; lia.
Qed.

Lemma cmd_of_bit_nonzero (b : nat) : (b < 32)%nat -> cmd_of_bit b <> 0.
Proof.
  intros Hb Heq. apply (f_equal (fun z => z mod 2 ^ 32)) in Heq.
  rewrite cmd_of_bit_mod in Heq by assumption. change (0 mod 2 ^ 32) with 0 in Heq.
  lia.
Qed.

Lemma in_legal_calls (flag_cpu : bool) (bs : list nat) (c f i : Z) :
  In (@Membarrier D c f i) (flat_map (legal_calls flag_cpu) bs) ->
  exists b, In b bs /\ c = cmd_of_bit b.
Proof.
  rewrite in_flat_map. intros (b & Hb & Hin). exists b. split; [exact Hb|].
  unfold legal_calls in Hin. destruct flag_cpu; cbn [In] in Hin;
    intuition congruence.
Qed.

Lemma in_illegal_args_calls (bs : list nat) (c f i : Z) :
  In (@Membarrier D c f i) (flat_map illegal_args_calls bs) ->
  exists b, In b bs /\ c = cmd_of_bit b.
Proof.
  rewrite in_flat_map. intros (b & Hb & Hin). exists b. split; [exact Hb|].
  unfold illegal_args_calls in Hin. cbn [In] in Hin. intuition congruence.
Qed.

(** X16: for the mask of an [int], a cycle always ends with one probe, and its
    command is one the cycle has used in no other call: it is the command of
    a bit that is clear in the mask, while the counted calls and the probes
    with illegal arguments carry commands of set bits only; and no call
    after the first repeats the query. *)
Theorem probe_command_is_not_in_mask (flag_cpu : bool) (e : cycle_env D)
  (s : estate D) (Hret : 0 <= query_ret e < 2 ^ 31) :
  exists b s',
    stress_membarrier_exercise flag_cpu e s = Some (0, s') /\
    trace s' =
      trace s ++ Membarrier MEMBARRIER_CMD_QUERY 0 0 ::
        (flat_map (legal_calls flag_cpu) (set_bits (uint_wrap (query_ret e))) ++
         flat_map illegal_args_calls (set_bits (uint_wrap (query_ret e)))) ++
        [Membarrier (cmd_of_bit b) 0 0] /\
    (b < 32)%nat /\ Z.testbit (query_ret e) (Z.of_nat b) = false /\
    cmd_of_bit b <> MEMBARRIER_CMD_QUERY /\
    forall c f i,
      In (@Membarrier D c f i)
         (flat_map (legal_calls flag_cpu) (set_bits (uint_wrap (query_ret e))) ++
          flat_map illegal_args_calls (set_bits (uint_wrap (query_ret e)))) ->
      c <> cmd_of_bit b /\ c <> MEMBARRIER_CMD_QUERY.
Proof.
  set (mask := uint_wrap (query_ret e)).
  destruct (lowest_unset_bit mask) as [b|] eqn:Hlow.
  2:{ exfalso. pose proof (proj1 (lowest_unset_bit_None mask) Hlow 31%nat ltac:(lia)) as H31.
      unfold mask in H31. rewrite int_mask_bit31 in H31 by lia. discriminate. }
  pose proof (proj1 (lowest_unset_bit_Some mask b) Hlow) as (Hb & Hclear & _).
  assert (Hprobe : @probe_calls D mask = [Membarrier (cmd_of_bit b) 0 0]).
  { unfold probe_calls. rewrite Hlow. reflexivity. }
  exists b. eexists. split; [apply exercise_spec; lia|].
  cbn [trace]. fold mask. rewrite Hprobe.
  split; [rewrite <- !app_assoc; reflexivity|].
  split; [exact Hb|].
  split.
  { unfold mask in Hclear. rewrite bit_set_uint_wrap in Hclear by exact Hb. exact Hclear. }
  split; [apply cmd_of_bit_nonzero, Hb|].
  intros c f i Hin.
  assert (Hc : exists b', In b' (set_bits mask) /\ c = cmd_of_bit b').
  { apply in_app_or in Hin as [Hin|Hin];
      [eapply in_legal_calls | eapply in_illegal_args_calls]; exact Hin. }
  destruct Hc as (b' & Hb' & ->).
  apply elem_of_set_bits in Hb' as [Hb'32 Hset].
  split; [|apply cmd_of_bit_nonzero, Hb'32].
  intros Heq. apply cmd_of_bit_inj in Heq; [|assumption..]. subst b'.
  unfold bit_set in Hclear. congruence.
Qed.

(** X17: a cycle makes at most 130 system calls: the query, two per bit in each
    of the two sweeps, and the probe. *)
Theorem cycle_call_bound (flag_cpu : bool) (e : cycle_env D) (s : estate D) :
  exists r s',
    stress_membarrier_exercise flag_cpu e s = Some (r, s') /\
    (length (membarrier_calls (trace s')) <=
     length (membarrier_calls (trace s)) + 130)%nat.
Proof.
  assert (Hpop : forall mask, (length (set_bits mask) <= 32)%nat).
  { intros mask. unfold set_bits.
    etrans; [apply List.filter_length_le|]. rewrite length_seq. lia. }
  assert (Hl : forall bs, (length (membarrier_calls
                              (flat_map (@legal_calls D flag_cpu) bs))
                           <= 2 * length bs)%nat).
  { induction bs as [|b bs IH]; [simpl; lia|].
    cbn [flat_map]. unfold membarrier_calls in *. rewrite omap_app, length_app.
    unfold legal_calls at 1. destruct flag_cpu; cbn [omap list_omap length] in *; lia. }
  assert (Ha : forall bs, (length (membarrier_calls
                              (flat_map (@illegal_args_calls D) bs))
                           <= 2 * length bs)%nat).
  { induction bs as [|b bs IH]; [simpl; lia|].
    cbn [flat_map]. unfold membarrier_calls in *. rewrite omap_app, length_app.
    unfold illegal_args_calls at 1. cbn [omap list_omap length] in *. lia. }
  assert (Hp : forall mask, (length (membarrier_calls (@probe_calls D mask)) <= 1)%nat).
  { intros mask. unfold probe_calls. generalize (lowest_unset_bit mask).
    intros [b|]; simpl; lia. }
  destruct (Z.lt_ge_cases (query_ret e) 0) as [Hret|Hret].
  - eexists _, _. split; [apply exercise_failed_query; exact Hret|].
    cbn [trace]. unfold membarrier_calls. rewrite omap_app, length_app. simpl. lia.
  - eexists _, _. split; [apply exercise_spec; exact Hret|].
    cbn [trace].
    specialize (Hpop (uint_wrap (query_ret e))).
    specialize (Hl (set_bits (uint_wrap (query_ret e)))).
    specialize (Ha (set_bits (uint_wrap (query_ret e)))).
    specialize (Hp (uint_wrap (query_ret e))).
    revert Hpop Hl Ha Hp.
    generalize (@probe_calls D (uint_wrap (query_ret e))).
    generalize (set_bits (uint_wrap (query_ret e))). intros bs pr Hpop Hl Ha Hp.
    unfold membarrier_calls in *.
    rewrite omap_app. cbn [omap list_omap]. rewrite !omap_app, !length_app.
    cbn [length]. rewrite !length_app. lia.
Qed.

(** ** The trace of the stressor *)

Lemma coordinator_cycle_events (flag_cpu : bool) (c : cycle_env D)
  (x0 x1 x2 x3 x4 : membarrier_info_t D) (lg : list (event D)) :
  coordinator_cycle flag_cpu c (mk_mstate [x0; x1; x2; x3; x4] lg)
  = Some (mk_mstate [x0; x1; x2; x3; cycle_info flag_cpu c x4]
            (lg ++ cycle_events flag_cpu c)).
Proof.
  unfold coordinator_cycle. cbn [slots log].
  change ([x0; x1; x2; x3; x4] !! MAX_MEMBARRIER_THREADS) with (Some x4).
  cbn [mbind option_bind]. unfold cycle_events.
  destruct (Z.lt_ge_cases (query_ret c) 0) as [Hret|Hret].
  - rewrite exercise_failed_query by exact Hret.
    unfold cycle_info. apply Z.ltb_lt in Hret. rewrite Hret.
    cbn. rewrite <- !app_assoc. reflexivity.
  - rewrite exercise_spec by exact Hret.
    apply Z.ltb_ge in Hret. rewrite Hret. cbn [info trace].
    generalize (cycle_info flag_cpu c x4).
    generalize (@probe_calls D (uint_wrap (query_ret c))).
    generalize (set_bits (uint_wrap (query_ret c))).
    intros bs pr x4'. cbn [mbind option_bind info trace].
    change (0 <? 0) with false. cbv iota.
    change (<[MAX_MEMBARRIER_THREADS:=x4']> [x0; x1; x2; x3; x4])
      with [x0; x1; x2; x3; x4'].
    rewrite <- !app_assoc. cbn [app]. rewrite <- !app_assoc. reflexivity.
Qed.

Lemma coordinator_cycles_events (flag_cpu : bool) (cs : list (cycle_env D)) :
  forall (x0 x1 x2 x3 x4 : membarrier_info_t D) (lg : list (event D)),
    coordinator_cycles flag_cpu cs (mk_mstate [x0; x1; x2; x3; x4] lg)
    = Some (mk_mstate [x0; x1; x2; x3; cycles_info flag_cpu cs x4]
              (lg ++ flat_map (cycle_events flag_cpu) cs)).
Proof.
  induction cs as [|c cs IH]; intros x0 x1 x2 x3 x4 lg.
  - cbn [flat_map]. rewrite app_nil_r. reflexivity.
  - cbn [coordinator_cycles]. rewrite coordinator_cycle_events.
    cbn [mbind option_bind]. rewrite IH. cbn [flat_map].
    rewrite <- app_assoc. reflexivity.
Qed.

(** The whole trace of a run past the capability gate. *)
Lemma stress_membarrier_trace (flag_cpu : bool) (e : run_env D) :
  0 <= q_ret e -> Z.land (q_ret e) MEMBARRIER_CMD_SHARED <> 0 ->
  stress_membarrier flag_cpu e =
    Some (EXIT_SUCCESS,
          Membarrier MEMBARRIER_CMD_QUERY 0 0 ::
          map PthreadCreate (seq 0 MAX_MEMBARRIER_THREADS) ++
          flat_map (cycle_events flag_cpu) (first_cycle e :: more_cycles e) ++
          MetricsSet 0 "membarrier calls per sec"
                     (aggregate_rate (summed_slots flag_cpu e)) ::
          map PthreadJoin (created_ok e)).
Proof.
  intros Hret Hbit. unfold stress_membarrier.
  apply Z.ltb_ge in Hret. apply Z.eqb_neq in Hbit. rewrite Hret, Hbit.
  rewrite init_slots. change (replicate 5 fresh_slot)
    with [@fresh_slot D _; fresh_slot; fresh_slot; fresh_slot; fresh_slot].
  cbn [mbind option_bind]. rewrite create_threads. cbn [mbind option_bind].
  rewrite coordinator_cycles_events. cbn [mbind option_bind].
  rewrite pool_writes. cbn [mbind option_bind slots log].
  rewrite sum_slots_spec. cbn [mbind option_bind slots log].
  rewrite join_threads. cbn [mbind option_bind slots log].
  unfold summed_slots, created_ok. cbv zeta.
  change (seq 0 MAX_MEMBARRIER_THREADS) with (seq 0 4).
  rewrite <- (rate_of_slots (observed e)
                (cycles_info flag_cpu (first_cycle e :: more_cycles e) fresh_slot)
                0 1 2 3 (create_ret e 0) (create_ret e 1) (create_ret e 2) (create_ret e 3)).
  cbv zeta. cbn [pthread pthread_ret].
  generalize (flat_map (cycle_events flag_cpu) (first_cycle e :: more_cycles e)).
  intros evs. rewrite <- !app_assoc. reflexivity.
Qed.

Lemma calls_only (l : list (event D)) :
  forallb is_call l = true ->
  bogo_ops l = 0%nat /\ failure_reports l = 0%nat /\
  joined_threads l = [] /\ created_threads l = [] /\ reported_rates l = [].
Proof.
  induction l as [|ev l IH]; intros Hl; [repeat split; reflexivity|].
  cbn [forallb] in Hl. apply andb_prop in Hl as [Hev Hl].
  destruct (IH Hl) as (IH1 & IH2 & IH3 & IH4 & IH5).
  destruct ev; try discriminate. repeat split; assumption.
Qed.

Lemma cycle_calls_are_calls (flag_cpu : bool) (mask : Z) :
  forallb (@is_call D)
    (flat_map (legal_calls flag_cpu) (set_bits mask) ++
     flat_map illegal_args_calls (set_bits mask) ++ probe_calls mask) = true.
Proof.
  unfold probe_calls. generalize (lowest_unset_bit mask). generalize (set_bits mask).
  intros bs p. rewrite !forallb_app.
  assert (Hl : forallb (@is_call D) (flat_map (legal_calls flag_cpu) bs) = true).
  { induction bs as [|b bs IH]; [reflexivity|]. cbn [flat_map].
    rewrite forallb_app, IH. unfold legal_calls. destruct flag_cpu; reflexivity. }
  assert (Ha : forallb (@is_call D) (flat_map illegal_args_calls bs) = true).
  { clear Hl. induction bs as [|b bs IH]; [reflexivity|]. cbn [flat_map].
    rewrite forallb_app, IH. reflexivity. }
  rewrite Hl, Ha. destruct p; reflexivity.
Qed.

Lemma bogo_ops_app (l k : list (event D)) :
  bogo_ops (l ++ k) = (bogo_ops l + bogo_ops k)%nat.
Proof. unfold bogo_ops. rewrite List.filter_app, length_app. reflexivity. Qed.

Lemma failure_reports_app (l k : list (event D)) :
  failure_reports (l ++ k) = (failure_reports l + failure_reports k)%nat.
Proof. unfold failure_reports. rewrite List.filter_app, length_app. reflexivity. Qed.

(** What one pass of the coordinator's loop counts. *)
Lemma cycle_events_counts (flag_cpu : bool) (c : cycle_env D) :
  bogo_ops (cycle_events flag_cpu c) = 1%nat /\
  failure_reports (cycle_events flag_cpu c) =
    (if query_ret c <? 0 then 2%nat else 0%nat) /\
  joined_threads (cycle_events flag_cpu c) = [] /\
  created_threads (cycle_events flag_cpu c) = [] /\
  reported_rates (cycle_events flag_cpu c) = [].
Proof.
  unfold cycle_events. destruct (query_ret c <? 0); [repeat split; reflexivity|].
  pose proof (cycle_calls_are_calls flag_cpu (uint_wrap (query_ret c))) as Hc.
  revert Hc.
  generalize (flat_map (@legal_calls D flag_cpu) (set_bits (uint_wrap (query_ret c)))).
  generalize (flat_map (@illegal_args_calls D) (set_bits (uint_wrap (query_ret c)))).
  generalize (@probe_calls D (uint_wrap (query_ret c))).
  intros pr ia lc Hc.
  replace (Membarrier MEMBARRIER_CMD_QUERY 0 0 :: lc ++ ia ++ pr ++ [IncCounter])
    with ((Membarrier MEMBARRIER_CMD_QUERY 0 0 :: lc ++ ia ++ pr) ++ [@IncCounter D])
    by (cbn [app]; rewrite <- !app_assoc; reflexivity).
  assert (Hc' : forallb is_call (Membarrier MEMBARRIER_CMD_QUERY 0 0 :: lc ++ ia ++ pr) = true)
    by (cbn [forallb is_call andb]; exact Hc).
  destruct (calls_only _ Hc') as (H1 & H2 & H3 & H4 & H5).
  rewrite bogo_ops_app, failure_reports_app, H1, H2.
  unfold joined_threads, created_threads, reported_rates in *.
  rewrite !omap_app, H3, H4, H5. repeat split; reflexivity.
Qed.

Lemma cycles_events_counts (flag_cpu : bool) (cs : list (cycle_env D)) :
  bogo_ops (flat_map (cycle_events flag_cpu) cs) = length cs /\
  failure_reports (flat_map (cycle_events flag_cpu) cs) =
    (2 * length (List.filter (fun c => (query_ret c <? 0)%Z) cs))%nat /\
  joined_threads (flat_map (cycle_events flag_cpu) cs) = [] /\
  created_threads (flat_map (cycle_events flag_cpu) cs) = [] /\
  reported_rates (flat_map (cycle_events flag_cpu) cs) = [].
Proof.
  induction cs as [|c cs (IH1 & IH2 & IH3 & IH4 & IH5)]; [repeat split; reflexivity|].
  destruct (cycle_events_counts flag_cpu c) as (H1 & H2 & H3 & H4 & H5).
  cbn [flat_map List.filter].
  rewrite bogo_ops_app, failure_reports_app, H1, H2, IH1, IH2.
  unfold joined_threads, created_threads, reported_rates in *.
  rewrite !omap_app, H3, H4, H5, IH3, IH4, IH5.
  split; [reflexivity|]. split; [|repeat split; reflexivity].
  destruct (query_ret c <? 0); cbn [length]; lia.
Qed.

Lemma joins_counts (l : list nat) :
  bogo_ops (map (@PthreadJoin D) l) = 0%nat /\
  failure_reports (map (@PthreadJoin D) l) = 0%nat /\
  joined_threads (map (@PthreadJoin D) l) = l.
Proof.
  induction l as [|i l (IH1 & IH2 & IH3)]; [repeat split; reflexivity|].
  repeat split; try assumption. cbn. f_equal. exact IH3.
Qed.

(** X18: the coordinator counts one bogo operation for each of its cycles,
    also for a cycle whose query fails: such a cycle is reported twice, by
    the cycle and by the coordinator, and the coordinator goes on. *)
Theorem coordinator_counts_every_cycle (flag_cpu : bool) (e : run_env D)
  (Hret : 0 <= q_ret e)
  (Hbit : Z.land (q_ret e) MEMBARRIER_CMD_SHARED <> 0) :
  exists lg,
    stress_membarrier flag_cpu e = Some (EXIT_SUCCESS, lg) /\
    bogo_ops lg = S (length (more_cycles e)) /\
    failure_reports lg = (2 * failed_cycles e)%nat.
Proof.
  eexists. split; [apply stress_membarrier_trace; assumption|].
  destruct (cycles_events_counts flag_cpu (first_cycle e :: more_cycles e))
    as (H1 & H2 & _).
  destruct (joins_counts (created_ok e)) as (J1 & J2 & _).
  unfold failed_cycles.
  revert H1 H2 J1 J2.
  generalize (flat_map (cycle_events flag_cpu) (first_cycle e :: more_cycles e)).
  generalize (aggregate_rate (summed_slots flag_cpu e)).
  generalize (map (@PthreadJoin D) (created_ok e)).
  intros js rate evs H1 H2 J1 J2.
  change (bogo_ops ?l) with (bogo_ops l).
  replace (Membarrier MEMBARRIER_CMD_QUERY 0 0
           :: map PthreadCreate (seq 0 MAX_MEMBARRIER_THREADS) ++
              evs ++ MetricsSet 0 "membarrier calls per sec" rate :: js)
    with ((Membarrier MEMBARRIER_CMD_QUERY 0 0
           :: map (@PthreadCreate D) (seq 0 MAX_MEMBARRIER_THREADS)) ++
          evs ++ [MetricsSet 0 "membarrier calls per sec" rate] ++ js)
    by reflexivity.
  rewrite !bogo_ops_app, !failure_reports_app, H1, H2, J1, J2.
  cbn [length]. split; cbn; lia.
Qed.

(** X19: past the capability gate the run is: the query, the four thread
    creations, the cycles of the coordinator, the one rate report, and then
    the joins, in index order, of exactly the threads whose creation
    returned 0. *)
Theorem joins_follow_the_report (flag_cpu : bool) (e : run_env D)
  (Hret : 0 <= q_ret e)
  (Hbit : Z.land (q_ret e) MEMBARRIER_CMD_SHARED <> 0) :
  exists cyc rate,
    stress_membarrier flag_cpu e =
      Some (EXIT_SUCCESS,
            Membarrier MEMBARRIER_CMD_QUERY 0 0 ::
            map PthreadCreate (seq 0 MAX_MEMBARRIER_THREADS) ++
            cyc ++
            MetricsSet 0 "membarrier calls per sec" rate ::
            map PthreadJoin (created_ok e)) /\
    created_threads cyc = [] /\ joined_threads cyc = [] /\
    reported_rates cyc = [] /\
    (forall i, In i (created_ok e) <->
               (i < MAX_MEMBARRIER_THREADS)%nat /\ create_ret e i = 0).
Proof.
  exists (flat_map (cycle_events flag_cpu) (first_cycle e :: more_cycles e)),
         (aggregate_rate (summed_slots flag_cpu e)).
  split; [apply stress_membarrier_trace; assumption|].
  destruct (cycles_events_counts flag_cpu (first_cycle e :: more_cycles e))
    as (_ & _ & H3 & H4 & H5).
  split; [exact H4|]. split; [exact H3|]. split; [exact H5|].
  intros i. unfold created_ok. rewrite List.filter_In, in_seq, Z.eqb_eq.
  split; intros [Hi Hc]; (split; [lia | exact Hc]).
Qed.

(** ** Refusal at the capability gate *)

(** X20: a stressor that the capability gate turns away has made the query and
    nothing else: no thread, no cycle, no bogo operation, no rate report;
    it has printed one message, or none at all when membarrier is not
    implemented and the instance is not the first. *)
Theorem refused_run_does_nothing (flag_cpu : bool) (e : run_env D)
  (Hgate : q_ret e < 0 \/ Z.land (q_ret e) MEMBARRIER_CMD_SHARED = 0) :
  exists st msg,
    stress_membarrier flag_cpu e =
      Some (st, Membarrier MEMBARRIER_CMD_QUERY 0 0 :: msg) /\
    st <> EXIT_SUCCESS /\
    (msg = [] \/ msg = [PrInfSkip] \/ msg = [PrFail] \/ msg = [PrInf]) /\
    (msg = [] <-> q_ret e < 0 /\ q_errno e = ENOSYS /\ instance e <> 0) /\
    (msg = [PrFail] <-> q_ret e < 0 /\ q_errno e <> ENOSYS).
Proof.
  unfold stress_membarrier. cbv zeta.
  destruct (Z.ltb_spec (q_ret e) 0) as [Hret|Hret].
  - destruct (Z.eqb_spec (q_errno e) ENOSYS) as [Herr|Herr].
    + destruct (Z.eqb_spec (instance e) 0) as [Hi|Hi].
      * exists EXIT_NOT_IMPLEMENTED, [PrInfSkip]. split; [reflexivity|].
        split; [discriminate|]. split; [auto|].
        split; (split; [discriminate | tauto]).
      * exists EXIT_NOT_IMPLEMENTED, []. split; [reflexivity|].
        split; [discriminate|]. split; [auto|].
        split; [tauto|]. split; [discriminate | tauto].
    + exists EXIT_FAILURE, [PrFail]. split; [reflexivity|].
      split; [discriminate|]. split; [auto|].
      split; [|tauto]. split; [discriminate | tauto].
  - destruct Hgate as [Hneg|Hbit]; [lia|].
    rewrite Hbit. change (0 =? 0) with true. cbv iota.
    exists EXIT_NOT_IMPLEMENTED, [PrInf]. split; [reflexivity|].
    split; [discriminate|]. split; [auto|].
    split; (split; [discriminate | intros (? & _); lia]).
Qed.

(** ** The loop of a pool thread *)

Lemma cycle_info_pthread_ret (flag_cpu : bool) (c : cycle_env D)
  (x : membarrier_info_t D) :
  pthread_ret (cycle_info flag_cpu c x) = pthread_ret x /\
  pthread (cycle_info flag_cpu c x) = pthread x.
Proof. unfold cycle_info. destruct (query_ret c <? 0); split; reflexivity. Qed.

Lemma cycles_info_pthread_ret (flag_cpu : bool) (cs : list (cycle_env D)) :
  forall x : membarrier_info_t D,
    pthread_ret (cycles_info flag_cpu cs x) = pthread_ret x /\
    pthread (cycles_info flag_cpu cs x) = pthread x.
Proof.
  unfold cycles_info. induction cs as [|c cs IH]; intros x; [split; reflexivity|].
  cbn [foldl]. destruct (IH (cycle_info flag_cpu c x)) as [-> ->].
  apply cycle_info_pthread_ret.
Qed.

(** What a cycle leaves behind, in figures. *)
Lemma exercise_counts (flag_cpu : bool) (c : cycle_env D) (s : estate D) :
  exists s',
    stress_membarrier_exercise flag_cpu c s =
      Some (if query_ret c <? 0 then -1 else 0, s') /\
    info s' = cycle_info flag_cpu c (info s) /\
    bogo_ops (trace s') = bogo_ops (trace s) /\
    failure_reports (trace s') =
      (failure_reports (trace s) + if (query_ret c <? 0)%Z then 1 else 0)%nat.
Proof.
  destruct (Z.ltb_spec (query_ret c) 0) as [Hret|Hret].
  - eexists. split; [apply exercise_failed_query; exact Hret|].
    cbn [info trace]. unfold cycle_info. apply Z.ltb_lt in Hret. rewrite Hret.
    split; [reflexivity|].
    rewrite bogo_ops_app, failure_reports_app. split; cbn; lia.
  - eexists. split; [apply exercise_spec; exact Hret|].
    cbn [info trace]. split; [reflexivity|].
    pose proof (cycle_calls_are_calls flag_cpu (uint_wrap (query_ret c))) as Hc.
    revert Hc.
    generalize (flat_map (@legal_calls D flag_cpu) (set_bits (uint_wrap (query_ret c)))).
    generalize (flat_map (@illegal_args_calls D) (set_bits (uint_wrap (query_ret c)))).
    generalize (@probe_calls D (uint_wrap (query_ret c))).
    intros pr ia lc Hc.
    assert (Hc' : forallb is_call (Membarrier MEMBARRIER_CMD_QUERY 0 0 :: lc ++ ia ++ pr) = true)
      by (cbn [forallb is_call andb]; exact Hc).
    destruct (calls_only _ Hc') as (H1 & H2 & _).
    rewrite bogo_ops_app, failure_reports_app, H1, H2. split; lia.
Qed.

(** X21: a pool thread whose loop comes to an end leaves in its slot the counts
    and durations of the cycles it ran, with the handle and the result of
    its creation as they were; it never counts a bogo operation; a cycle
    whose query fails is its last, so it reports at most one failure. *)
Theorem thread_loop_result (flag_cpu : bool) (cs : list (bool * cycle_env D)) :
  forall (s : estate D) (Hstop : thread_stops cs = true),
  exists s',
    stress_membarrier_thread flag_cpu cs s = Some s' /\
    info s' = cycles_info flag_cpu (cycles_run cs) (info s) /\
    pthread_ret (info s') = pthread_ret (info s) /\
    bogo_ops (trace s') = bogo_ops (trace s) /\
    failure_reports (trace s') =
      (failure_reports (trace s) +
       length (List.filter (fun c => (query_ret c <? 0)%Z) (cycles_run cs)))%nat /\
    (length (List.filter (fun c => (query_ret c <? 0)%Z) (cycles_run cs)) <= 1)%nat /\
    (forall c, In c (removelast (cycles_run cs)) -> 0 <= query_ret c).
Proof.
  induction cs as [|[k c] cs IH]; intros s Hstop; [discriminate|].
  destruct k.
  - cbn [stress_membarrier_thread cycles_run thread_stops] in *.
    destruct (exercise_counts flag_cpu c s) as (s1 & E & Hi & Hb & Hf).
    rewrite E. cbn [mbind option_bind].
    destruct (Z.ltb_spec (query_ret c) 0) as [Hret|Hret].
    + change (-1 <? 0) with true. cbv iota.
      exists s1. split; [reflexivity|]. split; [exact Hi|].
      split; [rewrite Hi; apply cycle_info_pthread_ret|].
      split; [exact Hb|].
      cbn [List.filter]. apply Z.ltb_lt in Hret. rewrite Hret. cbn [length].
      split; [exact Hf|]. split; [lia|]. intros c' [].
    + change (0 <? 0) with false. cbv iota.
      cbn [orb] in Hstop.
      destruct (IH s1 Hstop) as (s' & E' & Hi' & Hp' & Hb' & Hf' & Hle & Hlast).
      exists s'. split; [exact E'|].
      split; [rewrite Hi', Hi; reflexivity|].
      split; [rewrite Hp', Hi; apply cycle_info_pthread_ret|].
      split; [rewrite Hb'; exact Hb|].
      cbn [List.filter]. pose proof Hret as Hret'. apply Z.ltb_ge in Hret'.
      rewrite Hret'.
      split; [rewrite Hf', Hf; lia|]. split; [exact Hle|].
      intros c' Hin. destruct (cycles_run cs) as [|c2 l] eqn:Hcr; [destruct Hin|].
      cbn [removelast] in Hin. destruct Hin as [<-|Hin]; [exact Hret|].
      apply Hlast. exact Hin.
  - cbn [stress_membarrier_thread cycles_run]. exists s.
    split; [reflexivity|]. split; [reflexivity|]. split; [reflexivity|].
    split; [reflexivity|]. cbn [List.filter length].
    split; [lia|]. split; [lia|]. intros c' [].
Qed.

End More.

(** ** Instances over the rationals *)

Lemma probe_command_is_not_in_mask_witness :
  exists s',
    stress_membarrier_exercise flag_cpu_defined (mk_cycle 6 (1 # 2) (3 # 4))
      (mk_estate (mk_info 0 0 0%Q 0%Q) []) = Some (0, s') /\
    last (trace s') = Some (Membarrier 1 0 0).
Proof.
  destruct (probe_command_is_not_in_mask flag_cpu_defined (mk_cycle 6 (1 # 2) (3 # 4))
              (mk_estate (mk_info 0 0 0%Q 0%Q) []))
    as (b & s' & E & Htr & _); [simpl; lia|].
  exists s'. split; [exact E|].
  assert (Hs : Some (0, s') =
               stress_membarrier_exercise flag_cpu_defined (mk_cycle 6 (1 # 2) (3 # 4))
                 (mk_estate (mk_info 0 0 0%Q 0%Q) [])) by (symmetry; exact E).
  vm_compute in Hs. injection Hs as ->. reflexivity.
Defined.

Lemma coordinator_counts_every_cycle_witness :
  exists lg,
    stress_membarrier flag_cpu_defined
      (mk_run 0 1 0 (fun _ => 0) (mk_cycle 6 (1 # 2) (3 # 4)) [mk_cycle (-1) 0%Q 0%Q]
              (fun _ => (1 # 3, 5)%Q))
      = Some (EXIT_SUCCESS, lg) /\
    bogo_ops lg = 2%nat /\ failure_reports lg = 2%nat.
Proof.
  destruct (coordinator_counts_every_cycle flag_cpu_defined
              (mk_run 0 1 0 (fun _ => 0) (mk_cycle 6 (1 # 2) (3 # 4))
                      [mk_cycle (-1) 0%Q 0%Q] (fun _ => (1 # 3, 5)%Q)))
    as (lg & E & Hb & Hf); [simpl; lia | discriminate |].
  exists lg. split; [exact E|]. split; [exact Hb | exact Hf].
Defined.

Lemma joins_follow_the_report_witness :
  exists cyc rate,
    stress_membarrier flag_cpu_defined
      (mk_run 0 1 0 (fun i => if (i =? 2)%nat then 11 else 0)
              (mk_cycle 1 (1 # 2) (3 # 4)) [] (fun _ => (1 # 3, 5)%Q))
      = Some (EXIT_SUCCESS,
              Membarrier 0 0 0 ::
              [PthreadCreate 0; PthreadCreate 1; PthreadCreate 2; PthreadCreate 3] ++
              cyc ++
              MetricsSet 0 "membarrier calls per sec" rate ::
              [PthreadJoin 0; PthreadJoin 1; PthreadJoin 3]) /\
    joined_threads cyc = [].
Proof.
  destruct (joins_follow_the_report flag_cpu_defined
              (mk_run 0 1 0 (fun i => if (i =? 2)%nat then 11 else 0)
                      (mk_cycle 1 (1 # 2) (3 # 4)) [] (fun _ => (1 # 3, 5)%Q)))
    as (cyc & rate & E & _ & Hj & _); [simpl; lia | discriminate |].
  exists cyc, rate. split; [exact E | exact Hj].
Defined.

Lemma refused_run_does_nothing_witness :
  exists st msg,
    stress_membarrier flag_cpu_defined
      (mk_run 3 (-1) 38 (fun _ => 0) (mk_cycle 6 (1 # 2) (3 # 4)) []
              (fun _ => (0, 0)%Q))
    = Some (st, Membarrier 0 0 0 :: msg) /\ st <> EXIT_SUCCESS /\ msg = [].
Proof.
  destruct (refused_run_does_nothing flag_cpu_defined
              (mk_run 3 (-1) 38 (fun _ => 0) (mk_cycle 6 (1 # 2) (3 # 4)) []
                      (fun _ => (0, 0)%Q)))
    as (st & msg & E & Hst & _ & [_ Hmsg] & _); [left; simpl; lia|].
  exists st, msg. split; [exact E|]. split; [exact Hst|].
  apply Hmsg. simpl. split; [lia|]. split; [reflexivity | discriminate].
Defined.

Lemma thread_loop_result_witness :
  exists s',
    stress_membarrier_thread flag_cpu_defined
      [(true, mk_cycle 6 (1 # 2) (3 # 4)); (true, mk_cycle (-1) 0%Q 0%Q);
       (true, mk_cycle 6 0%Q 1%Q)]
      (mk_estate (mk_info 0 0 0%Q 0%Q) []) = Some s' /\
    failure_reports (trace s') = 1%nat /\ bogo_ops (trace s') = 0%nat.
Proof.
  destruct (thread_loop_result flag_cpu_defined
              [(true, mk_cycle 6 (1 # 2) (3 # 4)); (true, mk_cycle (-1) 0%Q 0%Q);
               (true, mk_cycle 6 0%Q 1%Q)]
              (mk_estate (mk_info 0 0 0%Q 0%Q) []) eq_refl)
    as (s' & E & _ & _ & Hb & Hf & _).
  exists s'. split; [exact E|]. split; [exact Hf | exact Hb].
Defined.

End MembarrierMore.
